(** * pdf-prepender: a shallow embedding of the link pipeline

    The Python package prepends generated pages to a PDF and installs
    page links whose targets are shifted by the number of prepended pages.
    This development embeds the pure parts of that pipeline (link table,
    marker formatter, page composer, merger, link annotator) and states the
    properties of the design document against them.

    Conventions.
    - A Python [int] is a [Z]; a Python [str] is a list of Unicode code
      points ([N]), so that [len] counts code points as Python does.
    - Mutable Python objects that are shared by reference (link managers,
      link records) live in an explicit heap indexed by locations.
    - Python [float] geometry is kept abstract behind the operations of
      the class [Float]; no theorem depends on rounding.
    - A call that can raise returns an [Exc]: the paragraph constructor
      of ReportLab and its [build] raise for some markup and stories, and
      [generate] and [build] pass that on to their callers.  When and
      whether they raise is the library's business, given by the fields
      [paragraph_raises] and [build_raises] of the layout engine. *)

From Stdlib Require Import ZArith List Bool Lia Ascii String QArith Qabs.
From Stdlib Require Import Sorted Permutation.
From Stdlib Require Import Numbers.DecimalString Numbers.DecimalZ.
From Equations Require Import Equations.
Import ListNotations.

Local Open Scope Z_scope.

(* ===================================================================== *)
(** ** Python strings *)
(* ===================================================================== *)

Module PyStr.

(** One Unicode code point. *)
Definition char := N.

(** A Python [str]. *)
Definition str := list char.

(** An ASCII literal as a [str]. *)
Definition lit (s : string) : str :=
  List.map N_of_ascii (list_ascii_of_string s).

(** [len(s)] *)
Definition len (s : str) : Z := Z.of_nat (List.length s).

(** [a == b] on strings. *)
Fixpoint str_eqb (a b : str) : bool :=
  match a, b with
  | [], [] => true
  | x :: a', y :: b' => N.eqb x y && str_eqb a' b'
  | _, _ => false
  end.

(** [s.startswith(p)] *)
Fixpoint startswith (p s : str) : bool :=
  match p, s with
  | [], _ => true
  | x :: p', y :: s' => N.eqb x y && startswith p' s'
  | _ :: _, [] => false
  end.

(** [p in s] *)
Fixpoint contains (p s : str) : bool :=
  startswith p s ||
  match s with
  | [] => false
  | _ :: s' => contains p s'
  end.

(** [s.replace(old, new, 1)] for a non-empty [old]: the first
    occurrence from the left is replaced. *)
Fixpoint replace_first (old new s : str) : str :=
  if startswith old s then new ++ skipn (List.length old) s
  else match s with
       | [] => []
       | c :: s' => c :: replace_first old new s'
       end.

(** [s.replace(old, new)] for a non-empty [old]: every occurrence,
    scanning from the left without overlap.  [skip] counts the characters
    of the occurrence being consumed. *)
Fixpoint replace_all_from (skip : nat) (old new s : str) : str :=
  match s with
  | [] => []
  | c :: s' =>
      match skip with
      | S k => replace_all_from k old new s'
      | O => if startswith old s
             then new ++ replace_all_from (List.length old - 1) old new s'
             else c :: replace_all_from O old new s'
      end
  end.

Definition replace_all (old new s : str) : str :=
  replace_all_from O old new s.

(** [s.count(p)] for a non-empty [p]: occurrences without overlap. *)
Fixpoint count_from (skip : nat) (p s : str) : nat :=
  match s with
  | [] => O
  | _ :: s' =>
      match skip with
      | S k => count_from k p s'
      | O => if startswith p s
             then S (count_from (List.length p - 1) p s')
             else count_from O p s'
      end
  end.

Definition count (p s : str) : nat := count_from O p s.

(** [s[i:j]] for [0 <= i <= j]. *)
Definition slice (s : str) (i j : Z) : str :=
  firstn (Z.to_nat (j - i)) (skipn (Z.to_nat i) s).

(** [str(z)] and [f"{z}"] for an [int]: decimal digits, with a leading
    minus sign for negative numbers. *)
Definition str_of_int (z : Z) : str :=
  lit (NilEmpty.string_of_int (Z.to_int z)).

(** ["".join(parts)] *)
Definition join (parts : list str) : str := List.concat parts.

(** [a < b] on [str]: by code points, a proper prefix before the longer
    string. *)
Fixpoint str_ltb (a b : str) : bool :=
  match a, b with
  | _, [] => false
  | [], _ :: _ => true
  | x :: a', y :: b' =>
      if N.ltb x y then true
      else if N.eqb x y then str_ltb a' b'
      else false
  end.

End PyStr.
Import PyStr.

(* ===================================================================== *)
(** ** Python floats, abstractly *)
(* ===================================================================== *)

(** The operations on [float] that the package uses.  [of_int] is the
    implicit conversion of an [int] operand, [flt a b] is [a < b] and
    [finf] is [float("inf")]. *)
Class Float (F : Type) := {
  of_int : Z -> F;
  fadd : F -> F -> F;
  fsub : F -> F -> F;
  fmul : F -> F -> F;
  fdiv : F -> F -> F;
  fabs : F -> F;
  flt : F -> F -> bool;
  finf : F
}.

(** [max(a, b)] of Python: [b] when [b > a], else [a]. *)
Definition pymax {F} `{Float F} (a b : F) : F :=
  if flt a b then b else a.

(* ===================================================================== *)
(** ** Python exceptions *)
(* ===================================================================== *)

(** The exceptions that the libraries raise through [PageGenerator]:
    ReportLab's [ValueError] for markup that its paragraph parser does
    not accept, and its [LayoutError] for a flowable that fits no
    frame. *)
Inductive Exception := ValueError | LayoutError.

(** A call that returns a value or raises. *)
Inductive Exc (A : Type) : Type :=
| Ok (a : A)
| Raise (e : Exception).

Arguments Ok {A} a.
Arguments Raise {A} e.

(** The rest of a function body runs only when the call returned. *)
Definition bind {A B} (m : Exc A) (k : A -> Exc B) : Exc B :=
  match m with
  | Ok a => k a
  | Raise e => Raise e
  end.

Notation "x <- m ;; k" := (bind m (fun x => k))
  (at level 61, m at next level, right associativity).

(** The result seen through [f], when there is one. *)
Definition exc_map {A B} (f : A -> B) (m : Exc A) : Exc B :=
  match m with
  | Ok a => Ok (f a)
  | Raise e => Raise e
  end.

(* ===================================================================== *)
(** ** core/link_manager.py *)
(* ===================================================================== *)

Module link_manager.

(** A reference to a heap object. *)
Definition loc := nat.

(** [LinkInfo]: [adjusted_page] is [None] until resolved. *)
Record LinkInfo := mkLinkInfo {
  original_page : Z;
  adjusted_page : option Z
}.

(** [LinkInfo.destination_name] *)
Definition destination_name (i : LinkInfo) : str :=
  let page := match adjusted_page i with
              | Some a => a
              | None => original_page i
              end in
  lit "page_" ++ str_of_int page.

(** [LinkManager]: [_links] holds references to the registered
    records, which callers of [register_link] hold as well. *)
Record LinkManager := mkLinkManager {
  prepended_page_count : Z;
  _links : list loc
}.

(** The object store: records and managers by location.  Locations
    below [next_info] / [next_manager] are allocated. *)
Record Heap := mkHeap {
  infos : loc -> LinkInfo;
  next_info : loc;
  managers : loc -> LinkManager;
  next_manager : loc
}.

Definition upd {A} (f : loc -> A) (l : loc) (v : A) : loc -> A :=
  fun l' => if Nat.eqb l' l then v else f l'.

Definition empty_heap : Heap :=
  mkHeap (fun _ => mkLinkInfo 0 None) O (fun _ => mkLinkManager 0 []) O.

Definition set_info (h : Heap) (l : loc) (i : LinkInfo) : Heap :=
  mkHeap (upd (infos h) l i) (next_info h) (managers h) (next_manager h).

Definition set_manager (h : Heap) (l : loc) (m : LinkManager) : Heap :=
  mkHeap (infos h) (next_info h) (upd (managers h) l m) (next_manager h).

(** [LinkManager()] *)
Definition new_LinkManager (h : Heap) : loc * Heap :=
  let l := next_manager h in
  (l, mkHeap (infos h) (next_info h)
             (upd (managers h) l (mkLinkManager 0 [])) (S l)).

(** [LinkManager.register_link] *)
Definition register_link (h : Heap) (self : loc) (original : Z)
  : loc * Heap :=
  let link := next_info h in
  let h1 := mkHeap (upd (infos h) link (mkLinkInfo original None))
                   (S link) (managers h) (next_manager h) in
  let m := managers h1 self in
  (link,
   set_manager h1 self
     (mkLinkManager (prepended_page_count m) (_links m ++ [link]))).

(** The body of the loop of [_update_all_links]:
    [link.adjusted_page = link.original_page + self.prepended_page_count] *)
Definition update_link (self : loc) (h : Heap) (link : loc) : Heap :=
  set_info h link
    (mkLinkInfo (original_page (infos h link))
       (Some (original_page (infos h link)
              + prepended_page_count (managers h self)))).

(** [LinkManager._update_all_links] *)
Definition _update_all_links (h : Heap) (self : loc) : Heap :=
  fold_left (update_link self) (_links (managers h self)) h.

(** [LinkManager.set_prepended_page_count] *)
Definition set_prepended_page_count (h : Heap) (self : loc) (count : Z)
  : Heap :=
  let h1 := set_manager h self
              (mkLinkManager count (_links (managers h self))) in
  _update_all_links h1 self.

(** [LinkManager.get_adjusted_page] *)
Definition get_adjusted_page (h : Heap) (self : loc) (original : Z) : Z :=
  original + prepended_page_count (managers h self).

(** [LinkManager.get_destination_name] *)
Definition get_destination_name (h : Heap) (self : loc) (original : Z)
  : str :=
  let adjusted := get_adjusted_page h self original in
  lit "page_" ++ str_of_int adjusted.

(** [LinkManager.clear] *)
Definition clear (h : Heap) (self : loc) : Heap :=
  set_manager h self
    (mkLinkManager (prepended_page_count (managers h self)) []).

(** [LinkManager.link_count] *)
Definition link_count (h : Heap) (self : loc) : Z :=
  Z.of_nat (List.length (_links (managers h self))).

(** [LinkManager.generate_all_destinations] *)
Definition generate_all_destinations (total_pages : Z) : list str :=
  List.map (fun i => lit "page_" ++ str_of_int (Z.of_nat i))
    (seq 1 (Z.to_nat total_pages)).

(** Two heaps that hold the same objects. *)
Definition heap_eq (h1 h2 : Heap) : Prop :=
  (forall l, infos h1 l = infos h2 l) /\
  next_info h1 = next_info h2 /\
  (forall l, managers h1 l = managers h2 l) /\
  next_manager h1 = next_manager h2.

End link_manager.

(* ===================================================================== *)
(** ** parsers/text_formatter.py *)
(* ===================================================================== *)

Module text_formatter.

Definition newline : char := 10%N.

(** [TextFormatter]: the two compiled patterns are determined by the
    markers, [re.escape(marker) + "(.+?)" + re.escape(marker)]. *)
Record TextFormatter := mkTextFormatter {
  bold_marker : str;
  italic_marker : str
}.

(** [TextFormatter()] with the default markers. *)
Definition default_formatter : TextFormatter :=
  mkTextFormatter (lit "**") (lit "_").

(** A match object of [marker(.+?)marker]: [start()], [end()] and
    [group(1)]. *)
Record Match := mkMatch {
  m_start : nat;
  m_end : nat;
  m_group1 : str
}.

(** The lazy [.+?] followed by the literal marker: consume one
    character that is not a newline, stop as soon as the marker
    follows, otherwise consume one more. *)
Fixpoint dot_plus_lazy (marker rest : str) : option str :=
  match rest with
  | [] => None
  | c :: rest' =>
      if N.eqb c newline then None
      else if startswith marker rest' then Some [c]
      else option_map (cons c) (dot_plus_lazy marker rest')
  end.

(** An attempt to match the pattern at the head of [s]; the result
    is [group(1)]. *)
Definition match_at (marker s : str) : option str :=
  if startswith marker s
  then dot_plus_lazy marker (skipn (List.length marker) s)
  else None.

(** [pattern.finditer(s)]: leftmost matches without overlap.  [pos] is
    the index of the head of [s], [skip] the number of characters of
    the last match still to pass. *)
Fixpoint finditer_from (marker : str) (pos skip : nat) (s : str)
  : list Match :=
  match s with
  | [] => []
  | _ :: s' =>
      match skip with
      | S k => finditer_from marker (S pos) k s'
      | O =>
          match match_at marker s with
          | Some inner =>
              let n := (2 * List.length marker + List.length inner)%nat in
              mkMatch pos (pos + n) inner
                :: finditer_from marker (S pos) (n - 1) s'
          | None => finditer_from marker (S pos) O s'
          end
      end
  end.

Definition finditer (marker s : str) : list Match :=
  finditer_from marker O O s.

(** [pattern.sub(open + r"\1" + close, s)] *)
Fixpoint sub_from (marker open close : str) (skip : nat) (s : str) : str :=
  match s with
  | [] => []
  | c :: s' =>
      match skip with
      | S k => sub_from marker open close k s'
      | O =>
          match match_at marker s with
          | Some inner =>
              let n := (2 * List.length marker + List.length inner)%nat in
              open ++ inner ++ close
                ++ sub_from marker open close (n - 1) s'
          | None => c :: sub_from marker open close O s'
          end
      end
  end.

(** [html.escape(text, quote=False)]:
    [s.replace("&", "&amp;").replace("<", "&lt;").replace(">", "&gt;")] *)
Definition escape_xml (text : str) : str :=
  replace_all (lit ">") (lit "&gt;")
    (replace_all (lit "<") (lit "&lt;")
       (replace_all (lit "&") (lit "&amp;") text)).

Definition bold_placeholder : str := 0%N :: lit "BOLD" ++ [0%N].
Definition italic_placeholder : str := 0%N :: lit "ITALIC" ++ [0%N].

(** One turn of the loops over [reversed(matches)]:
    [result[:start] + ph + escape(group(1)) + ph + result[end:]] *)
Definition wrap_match (ph : str) (result : str) (m : Match) : str :=
  firstn (m_start m) result
  ++ ph ++ escape_xml (m_group1 m) ++ ph
  ++ skipn (m_end m) result.

Definition mark_sections (marker ph result : str) : str :=
  fold_left (wrap_match ph) (rev (finditer marker result)) result.

(** [re.split("(" + bold_placeholder + "|" + italic_placeholder + ")", s)]:
    the pieces between separators and the separators themselves,
    alternating.  [cur] is the piece being collected, reversed. *)
Fixpoint split_from (skip : nat) (cur : str) (s : str) : list str :=
  match s with
  | [] => [rev cur]
  | c :: s' =>
      match skip with
      | S k => split_from k cur s'
      | O =>
          if startswith bold_placeholder s then
            rev cur :: bold_placeholder
              :: split_from (List.length bold_placeholder - 1) [] s'
          else if startswith italic_placeholder s then
            rev cur :: italic_placeholder
              :: split_from (List.length italic_placeholder - 1) [] s'
          else split_from O (c :: cur) s'
      end
  end.

Definition split_placeholders (s : str) : list str := split_from O [] s.

(** The loop over [parts]: pieces outside a placeholder pair are
    escaped, the others are kept. *)
Fixpoint escape_parts (in_bold in_italic : bool) (parts : list str)
  : list str :=
  match parts with
  | [] => []
  | part :: parts' =>
      if str_eqb part bold_placeholder then
        part :: escape_parts (negb in_bold) in_italic parts'
      else if str_eqb part italic_placeholder then
        part :: escape_parts in_bold (negb in_italic) parts'
      else if in_bold || in_italic then
        part :: escape_parts in_bold in_italic parts'
      else escape_xml part :: escape_parts in_bold in_italic parts'
  end.

(** A placeholder is longer than either tag that replaces it, so
    each replacement shortens the string. *)
Lemma startswith_length (p s : str) :
  startswith p s = true -> (List.length p <= List.length s)%nat.
Proof.
  revert s; induction p as [|x p IH]; intros [|y s]; simpl;
    try lia; try discriminate.
  intros H; apply andb_prop in H as [_ H]. apply IH in H. lia.
Qed.

Lemma contains_replace_first_length (old new s : str) :
  contains old s = true ->
  (List.length (replace_first old new s) + List.length old
   = List.length s + List.length new)%nat.
Proof.
  induction s as [|c s IH]; simpl.
  - destruct (startswith old []) eqn:E; simpl.
    + intros _. apply startswith_length in E. simpl in E.
      destruct old; simpl in *; try lia. rewrite length_app. simpl. lia.
    + discriminate.
  - destruct (startswith old (c :: s)) eqn:E; simpl.
    + intros _. pose proof (startswith_length _ _ E) as L.
      rewrite length_app, length_skipn. cbn [List.length] in *. lia.
    + intros H. apply IH in H. lia.
Qed.

(** A value together with the equation that names it, for the tests
    of the loop below. *)
Definition inspect {A} (a : A) : {b : A | a = b} := exist _ a eq_refl.

(** The [while placeholder in result] loop that follows the first
    replacement by the opening tag: closing and opening tags
    alternate. *)
Equations? close_open_loop (ph open close : str)
    (short : (List.length open < List.length ph
              /\ List.length close < List.length ph)%nat)
    (result : str) : str by wf (List.length result) lt :=
  close_open_loop ph open close short result
    with inspect (contains ph result) := {
    | exist _ false _ => result
    | exist _ true E1
        with inspect (contains ph (replace_first ph close result)) := {
        | exist _ false _ => replace_first ph close result
        | exist _ true E2 =>
            close_open_loop ph open close short
              (replace_first ph open (replace_first ph close result)) } }.
Proof.
  pose proof (contains_replace_first_length ph close result E1).
  pose proof (contains_replace_first_length ph open _ E2).
  lia.
Qed.

Lemma bold_tags_short :
  (List.length (lit "<b>") < List.length bold_placeholder
   /\ List.length (lit "</b>") < List.length bold_placeholder)%nat.
Proof. split; vm_compute; lia. Qed.

Lemma italic_tags_short :
  (List.length (lit "<i>") < List.length italic_placeholder
   /\ List.length (lit "</i>") < List.length italic_placeholder)%nat.
Proof. split; vm_compute; lia. Qed.

(** The conversion of placeholders to tags:
    [result.replace(ph, open, 1)] and then the loop. *)
Definition placeholders_to_tags (ph open close : str)
    (short : (List.length open < List.length ph
              /\ List.length close < List.length ph)%nat)
    (result : str) : str :=
  close_open_loop ph open close short (replace_first ph open result).

(** [TextFormatter.format_text] *)
Definition format_text (self : TextFormatter) (text : str)
    (escape_first apply_bold apply_italic : bool) : str :=
  let result := text in
  if escape_first then
    let result := mark_sections (bold_marker self) bold_placeholder result in
    let result :=
      mark_sections (italic_marker self) italic_placeholder result in
    let parts := split_placeholders result in
    let result := join (escape_parts false false parts) in
    let result :=
      if apply_bold
      then placeholders_to_tags bold_placeholder (lit "<b>") (lit "</b>")
             bold_tags_short result
      else replace_all bold_placeholder [] result in
    if apply_italic
    then placeholders_to_tags italic_placeholder (lit "<i>") (lit "</i>")
           italic_tags_short result
    else replace_all italic_placeholder [] result
  else
    let result :=
      if apply_bold
      then sub_from (bold_marker self) (lit "<b>") (lit "</b>") O result
      else result in
    if apply_italic
    then sub_from (italic_marker self) (lit "<i>") (lit "</i>") O result
    else result.

(** [format_text(text)] with the default arguments. *)
Definition format_text_default (self : TextFormatter) (text : str) : str :=
  format_text self text true true true.

(** [TextFormatter.apply_style] *)
Definition apply_style (text : str) (bold italic : bool) : str :=
  let result := text in
  let result := if bold then lit "<b>" ++ result ++ lit "</b>" else result in
  if italic then lit "<i>" ++ result ++ lit "</i>" else result.

(** [TextFormatter.create_link] *)
Definition create_link (text destination : str) (styled_only : bool) : str :=
  let escaped_text := escape_xml text in
  if styled_only
  then lit "<font color=" ++ [34%N] ++ lit "blue" ++ [34%N] ++ lit "><u>"
       ++ escaped_text ++ lit "</u></font>"
  else lit "<a href=" ++ [34%N] ++ lit "#" ++ destination ++ [34%N]
       ++ lit " color=" ++ [34%N] ++ lit "blue" ++ [34%N] ++ lit ">"
       ++ escaped_text ++ lit "</a>".

End text_formatter.

(* ===================================================================== *)
(** ** models/schema.py *)
(* ===================================================================== *)

Module schema.

Inductive OverflowBehavior := NO_WRAP | WRAP | WRAP_WITH_PAGE_BREAK.

Inductive Alignment := LEFT | CENTER | RIGHT | JUSTIFY.

Inductive PageSize := LETTER | A4 | LEGAL.

Definition Alignment_eqb (a b : Alignment) : bool :=
  match a, b with
  | LEFT, LEFT | CENTER, CENTER | RIGHT, RIGHT | JUSTIFY, JUSTIFY => true
  | _, _ => false
  end.

(** [Defaults]; the margins are floats. *)
Record Defaults (F : Type) := mkDefaults {
  font_size : Z;
  bold_marker : str;
  italic_marker : str;
  page_size : PageSize;
  left_margin : F;
  right_margin : F;
  top_margin : F;
  bottom_margin : F
}.
Arguments mkDefaults {F}.
Arguments font_size {F}.
Arguments bold_marker {F}.
Arguments italic_marker {F}.
Arguments page_size {F}.
Arguments left_margin {F}.
Arguments right_margin {F}.
Arguments top_margin {F}.
Arguments bottom_margin {F}.

Record PageHeading := mkPageHeading {
  ph_text : str;
  ph_font_size : option Z;
  ph_bold : bool;
  ph_italic : bool;
  ph_alignment : Alignment
}.

(** [LinkableItem]: [target_page] is a 1-indexed page of the original
    document. *)
Record LinkableItem := mkLinkableItem {
  text : str;
  target_page : Z
}.

(** An element of [content: list[str | LinkableItem]]. *)
Inductive ContentItem :=
| Text (s : str)
| Link (item : LinkableItem).

(** The fields shared by [SectionHeading] and [SectionSubheading]. *)
Record Section_ := mkSection {
  sh_text : str;
  sh_font_size : option Z;
  sh_bold : bool;
  sh_italic : bool;
  sh_alignment : Alignment
}.

(** The fields shared by [BulletPoint] and [IndentedBulletPoint]. *)
Record Bullet := mkBullet {
  label : str;
  content : list ContentItem;
  bp_font_size : option Z;
  overflow_behavior : OverflowBehavior
}.

(** [ContentElement], discriminated by [type]. *)
Inductive ContentElement :=
| SectionHeading (e : Section_)
| SectionSubheading (e : Section_)
| BulletPoint (e : Bullet)
| IndentedBulletPoint (e : Bullet).

Record Page := mkPage {
  page_heading : option PageHeading;
  page_content : list ContentElement
}.

Record PrependSpecification (F : Type) := mkSpec {
  defaults : Defaults F;
  pages : list Page
}.
Arguments mkSpec {F}.
Arguments defaults {F}.
Arguments pages {F}.

End schema.

(* ===================================================================== *)
(** ** core/page_generator.py *)
(* ===================================================================== *)

Module page_generator.

Import schema.

(** [LinkInfo] of this module: a link inside the plain text of a
    paragraph. *)
Record LinkInfo := mkLinkInfo {
  li_text : str;
  li_target_page : Z;
  char_start : Z;
  char_end : Z
}.

(** What the code sets on a [ParagraphStyle]; leading, spacing and
    indents are read by the layout engine only. *)
Record ParagraphStyle := mkStyle {
  style_name : str;
  fontSize : Z;
  alignment : Alignment
}.

(** The flowables handed to the layout engine. *)
#[warnings="-register-all"]
Inductive Flowable :=
| Paragraph (text : str) (style : ParagraphStyle)
| Spacer (w h : Z)
| PageBreak
| KeepTogether (flowables : list Flowable)
| LinkTrackingParagraph (text : str) (links : list LinkInfo)
    (style : ParagraphStyle) (plain_text : str).

(** The flowables that end up being drawn, in story order. *)
Fixpoint drawn (f : Flowable) : list Flowable :=
  match f with
  | KeepTogether fs => flat_map drawn fs
  | _ => [f]
  end.

Section Generator.

Context {F : Type} {Fl : Float F}.

(** [LinkPosition] *)
Record LinkPosition := mkLinkPosition {
  page_index : Z;
  target_page : Z;
  link_text : str;
  x : F;
  y : F;
  width : F;
  height : F
}.

(** What the canvas and [wrap] report when a flowable is drawn:
    [canv.getPageNumber()], [canv.absolutePosition(0, 0)],
    [self.width] and [self.height]. *)
Record Placement := mkPlacement {
  page_number : Z;
  abs_x : F;
  abs_y : F;
  wrap_width : F;
  wrap_height : F
}.

(** The layout engine (ReportLab) is external.  [Paragraph(text,
    style)] parses the markup of [text] and raises [ValueError] when it
    does not accept it; [BaseDocTemplate.build] raises [LayoutError]
    when a flowable of the story fits no frame.  Otherwise it draws
    every flowable of the story once, in story order; the geometry of
    the [n]-th drawn flowable, the number of pages and the output bytes
    are its own choice. *)
Record LayoutEngine := mkEngine {
  place : Defaults F -> list Flowable -> nat -> Placement;
  page_total : Defaults F -> list Flowable -> Z;
  output_bytes : Defaults F -> list Flowable -> list N;
  paragraph_raises : str -> ParagraphStyle -> bool;
  build_raises : Defaults F -> list Flowable -> bool
}.

(** [Paragraph(text, style)] *)
Definition new_Paragraph (engine : LayoutEngine) (text : str)
    (style : ParagraphStyle) : Exc Flowable :=
  if paragraph_raises engine text style then Raise ValueError
  else Ok (Paragraph text style).

(** [LinkTrackingParagraph.__init__], which makes
    [self._para = Paragraph(text, style)]. *)
Definition new_LinkTrackingParagraph (engine : LayoutEngine) (text : str)
    (links : list LinkInfo) (style : ParagraphStyle) (plain_text : str)
  : Exc Flowable :=
  _para <- new_Paragraph engine text style;;
  Ok (LinkTrackingParagraph text links style plain_text).

(** The loop of [LinkTrackingParagraph.draw] over [self.links]. *)
Definition record_link (page_idx : Z) (x0 y0 avg_char_width h0 : F)
    (link_positions : list LinkPosition) (link_info : LinkInfo)
  : list LinkPosition :=
  let link_x :=
    fadd x0 (fmul (of_int (char_start link_info)) avg_char_width) in
  let link_width :=
    fmul (of_int (char_end link_info - char_start link_info))
         avg_char_width in
  let link_width := pymax link_width (of_int 20) in
  link_positions ++
    [mkLinkPosition page_idx (li_target_page link_info)
       (li_text link_info) link_x y0 link_width h0].

(** [draw] of a flowable; only [LinkTrackingParagraph.draw] touches
    the shared list [link_positions]. *)
Definition draw (pl : Placement) (f : Flowable)
    (link_positions : list LinkPosition) : list LinkPosition :=
  match f with
  | LinkTrackingParagraph _ links _ plain_text =>
      match links with
      | [] => link_positions
      | _ :: _ =>
          let page_idx := page_number pl - 1 in
          let plain_len :=
            match plain_text with [] => 1 | _ :: _ => len plain_text end in
          let avg_char_width :=
            fdiv (wrap_width pl) (of_int (Z.max plain_len 1)) in
          fold_left
            (record_link page_idx (abs_x pl) (abs_y pl) avg_char_width
               (wrap_height pl))
            links link_positions
      end
  | _ => link_positions
  end.

(** The engine drawing the flowables [fs], the first of which is
    the [n]-th of the story. *)
Fixpoint draw_from (geometry : nat -> Placement) (n : nat)
    (fs : list Flowable) (link_positions : list LinkPosition)
  : list LinkPosition :=
  match fs with
  | [] => link_positions
  | f :: fs' =>
      draw_from geometry (S n) fs' (draw (geometry n) f link_positions)
  end.

(** [PageGenerator]; [link_manager] is a reference, so that the
    generator reads the manager its caller holds.  The list
    [self.link_positions], which the tracking paragraphs share, is passed
    through [draw] explicitly. *)
Record PageGenerator := mkPageGenerator {
  spec : PrependSpecification F;
  link_manager : link_manager.loc;
  text_formatter : text_formatter.TextFormatter
}.

(** [PageGenerator.__init__]: [link_manager or LinkManager()]. *)
Definition new_PageGenerator (h : link_manager.Heap)
    (spec : PrependSpecification F) (manager : option link_manager.loc)
  : PageGenerator * link_manager.Heap :=
  let '(m, h1) :=
    match manager with
    | Some m => (m, h)
    | None => link_manager.new_LinkManager h
    end in
  (mkPageGenerator spec m
     (text_formatter.mkTextFormatter (bold_marker (defaults spec))
        (italic_marker (defaults spec))),
   h1).

(** The entries of [self.styles] that [_setup_styles] adds. *)
Definition styles (self : PageGenerator) (name : str) : ParagraphStyle :=
  if str_eqb name (lit "PrependPageHeading") then mkStyle name 18 LEFT
  else if str_eqb name (lit "PrependSectionHeading") then mkStyle name 14 LEFT
  else if str_eqb name (lit "PrependSectionSubheading")
       then mkStyle name 12 LEFT
  else mkStyle name (font_size (defaults (spec self))) LEFT.

(** [PageGenerator._get_style] *)
Definition _get_style (self : PageGenerator) (base_style_name : str)
    (font_size : option Z) (alignment : Alignment) : ParagraphStyle :=
  let base := styles self base_style_name in
  match font_size, alignment with
  | None, LEFT => base
  | _, _ =>
      let size := match font_size with
                  | Some n => if n =? 0 then fontSize base else n
                  | None => fontSize base
                  end in
      mkStyle (base_style_name ++ lit "_modified") size alignment
  end.

(** [PageGenerator._build_page_heading] *)
Definition _build_page_heading (engine : LayoutEngine)
    (self : PageGenerator) (heading : PageHeading) : Exc (list Flowable) :=
  let style := _get_style self (lit "PrependPageHeading")
                 (ph_font_size heading) (ph_alignment heading) in
  let text := text_formatter.escape_xml (ph_text heading) in
  let text :=
    text_formatter.apply_style text (ph_bold heading) (ph_italic heading) in
  paragraph <- new_Paragraph engine text style;;
  Ok [paragraph; Spacer 1 12].

(** [PageGenerator._build_section_heading] and
    [PageGenerator._build_section_subheading], which differ in the
    base style only. *)
Definition _build_section (engine : LayoutEngine) (self : PageGenerator)
    (base_style_name : str) (element : Section_) : Exc (list Flowable) :=
  let style := _get_style self base_style_name
                 (sh_font_size element) (sh_alignment element) in
  let text :=
    text_formatter.format_text_default (text_formatter self)
      (sh_text element) in
  let text :=
    if sh_bold element then lit "<b>" ++ text ++ lit "</b>" else text in
  let text :=
    if sh_italic element then lit "<i>" ++ text ++ lit "</i>" else text in
  paragraph <- new_Paragraph engine text style;;
  Ok [paragraph].

Definition _build_section_heading (engine : LayoutEngine)
    (self : PageGenerator) (element : Section_) : Exc (list Flowable) :=
  _build_section engine self (lit "PrependSectionHeading") element.

Definition _build_section_subheading (engine : LayoutEngine)
    (self : PageGenerator) (element : Section_) : Exc (list Flowable) :=
  _build_section engine self (lit "PrependSectionSubheading") element.

(** The local variables of [_build_content_items]. *)
Record Items := mkItems {
  formatted_parts : list str;
  plain_parts : list str;
  links : list LinkInfo;
  current_pos : Z
}.

(** [<font color="blue"><u>...</u></font>] around an escaped text. *)
Definition link_markup (escaped_text : str) : str :=
  lit "<font color=" ++ [34%N] ++ lit "blue" ++ [34%N] ++ lit "><u>"
  ++ escaped_text ++ lit "</u></font>".

(** One turn of the loop of [_build_content_items] for the item of
    index [i].  The items are [str | LinkableItem], so the branch for
    [dict] items is not reached. *)
Definition content_item_step (h : link_manager.Heap) (self : PageGenerator)
    (i : nat) (st : Items) (item : ContentItem) : Items :=
  let st :=
    if (0 <? Z.of_nat i)
    then mkItems (formatted_parts st ++ [lit ", "])
                 (plain_parts st ++ [lit ", "])
                 (links st) (current_pos st + 2)
    else st in
  match item with
  | Link item =>
      let adjusted_page :=
        link_manager.get_adjusted_page h (link_manager self)
          (schema.target_page item) in
      let escaped_text := text_formatter.escape_xml (schema.text item) in
      mkItems (formatted_parts st ++ [link_markup escaped_text])
              (plain_parts st ++ [schema.text item])
              (links st ++
                 [mkLinkInfo (schema.text item) adjusted_page
                    (current_pos st)
                    (current_pos st + len (schema.text item))])
              (current_pos st + len (schema.text item))
  | Text text =>
      mkItems (formatted_parts st ++
                 [text_formatter.format_text_default (text_formatter self)
                    text])
              (plain_parts st ++ [text])
              (links st)
              (current_pos st + len text)
  end.

Fixpoint content_items_loop (h : link_manager.Heap) (self : PageGenerator)
    (i : nat) (content : list ContentItem) (st : Items) : Items :=
  match content with
  | [] => st
  | item :: content' =>
      content_items_loop h self (S i) content'
        (content_item_step h self i st item)
  end.

(** [PageGenerator._build_content_items] *)
Definition _build_content_items (h : link_manager.Heap)
    (self : PageGenerator) (content : list ContentItem)
  : str * list LinkInfo * str :=
  let st := content_items_loop h self O content (mkItems [] [] [] 0) in
  (join (formatted_parts st), links st, join (plain_parts st)).

(** The index of the first [">"] of [s]. *)
Fixpoint find_gt (s : str) : option nat :=
  match s with
  | [] => None
  | c :: s' => if N.eqb c 62%N then Some O else option_map S (find_gt s')
  end.

(** [re.sub(r"<[^>]+>", "", s)]: a tag runs from ["<"] to the next
    [">"] and has at least one character in between. *)
Fixpoint strip_tags_from (skip : nat) (s : str) : str :=
  match s with
  | [] => []
  | c :: s' =>
      match skip with
      | S k => strip_tags_from k s'
      | O =>
          if N.eqb c 60%N then
            match find_gt s' with
            | Some (S k) => strip_tags_from (S (S k)) s'
            | _ => c :: strip_tags_from O s'
            end
          else c :: strip_tags_from O s'
      end
  end.

(** [PageGenerator._strip_xml_tags] *)
Definition _strip_xml_tags (self : PageGenerator) (text : str) : str :=
  let result :=
    text_formatter.format_text_default (text_formatter self) text in
  strip_tags_from O result.

(** The bullet glyph U+2022. *)
Definition bullet_glyph : char := 8226%N.

(** [PageGenerator._build_bullet_point].  The paragraph [flowable] is
    made before the overflow behaviour is looked at, and a second one
    for [NO_WRAP]. *)
Definition _build_bullet_point (engine : LayoutEngine)
    (h : link_manager.Heap) (self : PageGenerator) (element : Bullet)
    (indented : bool) : Exc (list Flowable) :=
  let style_name :=
    if indented then lit "PrependIndentedBullet" else lit "PrependBullet" in
  let style := _get_style self style_name (bp_font_size element) LEFT in
  let label :=
    text_formatter.format_text_default (text_formatter self)
      (label element) in
  let plain_label := _strip_xml_tags self (schema.label element) in
  let '(content_str, links, plain_content) :=
    _build_content_items h self (content element) in
  let bullet_text :=
    [bullet_glyph; 32%N] ++ label ++ [32%N] ++ content_str in
  let bullet_prefix := [bullet_glyph; 32%N] ++ plain_label ++ [32%N] in
  let plain_text := bullet_prefix ++ plain_content in
  let prefix_len := len bullet_prefix in
  let adjusted_links :=
    List.map
      (fun link =>
         mkLinkInfo (li_text link) (li_target_page link)
           (char_start link + prefix_len) (char_end link + prefix_len))
      links in
  flowable <-
    match adjusted_links with
    | _ :: _ =>
        new_LinkTrackingParagraph engine bullet_text adjusted_links style
          plain_text
    | [] => new_Paragraph engine bullet_text style
    end;;
  match overflow_behavior element with
  | WRAP_WITH_PAGE_BREAK => Ok [KeepTogether [flowable]]
  | NO_WRAP =>
      let no_wrap_style :=
        mkStyle (style_name ++ lit "_nowrap") (fontSize style)
          (alignment style) in
      match adjusted_links with
      | _ :: _ =>
          paragraph <-
            new_LinkTrackingParagraph engine bullet_text adjusted_links
              no_wrap_style plain_text;;
          Ok [paragraph]
      | [] =>
          paragraph <- new_Paragraph engine bullet_text no_wrap_style;;
          Ok [paragraph]
      end
  | WRAP => Ok [flowable]
  end.

(** [PageGenerator._build_content_element] *)
Definition _build_content_element (engine : LayoutEngine)
    (h : link_manager.Heap) (self : PageGenerator)
    (element : ContentElement) : Exc (list Flowable) :=
  match element with
  | SectionHeading e => _build_section_heading engine self e
  | SectionSubheading e => _build_section_subheading engine self e
  | BulletPoint e => _build_bullet_point engine h self e false
  | IndentedBulletPoint e => _build_bullet_point engine h self e true
  end.

(** A loop [for item in items: flowables.extend(build(item))]. *)
Fixpoint extend_loop {A} (build : A -> Exc (list Flowable))
    (items : list A) (flowables : list Flowable) : Exc (list Flowable) :=
  match items with
  | [] => Ok flowables
  | item :: items' =>
      built <- build item;;
      extend_loop build items' (flowables ++ built)
  end.

(** [PageGenerator._build_page] *)
Definition _build_page (engine : LayoutEngine) (h : link_manager.Heap)
    (self : PageGenerator) (page : Page) (is_first : bool)
  : Exc (list Flowable) :=
  let flowables := if negb is_first then [PageBreak] else [] in
  flowables <-
    match page_heading page with
    | Some heading =>
        built <- _build_page_heading engine self heading;;
        Ok (flowables ++ built)
    | None => Ok flowables
    end;;
  extend_loop (_build_content_element engine h self) (page_content page)
    flowables.

(** The loop of [generate] over [enumerate(self.spec.pages)]. *)
Fixpoint build_pages (engine : LayoutEngine) (h : link_manager.Heap)
    (self : PageGenerator) (i : nat) (pages : list Page)
    (flowables : list Flowable) : Exc (list Flowable) :=
  match pages with
  | [] => Ok flowables
  | page :: pages' =>
      built <- _build_page engine h self page (Nat.eqb i 0);;
      build_pages engine h self (S i) pages' (flowables ++ built)
  end.

(** [doc.build(flowables)] as far as [link_positions] goes. *)
Definition doc_build (engine : LayoutEngine) (d : Defaults F)
    (flowables : list Flowable) (link_positions : list LinkPosition)
  : Exc (list LinkPosition) :=
  if build_raises engine d flowables then Raise LayoutError
  else Ok (draw_from (place engine d flowables) O
             (flat_map drawn flowables) link_positions).

(** [PageGenerator.generate]: the bytes, the page count and a copy of
    the link positions.  The list is cleared first. *)
Definition generate (engine : LayoutEngine) (h : link_manager.Heap)
    (self : PageGenerator) : Exc (list N * Z * list LinkPosition) :=
  let link_positions := [] in
  let d := defaults (spec self) in
  flowables <- build_pages engine h self O (pages (spec self)) [];;
  link_positions <- doc_build engine d flowables link_positions;;
  let page_count := page_total engine d flowables in
  Ok (output_bytes engine d flowables, page_count, link_positions).

End Generator.

End page_generator.

(* ===================================================================== *)
(** ** core/pdf_merger.py *)
(* ===================================================================== *)

Module pdf_merger.

Section Merger.

Context {F : Type} {Fl : Float F}.

(** The body of a page as the reader yields it; its encoding is the
    business of the PDF library. *)
Context {Body : Type}.

(** [pypdf.annotations.Link(rect, target_page_index, fit=Fit.fit())] *)
Record LinkAnnotation := mkLink {
  rect : F * F * F * F;
  target_page_index : Z
}.

(** A page of a reader or of the writer. *)
Record PdfPage := mkPdfPage {
  body : Body;
  annotations : list LinkAnnotation
}.

(** [PdfWriter]: its pages, and the named destinations added to it,
    title and page number, in the order of the calls of
    [add_named_destination].  The array in which the PDF library keeps
    them is [names_array]. *)
Record PdfWriter := mkWriter {
  pages : list PdfPage;
  named_destinations : list (str * Z)
}.

(** [PdfWriter()] *)
Definition new_PdfWriter : PdfWriter := mkWriter [] [].

(** [writer.add_page(page)] *)
Definition add_page (w : PdfWriter) (page : PdfPage) : PdfWriter :=
  mkWriter (pages w ++ [page]) (named_destinations w).

(** [writer.add_named_destination(title, page_number)]: the call is
    recorded after the earlier ones. *)
Definition add_named_destination (w : PdfWriter) (title : str)
    (page_number : Z) : PdfWriter :=
  mkWriter (pages w) (named_destinations w ++ [(title, page_number)]).

(** Where the PDF library puts a destination in its name array: before
    the first title that is greater, at the end when there is none. *)
Fixpoint insert_destination (title : str) (page_number : Z)
    (names : list (str * Z)) : list (str * Z) :=
  match names with
  | [] => [(title, page_number)]
  | (t, p) :: names' =>
      if str_ltb title t then (title, page_number) :: names
      else (t, p) :: insert_destination title page_number names'
  end.

(** The name array of the writer after the calls recorded in it. *)
Definition names_array (w : PdfWriter) : list (str * Z) :=
  fold_left
    (fun names d => insert_destination (fst d) (snd d) names)
    (named_destinations w) [].

(** [l[i]] of Python: the position that [i] denotes, if any. *)
Definition py_index {A} (l : list A) (i : Z) : option nat :=
  let n := Z.of_nat (List.length l) in
  if (0 <=? i) && (i <? n) then Some (Z.to_nat i)
  else if (- n <=? i) && (i <? 0) then Some (Z.to_nat (n + i))
  else None.

(** The list [l] with [f] applied at position [k]. *)
Fixpoint alter_nth {A} (f : A -> A) (k : nat) (l : list A) : list A :=
  match l, k with
  | [], _ => []
  | a :: l', O => f a :: l'
  | a :: l', S k' => a :: alter_nth f k' l'
  end.

(** [writer.add_annotation(page_number, annotation)] of the PDF
    library: the annotation is appended to the annotations of
    [writer.pages[page_number]].  [raises] tells when the library
    raises instead; the caller swallows that. *)
Definition add_annotation (raises : PdfWriter -> Z -> LinkAnnotation -> bool)
    (w : PdfWriter) (page_number : Z) (annotation : LinkAnnotation)
  : option PdfWriter :=
  if raises w page_number annotation then None
  else match py_index (pages w) page_number with
       | None => None
       | Some k =>
           Some (mkWriter
                   (alter_nth
                      (fun p => mkPdfPage (body p)
                                  (annotations p ++ [annotation]))
                      k (pages w))
                   (named_destinations w))
       end.

(** The loop of [PdfMerger._create_named_destinations] and of
    [merge_with_destinations_and_links] over [range(total_pages)]. *)
Definition create_destinations_loop (w : PdfWriter) (total_pages : Z)
  : PdfWriter :=
  fold_left
    (fun w i =>
       let dest_name := lit "page_" ++ str_of_int (Z.of_nat i + 1) in
       add_named_destination w dest_name (Z.of_nat i))
    (seq O (Z.to_nat total_pages)) w.

(** One turn of the loop of [PdfMerger._add_link_annotations]. *)
Definition add_link_annotation
    (raises : PdfWriter -> Z -> LinkAnnotation -> bool) (w : PdfWriter)
    (link_pos : @page_generator.LinkPosition F) : PdfWriter :=
  let page_idx := page_generator.page_index link_pos in
  let target_page_idx := page_generator.target_page link_pos - 1 in
  let n := Z.of_nat (List.length (pages w)) in
  if n <=? page_idx then w
  else if (target_page_idx <? 0) || (n <=? target_page_idx) then w
  else
    let rect :=
      (page_generator.x link_pos,
       page_generator.y link_pos,
       fadd (page_generator.x link_pos) (page_generator.width link_pos),
       fadd (page_generator.y link_pos) (page_generator.height link_pos)) in
    match add_annotation raises w page_idx (mkLink rect target_page_idx) with
    | Some w' => w'
    | None => w
    end.

(** [PdfMerger._add_link_annotations] *)
Definition _add_link_annotations
    (raises : PdfWriter -> Z -> LinkAnnotation -> bool) (w : PdfWriter)
    (link_positions : list (@page_generator.LinkPosition F)) : PdfWriter :=
  fold_left (add_link_annotation raises) link_positions w.

(** [PdfMerger.merge_with_destinations_and_links]: the writer before it
    is serialised.  The two readers are given by their pages. *)
Definition merge_with_destinations_and_links
    (raises : PdfWriter -> Z -> LinkAnnotation -> bool)
    (prepend_pages original_pages : list PdfPage)
    (link_positions : option (list (@page_generator.LinkPosition F)))
  : PdfWriter :=
  let w := new_PdfWriter in
  let prepend_count := Z.of_nat (List.length prepend_pages) in
  let original_count := Z.of_nat (List.length original_pages) in
  let w := fold_left add_page prepend_pages w in
  let w := fold_left add_page original_pages w in
  let total_pages := prepend_count + original_count in
  let w := create_destinations_loop w total_pages in
  match link_positions with
  | Some (lp :: lps) => _add_link_annotations raises w (lp :: lps)
  | _ => w
  end.

(** [PdfMerger.merge_with_destinations] *)
Definition merge_with_destinations
    (raises : PdfWriter -> Z -> LinkAnnotation -> bool)
    (prepend_pages original_pages : list PdfPage) : PdfWriter :=
  merge_with_destinations_and_links raises prepend_pages original_pages None.

(** [PdfMerger._create_named_destinations] *)
Definition _create_named_destinations (w : PdfWriter) (total_pages : Z)
  : PdfWriter :=
  create_destinations_loop w total_pages.

(** [PdfMerger.prepend_pages]: the writer before it is serialised. *)
Definition prepend_pages (prepend_pages original_pages : list PdfPage)
    (create_destinations : bool) : PdfWriter :=
  let w := new_PdfWriter in
  let w := fold_left add_page prepend_pages w in
  let w := fold_left add_page original_pages w in
  let total_pages := Z.of_nat (List.length (pages w)) in
  if create_destinations then _create_named_destinations w total_pages
  else w.

(** Reading and writing PDF bytes is the business of the PDF library:
    [PdfReader(io.BytesIO(b)).pages] and [writer.write(buffer)]. *)
Variable read_pdf : list N -> list PdfPage.
Variable write_pdf : PdfWriter -> list N.

(** [PdfMerger.get_page_count] and [count_pdf_pages] on bytes. *)
Definition get_page_count (pdf_source : list N) : Z :=
  Z.of_nat (List.length (read_pdf pdf_source)).

(** [PdfMerger.merge_with_destinations] with [output=None]: the bytes
    of the merged document. *)
Definition merge_with_destinations_bytes
    (raises : PdfWriter -> Z -> LinkAnnotation -> bool)
    (prepend_bytes original_pdf : list N) : list N :=
  write_pdf
    (merge_with_destinations raises (read_pdf prepend_bytes)
       (read_pdf original_pdf)).

End Merger.

End pdf_merger.

(* ===================================================================== *)
(** ** core/link_annotator.py *)
(* ===================================================================== *)

Module link_annotator.

Section Annotator.

Context {F : Type} {Fl : Float F}.

(** [fitz.Rect(x0, y0, x1, y1)] *)
Record Rect := mkRect {
  x0 : F;
  y0 : F;
  x1 : F;
  y1 : F
}.

(** The dictionary passed to [page.insert_link]: a [LINK_GOTO] from
    [from] to the point (0, 0) of page [page]. *)
Record LinkDict := mkLinkDict {
  from : Rect;
  page : Z
}.

(** A page of the opened document: [page.rect.height], what
    [page.search_for] answers for a text, and the links inserted so
    far. *)
Record Page := mkPage {
  rect_height : F;
  search_for : str -> list Rect;
  page_links : list LinkDict
}.

(** [fitz.Document] *)
Definition Document := list Page.

(** [page.insert_link] is external; [insert_raises] tells when it
    raises. *)
Variable insert_raises : Page -> LinkDict -> bool.

(** One turn of the loop of [_find_text_rect] over the instances. *)
Definition closer (estimated_y : F) (best : option Rect * F) (rect : Rect)
  : option Rect * F :=
  let distance := fabs (fsub (y1 rect) estimated_y) in
  if flt distance (snd best) then (Some rect, distance) else best.

(** [LinkAnnotator._find_text_rect] *)
Definition _find_text_rect (page : Page)
    (link_pos : @page_generator.LinkPosition F) : option Rect :=
  match page_generator.link_text link_pos with
  | [] => None
  | _ :: _ =>
      let text_instances :=
        search_for page (page_generator.link_text link_pos) in
      match text_instances with
      | [] => None
      | [r] => Some r
      | _ =>
          let page_height := rect_height page in
          let estimated_y := fsub page_height (page_generator.y link_pos) in
          fst (fold_left (closer estimated_y) text_instances (None, finf))
      end
  end.

(** [LinkAnnotator._get_estimated_rect] *)
Definition _get_estimated_rect (page : Page)
    (link_pos : @page_generator.LinkPosition F) : Rect :=
  let page_height := rect_height page in
  mkRect (page_generator.x link_pos)
    (fsub page_height
       (fadd (page_generator.y link_pos) (page_generator.height link_pos)))
    (fadd (page_generator.x link_pos) (page_generator.width link_pos))
    (fsub page_height (page_generator.y link_pos)).

(** The local variable [link_rect] of [_add_link]: the rectangle
    found by the search, or else the estimated one. *)
Definition link_rect (page : Page)
    (link_pos : @page_generator.LinkPosition F) : Rect :=
  match _find_text_rect page link_pos with
  | Some r => r
  | None => _get_estimated_rect page link_pos
  end.

(** [page.insert_link(link_dict)] inside [try]/[except]: on an
    exception the page is left as it was. *)
Definition try_insert_link (page : Page) (link_dict : LinkDict) : Page :=
  if insert_raises page link_dict then page
  else mkPage (rect_height page) (search_for page)
         (page_links page ++ [link_dict]).

(** [LinkAnnotator._add_link] *)
Definition _add_link (doc : Document)
    (link_pos : @page_generator.LinkPosition F) : Document :=
  let page_idx := page_generator.page_index link_pos in
  let target_page_idx := page_generator.target_page link_pos - 1 in
  let n := Z.of_nat (List.length doc) in
  if (page_idx <? 0) || (n <=? page_idx) then doc
  else if (target_page_idx <? 0) || (n <=? target_page_idx) then doc
  else
    pdf_merger.alter_nth
      (fun page =>
         try_insert_link page
           (mkLinkDict (link_rect page link_pos) target_page_idx))
      (Z.to_nat page_idx) doc.

(** [LinkAnnotator.add_links] on the opened document. *)
Definition add_links (doc : Document)
    (link_positions : list (@page_generator.LinkPosition F)) : Document :=
  match link_positions with
  | [] => doc
  | _ :: _ => fold_left _add_link link_positions doc
  end.

(** Opening and serialising a document is the business of the
    annotation library: [fitz.open(stream=pdf_bytes, filetype="pdf")]
    and [doc.tobytes()]. *)
Variable fitz_open : list N -> Document.
Variable tobytes : Document -> list N.

(** [LinkAnnotator.add_links] with [output=None], on bytes: without
    link positions the bytes are returned as they are. *)
Definition add_links_bytes (pdf_bytes : list N)
    (link_positions : list (@page_generator.LinkPosition F)) : list N :=
  match link_positions with
  | [] => pdf_bytes
  | _ :: _ => tobytes (fold_left _add_link link_positions (fitz_open pdf_bytes))
  end.

End Annotator.

End link_annotator.

(* ===================================================================== *)
(** ** core/document_builder.py *)
(* ===================================================================== *)

Module document_builder.

Section Builder.

Context {F : Type} {Fl : Float F}.

(** [DocumentBuilder]: the specification and a reference to the link
    manager of the builder. *)
Record DocumentBuilder := mkBuilder {
  spec : schema.PrependSpecification F;
  link_manager : link_manager.loc
}.

(** [DocumentBuilder.__init__] *)
Definition new_DocumentBuilder (h : link_manager.Heap)
    (spec : schema.PrependSpecification F)
  : DocumentBuilder * link_manager.Heap :=
  let '(m, h1) := link_manager.new_LinkManager h in
  (mkBuilder spec m, h1).

(** [DocumentBuilder.get_prepend_page_count]: the page count, unless
    [generate] raises, and the heap after the call. *)
Definition get_prepend_page_count (engine : page_generator.LayoutEngine)
    (h : link_manager.Heap) (self : DocumentBuilder)
  : Exc Z * link_manager.Heap :=
  let '(m, h1) := link_manager.new_LinkManager h in
  let '(generator, h2) :=
    page_generator.new_PageGenerator h1 (spec self) (Some m) in
  (generated <- page_generator.generate engine h2 generator;;
   let '(_, page_count, _) := generated in
   Ok page_count,
   h2).

(** The external libraries that [build] goes through. *)
Context {Body : Type}.
Variable engine : @page_generator.LayoutEngine F.
Variable read_pdf : list N -> list (@pdf_merger.PdfPage F Body).
Variable write_pdf : @pdf_merger.PdfWriter F Body -> list N.
Variable annotation_raises :
  @pdf_merger.PdfWriter F Body -> Z -> @pdf_merger.LinkAnnotation F -> bool.
Variable fitz_open : list N -> @link_annotator.Document F.
Variable tobytes : @link_annotator.Document F -> list N.
Variable insert_raises :
  @link_annotator.Page F -> @link_annotator.LinkDict F -> bool.

(** [DocumentBuilder.build] with [output=None]: the bytes returned,
    unless one of the two calls of [generate] raises, and the heap after
    the call.  Both generators are given the link manager of the
    builder. *)
Definition build (h : link_manager.Heap) (self : DocumentBuilder)
    (original_pdf : list N) : Exc (list N) * link_manager.Heap :=
  let '(generator, h) :=
    page_generator.new_PageGenerator h (spec self)
      (Some (link_manager self)) in
  match page_generator.generate engine h generator with
  | Raise e => (Raise e, h)
  | Ok (_, prepend_page_count, _) =>
      let h :=
        link_manager.set_prepended_page_count h (link_manager self)
          prepend_page_count in
      let '(generator, h) :=
        page_generator.new_PageGenerator h (spec self)
          (Some (link_manager self)) in
      match page_generator.generate engine h generator with
      | Raise e => (Raise e, h)
      | Ok (prepend_bytes, _, link_positions) =>
          let merged_bytes :=
            pdf_merger.merge_with_destinations_bytes read_pdf write_pdf
              annotation_raises prepend_bytes original_pdf in
          (Ok (link_annotator.add_links_bytes insert_raises fitz_open
                 tobytes merged_bytes link_positions),
           h)
      end
  end.

End Builder.

End document_builder.

(* ===================================================================== *)
(** ** Vocabulary of the properties *)
(* ===================================================================== *)

Section LinkTableTerms.

Import link_manager.

(** Membership of a location in a list of locations. *)
Definition registered (l : loc) (ls : list loc) : bool :=
  existsb (Nat.eqb l) ls.

(** The record that [update_link] writes for a given offset. *)
Definition resolved (i : LinkInfo) (count : Z) : LinkInfo :=
  mkLinkInfo (original_page i) (Some (original_page i + count)).

End LinkTableTerms.

Section TextTerms.

(** What [escape_xml] writes for one character. *)
Definition escape_char (c : char) : str :=
  if N.eqb c 38%N then lit "&amp;"
  else if N.eqb c 60%N then lit "&lt;"
  else if N.eqb c 62%N then lit "&gt;"
  else [c].

(** The characters that [escape_xml] rewrites: ["&"], ["<"] and [">"]. *)
Definition reserved (c : char) : bool :=
  N.eqb c 38%N || N.eqb c 60%N || N.eqb c 62%N.

(** A text without the character U+0000, with which the placeholders
    of [format_text] begin and end. *)
Definition nul_free (s : str) : Prop := ~ In 0%N s.

(** Every ["<"] of [s] is followed at once by [">"] or by no [">"] at
    all: [s] holds no match of [<[^>]+>]. *)
Fixpoint tag_free (s : str) : Prop :=
  match s with
  | [] => True
  | c :: s' =>
      (c = 60%N ->
       page_generator.find_gt s' = Some O \/ page_generator.find_gt s' = None)
      /\ tag_free s'
  end.

End TextTerms.

Section ComposerTerms.

Import schema page_generator.

Context {F : Type} {Fl : Float F}.

(** The visible text of a content item. *)
Definition item_text (item : ContentItem) : str :=
  match item with
  | Link i => schema.text i
  | Text s => s
  end.

(** The link items of a content list, in order. *)
Definition link_items (content : list ContentItem) : list LinkableItem :=
  flat_map (fun item => match item with Link i => [i] | Text _ => [] end)
    content.

(** The link items of a content element; headings have none. *)
Definition element_link_items (element : ContentElement)
  : list LinkableItem :=
  match element with
  | BulletPoint e | IndentedBulletPoint e => link_items (content e)
  | SectionHeading _ | SectionSubheading _ => []
  end.

(** The total length of the texts of some items. *)
Fixpoint text_len_sum (items : list ContentItem) : Z :=
  match items with
  | [] => 0
  | item :: items' => len (item_text item) + text_len_sum items'
  end.

(** The length of the separator written before the item of index [i]. *)
Definition sep_len (i : nat) : Z := if 0 <? Z.of_nat i then 2 else 0.

(** The length of the separators written for [content] when its first
    item has index [i]. *)
Definition sep_total (i : nat) (content : list ContentItem) : Z :=
  match content with
  | [] => 0
  | _ :: rest => sep_len i + 2 * Z.of_nat (List.length rest)
  end.

(** The anchor that [draw] records for a link of a paragraph. *)
Definition position_of (page_idx : Z) (x0 y0 avg_char_width h0 : F)
    (link_info : LinkInfo) : @LinkPosition F :=
  mkLinkPosition page_idx (li_target_page link_info) (li_text link_info)
    (fadd x0 (fmul (of_int (char_start link_info)) avg_char_width))
    y0
    (pymax
       (fmul (of_int (char_end link_info - char_start link_info))
          avg_char_width)
       (of_int 20))
    h0.

(** The average character width that [draw] uses for a paragraph with
    the given plain text. *)
Definition avg_char_width_of (pl : @Placement F) (plain_text : str) : F :=
  fdiv (wrap_width pl) (of_int (Z.max (len plain_text) 1)).

(** The offset that the link manager of the generator holds. *)
Definition offset (h : link_manager.Heap) (self : @PageGenerator F) : Z :=
  link_manager.prepended_page_count
    (link_manager.managers h (link_manager self)).

(** The link that a turn of the loop of [_build_content_items] records,
    if the item is one. *)
Definition step_links (h : link_manager.Heap) (self : @PageGenerator F)
    (st : Items) (i : nat) (item : ContentItem) : list LinkInfo :=
  match item with
  | Link it =>
      [mkLinkInfo (schema.text it) (schema.target_page it + offset h self)
         (current_pos st + sep_len i)
         (current_pos st + sep_len i + len (schema.text it))]
  | Text _ => []
  end.

(** The prefix of the plain text of a bullet: glyph, space, plain label,
    space. *)
Definition bullet_prefix (self : @PageGenerator F) (e : Bullet) : str :=
  [bullet_glyph; 32%N] ++ _strip_xml_tags self (label e) ++ [32%N].

(** The plain text that [_build_bullet_point] hands to the paragraph. *)
Definition bullet_plain_text (h : link_manager.Heap)
    (self : @PageGenerator F) (e : Bullet) : str :=
  bullet_prefix self e ++ snd (_build_content_items h self (content e)).

(** The links that [_build_bullet_point] hands to the paragraph. *)
Definition bullet_links (h : link_manager.Heap) (self : @PageGenerator F)
    (e : Bullet) : list LinkInfo :=
  List.map
    (fun link =>
       mkLinkInfo (li_text link) (li_target_page link)
         (char_start link + len (bullet_prefix self e))
         (char_end link + len (bullet_prefix self e)))
    (snd (fst (_build_content_items h self (content e)))).

(** The link items of a page and of a specification, in order. *)
Definition page_link_items (page : Page) : list LinkableItem :=
  flat_map element_link_items (page_content page).

Definition spec_link_items (spec : PrependSpecification F)
  : list LinkableItem :=
  flat_map page_link_items (pages spec).

(** The text and the target page of an anchor. *)
Definition anchor_key (lp : @LinkPosition F) : str * Z :=
  (link_text lp, target_page lp).

(** The text of a link item and its target page shifted by the offset
    of the link manager. *)
Definition shifted_key (h : link_manager.Heap) (self : @PageGenerator F)
    (it : LinkableItem) : str * Z :=
  (schema.text it, schema.target_page it + offset h self).

(** Drawing [flowables] once, wherever in the story and with whatever
    geometry, appends anchors with the keys [keys], in order. *)
Definition records (flowables : list Flowable) (keys : list (str * Z))
  : Prop :=
  forall (g : nat -> @Placement F) (n : nat) (lps : list (@LinkPosition F)),
  exists anchors,
    draw_from g n (flat_map drawn flowables) lps = lps ++ anchors /\
    List.map anchor_key anchors = keys.

(** The second link starts at least one separator after the end of the
    first. *)
Definition apart (a b : LinkInfo) : Prop := char_end a + 2 <= char_start b.

(** The range of a link lies between [lo] and [hi] and is as long as
    the text of the link. *)
Definition in_range (lo hi : Z) (l : LinkInfo) : Prop :=
  lo <= char_start l /\
  char_end l = char_start l + len (li_text l) /\
  char_end l <= hi.

(** A link and a flowable with the target pages blanked: what is left
    is all that the layout can depend on. *)
Definition untargeted_link (l : LinkInfo) : LinkInfo :=
  mkLinkInfo (li_text l) 0 (char_start l) (char_end l).

Fixpoint untargeted (f : Flowable) : Flowable :=
  match f with
  | KeepTogether fs => KeepTogether (List.map untargeted fs)
  | LinkTrackingParagraph text links style plain_text =>
      LinkTrackingParagraph text (List.map untargeted_link links) style
        plain_text
  | _ => f
  end.

(** The story that [generate] hands to the layout engine, when all its
    paragraphs are accepted. *)
Definition story (engine : @LayoutEngine F) (h : link_manager.Heap)
    (self : @PageGenerator F) : Exc (list Flowable) :=
  build_pages engine h self O (pages (spec self)) [].

(** The number of page breaks among the flowables drawn for a story. *)
Definition is_page_break (f : Flowable) : bool :=
  match f with
  | PageBreak => true
  | _ => false
  end.

Definition page_breaks (flowables : list Flowable) : nat :=
  List.length (filter is_page_break (flat_map drawn flowables)).

End ComposerTerms.

Section BinderTerms.

Import link_annotator.

Context {F : Type} {Fl : Float F}.

(** The validation at the head of [_add_link]. *)
Definition indices_valid (doc : @Document F)
    (link_pos : @page_generator.LinkPosition F) : bool :=
  let n := Z.of_nat (List.length doc) in
  let page_idx := page_generator.page_index link_pos in
  let target_page_idx := page_generator.target_page link_pos - 1 in
  (0 <=? page_idx) && (page_idx <? n)
  && (0 <=? target_page_idx) && (target_page_idx <? n).

(** The vertical distance of an instance to the estimated position,
    as [_find_text_rect] computes it. *)
Definition distance_of (page : @Page F)
    (lp : @page_generator.LinkPosition F) (r : @Rect F) : F :=
  fabs (fsub (y1 r) (fsub (rect_height page) (page_generator.y lp))).

(** [flt] orders the values of [D] like a strict weak order: no [nan]
    among them. *)
Definition ordered_on (D : list F) : Prop :=
  (forall a, In a D -> flt a a = false) /\
  (forall a b c, In a D -> In b D -> In c D ->
     flt a b = true -> flt b c = true -> flt a c = true) /\
  (forall a b c, In a D -> In b D -> In c D ->
     flt a b = true -> flt a c = true \/ flt c b = true).

(** The page [page'] is [page] with further links, all of which go to
    one of the [n] pages of the document. *)
Definition extends (n : nat) (page page' : @Page F) : Prop :=
  rect_height page' = rect_height page /\
  search_for page' = search_for page /\
  exists extra,
    page_links page' = page_links page ++ extra /\
    Forall (fun l => 0 <= link_annotator.page l < Z.of_nat n) extra.

(** The number of links of a document. *)
Definition total_links (doc : @Document F) : nat :=
  list_sum (List.map (fun p => List.length (page_links p)) doc).

End BinderTerms.

Section BuilderTerms.

Import schema page_generator.

Context {F : Type} {Fl : Float F}.

(** The generator that [build] makes for a builder: over the
    specification of the builder and on its link manager. *)
Definition builder_generator (self : @document_builder.DocumentBuilder F)
  : @PageGenerator F :=
  mkPageGenerator (document_builder.spec self)
    (document_builder.link_manager self)
    (text_formatter.mkTextFormatter
       (bold_marker (defaults (document_builder.spec self)))
       (italic_marker (defaults (document_builder.spec self)))).

(** The page count of the layout does not depend on the target pages
    of the links, which are not part of what is displayed. *)
Definition layout_ignores_targets (engine : @LayoutEngine F) : Prop :=
  forall d s1 s2,
    List.map untargeted s1 = List.map untargeted s2 ->
    page_total engine d s1 = page_total engine d s2.

End BuilderTerms.

(* ===================================================================== *)
(** ** Sample data *)
(* ===================================================================== *)

(** The rationals as numbers on which the definitions can be evaluated:
    exact arithmetic and the usual order.  [finf] is a bound that no
    coordinate of the samples reaches. *)
#[global] Instance Q_Float : Float Q := {|
  of_int := inject_Z;
  fadd := Qplus;
  fsub := Qminus;
  fmul := Qmult;
  fdiv := Qdiv;
  fabs := Qabs.Qabs;
  flt := fun a b => match Qcompare a b with Lt => true | _ => false end;
  finf := inject_Z (2 ^ 1024)
|}.

Module samples.

(** The default settings of the schema. *)
Definition sample_defaults : schema.Defaults Q :=
  schema.mkDefaults 11 (lit "**") (lit "_") schema.LETTER
    (inject_Z 72) (inject_Z 72) (inject_Z 72) (inject_Z 72).

(** The link of the first scenario: text ["Page 3"], original page 3. *)
Definition sample_link : schema.LinkableItem :=
  schema.mkLinkableItem (lit "Page 3") 3.

(** A bullet ["Link:"] with a plain item and the link. *)
Definition sample_bullet : schema.Bullet :=
  schema.mkBullet (lit "Link:")
    [schema.Text (lit "see"); schema.Link sample_link] None schema.WRAP.

Definition sample_spec : schema.PrependSpecification Q :=
  schema.mkSpec sample_defaults
    [schema.mkPage None [schema.BulletPoint sample_bullet]].

(** A builder on an empty heap. *)
Definition sample_builder : document_builder.DocumentBuilder :=
  fst (document_builder.new_DocumentBuilder link_manager.empty_heap
         sample_spec).

(** The heap once the builder has resolved one prepended page. *)
Definition sample_heap : link_manager.Heap :=
  link_manager.set_prepended_page_count
    (snd (document_builder.new_DocumentBuilder link_manager.empty_heap
            sample_spec))
    (document_builder.link_manager sample_builder) 1.

(** A generator on the manager of the builder. *)
Definition sample_generator : page_generator.PageGenerator :=
  fst (page_generator.new_PageGenerator sample_heap sample_spec
         (Some (document_builder.link_manager sample_builder))).

(** A layout that puts every flowable on page 1 at (72, 700), 468 wide
    and 14 high. *)
Definition sample_geometry (n : nat) : @page_generator.Placement Q :=
  page_generator.mkPlacement 1 (inject_Z 72) (inject_Z 700) (inject_Z 468)
    (inject_Z 14).

(** An engine with this layout that accepts every paragraph and lays
    every story out, on one page. *)
Definition sample_engine : @page_generator.LayoutEngine Q :=
  page_generator.mkEngine (fun _ _ => sample_geometry) (fun _ _ => 1)
    (fun _ _ => []) (fun _ _ => false) (fun _ _ => false).

(** A bullet whose label has crossing markers, and a builder for it. *)
Definition crossing_bullet : schema.Bullet :=
  schema.mkBullet (lit "**a _b** c_") [schema.Link sample_link] None
    schema.WRAP.

Definition crossing_builder : document_builder.DocumentBuilder :=
  fst (document_builder.new_DocumentBuilder link_manager.empty_heap
         (schema.mkSpec sample_defaults
            [schema.mkPage None [schema.BulletPoint crossing_bullet]])).

Definition crossing_heap : link_manager.Heap :=
  snd (document_builder.new_DocumentBuilder link_manager.empty_heap
         (schema.mkSpec sample_defaults
            [schema.mkPage None [schema.BulletPoint crossing_bullet]])).

(** The sample engine, but one that does not accept a paragraph in which
    [</b>] closes over an open [<i>], as in the markup of that label. *)
Definition strict_engine : @page_generator.LayoutEngine Q :=
  page_generator.mkEngine (fun _ _ => sample_geometry) (fun _ _ => 1)
    (fun _ _ => [])
    (fun text _ => contains (lit "<b>a <i>b</b>") text)
    (fun _ _ => false).

(** The sample engine, but one for which the story never fits. *)
Definition narrow_engine : @page_generator.LayoutEngine Q :=
  page_generator.mkEngine (fun _ _ => sample_geometry) (fun _ _ => 1)
    (fun _ _ => []) (fun _ _ => false) (fun _ _ => true).

(** Three instances of a text on a page 792 high; the first two lie at
    the same distance from an estimated position of 700 from the
    bottom, the third lies further away. *)
Definition sample_instances : list (@link_annotator.Rect Q) :=
  [link_annotator.mkRect (inject_Z 100) (inject_Z 80) (inject_Z 140)
     (inject_Z 90);
   link_annotator.mkRect (inject_Z 200) (inject_Z 84) (inject_Z 240)
     (inject_Z 94);
   link_annotator.mkRect (inject_Z 100) (inject_Z 290) (inject_Z 140)
     (inject_Z 300)].

Definition sample_page : @link_annotator.Page Q :=
  link_annotator.mkPage (inject_Z 792)
    (fun text => if str_eqb text (lit "Page 3") then sample_instances else [])
    [].

(** The anchor of the link, estimated at 700 from the bottom and
    resolved to page 4. *)
Definition sample_anchor : @page_generator.LinkPosition Q :=
  page_generator.mkLinkPosition 0 4 (lit "Page 3") (inject_Z 150)
    (inject_Z 700) (inject_Z 40) (inject_Z 14).

End samples.

(* ===================================================================== *)
(** * Properties *)
(* ===================================================================== *)

(** ** The link table *)

Section LinkTable.

Import link_manager.

Lemma upd_same {A} (f : loc -> A) l v : upd f l v l = v.
Proof. unfold upd. now rewrite Nat.eqb_refl. Qed.

Lemma upd_other {A} (f : loc -> A) l l' v : l' <> l -> upd f l v l' = f l'.
Proof.
  intros Hne. unfold upd.
  destruct (Nat.eqb l' l) eqn:E; [apply Nat.eqb_eq in E; contradiction | easy].
Qed.

Lemma registered_In l ls : In l ls -> registered l ls = true.
Proof.
  intros H. apply existsb_exists. exists l. split; [easy | apply Nat.eqb_refl].
Qed.

(** The loop of [_update_all_links] touches the records of the list and
    nothing else. *)
Lemma update_links_loop ls : forall h self,
  let h' := fold_left (update_link self) ls h in
  managers h' = managers h /\
  next_info h' = next_info h /\
  next_manager h' = next_manager h /\
  forall l,
    infos h' l =
    if registered l ls
    then resolved (infos h l) (prepended_page_count (managers h self))
    else infos h l.
Proof.
  induction ls as [|a ls IH]; intros h self; cbn [fold_left].
  - cbn. repeat split.
  - destruct (IH (update_link self h a) self) as (Hm & Hi & Hn & Hl).
    cbv zeta. rewrite Hm, Hi, Hn. repeat split.
    intros l. rewrite Hl. cbn [registered existsb update_link set_info
      infos managers].
    fold (registered l ls).
    destruct (Nat.eqb l a) eqn:E.
    + apply Nat.eqb_eq in E. subst l. rewrite upd_same.
      destruct (registered a ls); reflexivity.
    + apply Nat.eqb_neq in E. rewrite upd_other by assumption.
      reflexivity.
Qed.

(** What [set_prepended_page_count] leaves in the heap. *)
Lemma set_prepended_page_count_spec h self count :
  let h' := set_prepended_page_count h self count in
  managers h' = upd (managers h) self
                  (mkLinkManager count (_links (managers h self))) /\
  next_info h' = next_info h /\
  next_manager h' = next_manager h /\
  forall l,
    infos h' l =
    if registered l (_links (managers h self))
    then resolved (infos h l) count
    else infos h l.
Proof.
  unfold set_prepended_page_count, _update_all_links.
  set (h1 := set_manager h self _).
  destruct (update_links_loop (_links (managers h1 self)) h1 self)
    as (Hm & Hi & Hn & Hl).
  cbv zeta. rewrite Hm, Hi, Hn. repeat split.
  intros l. rewrite Hl. subst h1.
  cbn [set_manager managers infos]. rewrite upd_same. reflexivity.
Qed.

(** C1.  After [set_prepended_page_count(c)], [get_adjusted_page(p)] is
    [p + c] for every page [p], whatever has been registered, and every
    registered record keeps its original page and has
    [adjusted_page == original_page + c]. *)
Theorem set_prepended_page_count_adjusts
    (h : Heap) (self : loc) (c p : Z) :
  let h' := set_prepended_page_count h self c in
  get_adjusted_page h' self p = p + c /\
  _links (managers h' self) = _links (managers h self) /\
  Forall
    (fun link =>
       original_page (infos h' link) = original_page (infos h link) /\
       adjusted_page (infos h' link)
       = Some (original_page (infos h' link) + c))
    (_links (managers h self)).
Proof.
  destruct (set_prepended_page_count_spec h self c) as (Hm & _ & _ & Hl).
  cbv zeta. unfold get_adjusted_page. rewrite Hm, upd_same. cbn.
  repeat split.
  apply Forall_forall. intros link Hin.
  rewrite Hl, (registered_In _ _ Hin). cbn. split; reflexivity.
Qed.

(** C4.  Setting the offset to [a] and then to [b] leaves every registered
    record at [original_page + b] and the heap as if only [b] had been set;
    in particular setting [b] twice is the same as setting it once. *)
Theorem set_prepended_page_count_again
    (h : Heap) (self : loc) (a b : Z) :
  let hab := set_prepended_page_count (set_prepended_page_count h self a)
               self b in
  let hb := set_prepended_page_count h self b in
  Forall
    (fun link =>
       original_page (infos hab link) = original_page (infos h link) /\
       adjusted_page (infos hab link)
       = Some (original_page (infos h link) + b))
    (_links (managers h self)) /\
  prepended_page_count (managers hab self) = b /\
  heap_eq hab hb /\
  heap_eq (set_prepended_page_count hb self b) hb.
Proof.
  assert (again : forall a0,
    heap_eq
      (set_prepended_page_count (set_prepended_page_count h self a0) self b)
      (set_prepended_page_count h self b)).
  { intros a0.
    destruct (set_prepended_page_count_spec h self a0) as (Hm & Hi & Hn & Hl).
    destruct (set_prepended_page_count_spec
                (set_prepended_page_count h self a0) self b)
      as (Hm2 & Hi2 & Hn2 & Hl2).
    destruct (set_prepended_page_count_spec h self b)
      as (Hm3 & Hi3 & Hn3 & Hl3).
    cbv zeta in *. unfold heap_eq.
    assert (Hlinks :
      _links (managers (set_prepended_page_count h self a0) self)
      = _links (managers h self)) by (rewrite Hm, upd_same; reflexivity).
    rewrite Hlinks in Hm2, Hl2.
    rewrite Hi2, Hn2, Hi3, Hn3, Hi, Hn. repeat split.
    - intros l. rewrite Hl2, Hl3, Hl.
      destruct (registered l (_links (managers h self))); reflexivity.
    - intros l. rewrite Hm2, Hm3, Hm. unfold upd.
      destruct (Nat.eqb l self); reflexivity. }
  cbv zeta. repeat split; try apply again.
  - destruct (again a) as (Hinf & _).
    destruct (set_prepended_page_count_spec h self b) as (_ & _ & _ & Hl).
    cbv zeta in Hl.
    apply Forall_forall. intros link Hin.
    rewrite Hinf, Hl, (registered_In _ _ Hin). cbn. split; reflexivity.
  - destruct (set_prepended_page_count_spec
                (set_prepended_page_count h self a) self b) as (Hm & _).
    cbv zeta in Hm. rewrite Hm, upd_same. reflexivity.
Qed.

(** C10.  [destination_name] of a record is defined whether or not the
    record is resolved: ["page_"] followed by the original page while
    [adjusted_page] is [None], and by the adjusted page once it is set
    (also when that page is 0). *)
Theorem destination_name_unresolved_and_resolved (p a : Z) :
  destination_name (mkLinkInfo p None) = lit "page_" ++ str_of_int p /\
  destination_name (mkLinkInfo p (Some a)) = lit "page_" ++ str_of_int a /\
  destination_name (mkLinkInfo 5 None) = lit "page_5" /\
  destination_name (mkLinkInfo 5 (Some 8)) = lit "page_8" /\
  destination_name (mkLinkInfo 5 (Some 0)) = lit "page_0".
Proof. repeat split. Qed.

End LinkTable.

(** ** The marker formatter *)

Section MarkerFormatter.

Import text_formatter.

(** C8.  With the default markers, ["**Bold** and _italic_"] is formatted to
    ["<b>Bold</b> and <i>italic</i>"]: one bold region, one italic region,
    and no ["*"] or ["_"] left anywhere in the output. *)
Theorem format_text_scenario_D :
  let out :=
    format_text_default default_formatter (lit "**Bold** and _italic_") in
  out = lit "<b>Bold</b> and <i>italic</i>" /\
  count (lit "<b>") out = 1%nat /\
  count (lit "</b>") out = 1%nat /\
  count (lit "<i>") out = 1%nat /\
  count (lit "</i>") out = 1%nat /\
  count (lit "*") out = 0%nat /\
  count (lit "_") out = 0%nat.
Proof. vm_compute. repeat split. Qed.

End MarkerFormatter.

(** ** The page composer *)

Section PageComposer.

Import schema page_generator.

Context {F : Type} {Fl : Float F}.

Lemma len_app (a b : str) : len (a ++ b) = len a + len b.
Proof. unfold len. rewrite length_app. lia. Qed.

Lemma len_sep : len (lit ", ") = 2.
Proof. reflexivity. Qed.

Lemma len_nil : len [] = 0.
Proof. reflexivity. Qed.

Lemma join_snoc (parts : list str) (s : str) :
  join (parts ++ [s]) = join parts ++ s.
Proof. unfold join. rewrite concat_app. cbn. now rewrite app_nil_r. Qed.

Lemma link_items_cons (item : ContentItem) (content : list ContentItem) :
  link_items (item :: content)
  = match item with Link i => [i] | Text _ => [] end ++ link_items content.
Proof. reflexivity. Qed.

Lemma sep_len_S (i : nat) : sep_len (S i) = 2.
Proof.
  unfold sep_len. destruct (0 <? Z.of_nat (S i)) eqn:E; [reflexivity |].
  apply Z.ltb_ge in E. lia.
Qed.

Lemma record_links page_idx (x0 y0 avg h0 : F) links : forall lps,
  fold_left (record_link page_idx x0 y0 avg h0) links lps
  = lps ++ List.map (position_of page_idx x0 y0 avg h0) links.
Proof.
  induction links as [|l links IH]; intros lps; cbn [fold_left List.map].
  - now rewrite app_nil_r.
  - rewrite IH. unfold record_link, position_of.
    rewrite <- app_assoc. reflexivity.
Qed.

Lemma draw_tracking pl text links style plain_text lps :
  plain_text <> [] ->
  draw pl (LinkTrackingParagraph text links style plain_text) lps
  = lps ++ List.map
             (position_of (page_number pl - 1) (abs_x pl) (abs_y pl)
                (avg_char_width_of pl plain_text) (wrap_height pl))
             links.
Proof.
  intros Hne. unfold draw. destruct links as [|l links].
  - cbn. now rewrite app_nil_r.
  - rewrite record_links. unfold avg_char_width_of.
    destruct plain_text; [contradiction | reflexivity].
Qed.

Section Loop.

Variable h : link_manager.Heap.
Variable self : @PageGenerator F.

Lemma content_item_step_spec i st item :
  let st' := content_item_step h self i st item in
  join (plain_parts st')
  = join (plain_parts st)
    ++ (if 0 <? Z.of_nat i then lit ", " else []) ++ item_text item /\
  current_pos st' = current_pos st + sep_len i + len (item_text item) /\
  links st' = links st ++ step_links h self st i item.
Proof.
  unfold content_item_step, step_links, sep_len, offset,
    link_manager.get_adjusted_page.
  destruct (0 <? Z.of_nat i); destruct item as [s|it];
    cbn [plain_parts current_pos links item_text];
    rewrite ?join_snoc, ?app_nil_r, <- ?app_assoc, ?Z.add_0_r;
    repeat split; cbn [app]; rewrite ?app_nil_r; reflexivity.
Qed.

Lemma content_items_loop_grows content : forall i st,
  let r := content_items_loop h self i content st in
  (exists more, join (plain_parts r) = join (plain_parts st) ++ more) /\
  (exists more, links r = links st ++ more).
Proof.
  induction content as [|item content IH]; intros i st;
    cbn [content_items_loop].
  - split; exists []; now rewrite app_nil_r.
  - destruct (IH (S i) (content_item_step h self i st item))
      as ((mp & Hp) & (ml & Hl)).
    destruct (content_item_step_spec i st item) as (Sp & _ & Sl).
    cbv zeta in *. rewrite Hp, Hl, Sp, Sl. split.
    + eexists. rewrite <- app_assoc. reflexivity.
    + eexists. rewrite <- app_assoc. reflexivity.
Qed.

(** The targets and texts of the links the loop records. *)
Lemma content_items_loop_links content : forall i st,
  let r := content_items_loop h self i content st in
  List.map (fun l => (li_text l, li_target_page l)) (links r)
  = List.map (fun l => (li_text l, li_target_page l)) (links st)
    ++ List.map
         (fun it => (schema.text it, schema.target_page it + offset h self))
         (link_items content).
Proof.
  induction content as [|item content IH]; intros i st;
    cbn [content_items_loop link_items flat_map].
  - cbn. now rewrite app_nil_r.
  - cbv zeta. rewrite IH.
    destruct (content_item_step_spec i st item) as (_ & _ & Sl).
    cbv zeta in Sl. rewrite Sl, !map_app, <- app_assoc. f_equal. f_equal.
    destruct item; reflexivity.
Qed.

Lemma content_items_loop_len content : forall i st,
  current_pos st = len (join (plain_parts st)) ->
  let r := content_items_loop h self i content st in
  current_pos r = len (join (plain_parts r)) /\
  current_pos r = current_pos st + text_len_sum content + sep_total i content.
Proof.
  induction content as [|item content IH]; intros i st Hpos;
    cbn [content_items_loop text_len_sum sep_total].
  - cbv zeta. split; [assumption | lia].
  - destruct (content_item_step_spec i st item) as (Sp & Sc & _).
    cbv zeta in *.
    destruct (IH (S i) (content_item_step h self i st item)) as (H1 & H2).
    { rewrite Sc, Sp, !len_app, <- Hpos. unfold sep_len.
      destruct (0 <? Z.of_nat i); rewrite ?len_sep, ?len_nil; lia. }
    split; [assumption |].
    rewrite H2, Sc. unfold sep_total.
    destruct content; cbn [List.length]; rewrite ?sep_len_S; lia.
Qed.

(** The link recorded for the item of index [j] of [content], which
    starts at index [i] of the whole list: its place among the links,
    its offsets, and the text found at these offsets. *)
Lemma content_items_loop_link_at content : forall i st j item,
  current_pos st = len (join (plain_parts st)) ->
  nth_error content j = Some (Link item) ->
  let r := content_items_loop h self i content st in
  let cs := current_pos st + text_len_sum (firstn j content)
            + 2 * Z.of_nat j + sep_len i in
  nth_error (links r)
    (List.length (links st) + List.length (link_items (firstn j content)))
  = Some (mkLinkInfo (schema.text item)
            (schema.target_page item + offset h self)
            cs (cs + len (schema.text item))) /\
  exists pre post,
    join (plain_parts r) = pre ++ schema.text item ++ post /\ len pre = cs.
Proof.
  induction content as [|a content IH]; intros i st j item Hpos Hnth.
  - destruct j; discriminate.
  - destruct (content_item_step_spec i st a) as (Sp & Sc & Sl).
    cbv zeta in Sp, Sc, Sl.
    assert (Hpos' :
      current_pos (content_item_step h self i st a)
      = len (join (plain_parts (content_item_step h self i st a)))).
    { rewrite Sc, Sp, !len_app, <- Hpos. unfold sep_len.
      destruct (0 <? Z.of_nat i); rewrite ?len_sep, ?len_nil; lia. }
    destruct j as [|j].
    + cbn in Hnth. injection Hnth as ->.
      cbn [content_items_loop firstn link_items flat_map List.length
             text_len_sum].
      destruct (content_items_loop_grows content (S i)
                  (content_item_step h self i st (Link item)))
        as ((mp & Hp) & (ml & Hl)).
      cbv zeta in *. rewrite Hp, Hl, Sl, Sp. split.
      * rewrite Nat.add_0_r, <- app_assoc, nth_error_app2 by lia.
        rewrite Nat.sub_diag. cbn. do 2 f_equal; lia.
      * exists (join (plain_parts st)
                ++ (if 0 <? Z.of_nat i then lit ", " else [])), mp.
        split.
        -- cbn [item_text]. now rewrite <- !app_assoc.
        -- rewrite len_app, <- Hpos. unfold sep_len.
           destruct (0 <? Z.of_nat i); rewrite ?len_sep, ?len_nil; lia.
    + cbn in Hnth. cbn [content_items_loop firstn].
      destruct (IH (S i) _ j item Hpos' Hnth) as (H1 & pre & post & H2 & H3).
      cbv zeta in *. split.
      * replace (List.length (links st)
                 + List.length (link_items (a :: firstn j content)))%nat
          with (List.length (links (content_item_step h self i st a))
                + List.length (link_items (firstn j content)))%nat.
        2:{ rewrite Sl, length_app, link_items_cons, length_app.
            destruct a; cbn [step_links List.length]; lia. }
        rewrite H1. f_equal. cbn [text_len_sum].
        rewrite Sc, sep_len_S. f_equal; lia.
      * exists pre, post. split; [assumption |].
        rewrite H3, Sc, sep_len_S. cbn [text_len_sum]. lia.
Qed.

End Loop.

Lemma bind_ok {A B} (m : Exc A) (k : A -> Exc B) (b : B) :
  bind m k = Ok b -> exists a, m = Ok a /\ k a = Ok b.
Proof.
  destruct m as [a | e]; cbn [bind]; intros H; [| discriminate].
  now exists a.
Qed.

(** A paragraph that was constructed is the one asked for. *)
Lemma new_Paragraph_ok (engine : @LayoutEngine F) text style f :
  new_Paragraph engine text style = Ok f -> f = Paragraph text style.
Proof.
  unfold new_Paragraph. destruct (paragraph_raises engine text style);
    intros H; [discriminate | now injection H].
Qed.

Lemma new_LinkTrackingParagraph_ok (engine : @LayoutEngine F) text links
    style plain_text f :
  new_LinkTrackingParagraph engine text links style plain_text = Ok f ->
  f = LinkTrackingParagraph text links style plain_text.
Proof.
  unfold new_LinkTrackingParagraph. intros H.
  apply bind_ok in H as (_para & _ & H). now injection H.
Qed.

(** The flowables of a bullet, once built, come down to one paragraph to
    draw: a tracking paragraph with the links and the plain text of the
    bullet when there are links, a plain one otherwise. *)
Lemma build_bullet_point_ok (engine : @LayoutEngine F)
    (h : link_manager.Heap) (self : @PageGenerator F) (e : Bullet)
    (indented : bool) (fl : list Flowable) :
  _build_bullet_point engine h self e indented = Ok fl ->
  exists text style,
    flat_map drawn fl
    = [match bullet_links h self e with
       | _ :: _ =>
           LinkTrackingParagraph text (bullet_links h self e) style
             (bullet_plain_text h self e)
       | [] => Paragraph text style
       end].
Proof.
  unfold bullet_links, bullet_plain_text, _build_bullet_point.
  fold (bullet_prefix self e).
  destruct (_build_content_items h self (content e)) as ((cstr & ls) & plain).
  cbn [fst snd]. intros H.
  apply bind_ok in H as (flowable & Hflowable & H).
  destruct ls as [|l ls]; cbn [List.map] in *.
  - apply new_Paragraph_ok in Hflowable. subst flowable.
    destruct (overflow_behavior e);
      try (apply bind_ok in H as (paragraph & Hp & H);
           apply new_Paragraph_ok in Hp; subst paragraph);
      injection H as <-; now eexists; eexists.
  - apply new_LinkTrackingParagraph_ok in Hflowable. subst flowable.
    destruct (overflow_behavior e);
      try (apply bind_ok in H as (paragraph & Hp & H);
           apply new_LinkTrackingParagraph_ok in Hp; subst paragraph);
      injection H as <-; now eexists; eexists.
Qed.

(** Drawing the flowables of a bullet once records one anchor per link
    of the bullet, with the geometry of the one paragraph drawn. *)
Lemma draw_bullet_point (g : nat -> @Placement F) (n : nat)
    (engine : @LayoutEngine F) (h : link_manager.Heap)
    (self : @PageGenerator F) (e : Bullet) (indented : bool)
    (fl : list Flowable) (lps : list (@LinkPosition F)) :
  _build_bullet_point engine h self e indented = Ok fl ->
  draw_from g n (flat_map drawn fl) lps
  = lps ++ List.map
             (position_of (page_number (g n) - 1) (abs_x (g n)) (abs_y (g n))
                (avg_char_width_of (g n) (bullet_plain_text h self e))
                (wrap_height (g n)))
             (bullet_links h self e).
Proof.
  intros H.
  destruct (build_bullet_point_ok _ _ _ _ _ _ H) as (text & style & ->).
  cbn [draw_from].
  destruct (bullet_links h self e) as [|l ls].
  - cbn [draw List.map]. now rewrite app_nil_r.
  - apply draw_tracking.
    unfold bullet_plain_text, bullet_prefix. cbn [app]. discriminate.
Qed.

(** The anchors of a bullet carry the texts of its link items and their
    targets shifted by the offset. *)
Lemma bullet_point_records (engine : @LayoutEngine F)
    (h : link_manager.Heap) (self : @PageGenerator F)
    (e : Bullet) (indented : bool) (fl : list Flowable) :
  _build_bullet_point engine h self e indented = Ok fl ->
  records fl (List.map (shifted_key h self) (link_items (content e))).
Proof.
  intros H g n lps. eexists.
  split; [now apply draw_bullet_point with (1 := H) |].
  unfold bullet_links, _build_content_items. cbn [fst snd].
  rewrite !map_map.
  pose proof (content_items_loop_links h self (content e) O
                (mkItems [] [] [] 0)) as Hl.
  cbv zeta in Hl. cbn [links List.map app] in Hl. exact Hl.
Qed.

Lemma build_section_ok (engine : @LayoutEngine F) (self : @PageGenerator F)
    (base_style_name : str) (e : Section_) (fl : list Flowable) :
  _build_section engine self base_style_name e = Ok fl ->
  exists text style, fl = [Paragraph text style].
Proof.
  unfold _build_section. intros H.
  apply bind_ok in H as (paragraph & Hp & H).
  apply new_Paragraph_ok in Hp. subst paragraph.
  injection H as <-. now eexists; eexists.
Qed.

Lemma build_page_heading_ok (engine : @LayoutEngine F)
    (self : @PageGenerator F) (heading : PageHeading) (fl : list Flowable) :
  _build_page_heading engine self heading = Ok fl ->
  exists text style, fl = [Paragraph text style; Spacer 1 12].
Proof.
  unfold _build_page_heading. intros H.
  apply bind_ok in H as (paragraph & Hp & H).
  apply new_Paragraph_ok in Hp. subst paragraph.
  injection H as <-. now eexists; eexists.
Qed.

Lemma records_nil : records [] [].
Proof. intros g n lps. exists []. cbn. now rewrite app_nil_r. Qed.

Lemma content_element_records (engine : @LayoutEngine F)
    (h : link_manager.Heap) (self : @PageGenerator F)
    (element : ContentElement) (fl : list Flowable) :
  _build_content_element engine h self element = Ok fl ->
  records fl (List.map (shifted_key h self) (element_link_items element)).
Proof.
  destruct element as [e|e|e|e];
    cbn [_build_content_element element_link_items]; intros H;
    try (now apply bullet_point_records with (1 := H)).
  - apply build_section_ok in H as (text & style & ->).
    intros g n lps. exists []. cbn. now rewrite app_nil_r.
  - apply build_section_ok in H as (text & style & ->).
    intros g n lps. exists []. cbn. now rewrite app_nil_r.
Qed.

(** C2.  When the flowables of a content element are built and are drawn
    once, the drawing appends exactly one anchor per link item of the
    element: none for a heading or a bullet without links, [k] for a bullet
    with [k] link items, each with the text of its item and with
    [target_page] equal to the target of the item plus the offset held by
    the link manager. *)
Theorem content_element_anchor_positions
    (engine : @LayoutEngine F) (g : nat -> @Placement F) (n : nat)
    (h : link_manager.Heap) (self : @PageGenerator F)
    (element : ContentElement) (fl : list Flowable)
    (lps lps' : list (@LinkPosition F)) :
  _build_content_element engine h self element = Ok fl ->
  draw_from g n (flat_map drawn fl) lps = lps' ->
  exists anchors,
    lps' = lps ++ anchors /\
    List.length anchors = List.length (element_link_items element) /\
    List.map (fun lp => (link_text lp, target_page lp)) anchors
    = List.map
        (fun it => (schema.text it, schema.target_page it + offset h self))
        (element_link_items element).
Proof.
  intros Hbuilt Hdrawn.
  destruct (content_element_records engine h self element fl Hbuilt g n lps)
    as (anchors & Hdraw & Hkeys).
  exists anchors. split; [now rewrite <- Hdrawn |]. split; [| exact Hkeys].
  apply (f_equal (@List.length _)) in Hkeys.
  unfold anchor_key, shifted_key in Hkeys.
  now rewrite !length_map in Hkeys.
Qed.

Lemma draw_from_app (g : nat -> @Placement F) (a b : list Flowable) :
  forall n lps,
  draw_from g n (a ++ b) lps
  = draw_from g (n + List.length a) b (draw_from g n a lps).
Proof.
  induction a as [|f a IH]; intros n lps; cbn [app draw_from List.length].
  - now rewrite Nat.add_0_r.
  - rewrite IH. f_equal. lia.
Qed.

Lemma records_app (a b : list Flowable) (ka kb : list (str * Z)) :
  records a ka -> records b kb -> records (a ++ b) (ka ++ kb).
Proof.
  intros Ha Hb g n lps. rewrite flat_map_app, draw_from_app.
  destruct (Ha g n lps) as (xa & Hxa & Hka). rewrite Hxa.
  destruct (Hb g (n + List.length (flat_map drawn a))%nat (lps ++ xa))
    as (xb & Hxb & Hkb).
  rewrite Hxb. exists (xa ++ xb). split.
  - now rewrite app_assoc.
  - now rewrite map_app, Hka, Hkb.
Qed.

Lemma build_page_records (engine : @LayoutEngine F) (h : link_manager.Heap)
    (self : @PageGenerator F) (page : Page) (is_first : bool)
    (fl : list Flowable) :
  _build_page engine h self page is_first = Ok fl ->
  records fl (List.map (shifted_key h self) (page_link_items page)).
Proof.
  unfold _build_page, page_link_items. intros H.
  assert (Hloop : forall elements flowables keys built,
    records flowables keys ->
    extend_loop (_build_content_element engine h self) elements flowables
    = Ok built ->
    records built
      (keys ++ List.map (shifted_key h self)
                 (flat_map element_link_items elements))).
  { induction elements as [|el elements IH]; intros flowables keys built Hfl;
      cbn [extend_loop flat_map List.map]; intros Hb.
    - injection Hb as <-. now rewrite app_nil_r.
    - apply bind_ok in Hb as (part & Hpart & Hb).
      rewrite map_app, app_assoc. apply (IH _ _ _ (records_app _ _ _ _ Hfl
        (content_element_records _ _ _ _ _ Hpart)) Hb). }
  apply bind_ok in H as (flowables & Hhead & H).
  apply (Hloop _ _ [] _) in H; [exact H |].
  assert (Hbreak : records (if negb is_first then [PageBreak] else []) []).
  { destruct is_first; cbn [negb]; [apply records_nil |].
    intros g n lps. exists []. cbn. now rewrite app_nil_r. }
  destruct (page_heading page) as [heading|].
  - apply bind_ok in Hhead as (built & Hbuilt & Hhead).
    injection Hhead as <-.
    apply build_page_heading_ok in Hbuilt as (text & style & ->).
    change (@nil (str * Z)) with (@nil (str * Z) ++ []).
    apply records_app; [exact Hbreak |].
    intros g n lps. exists []. cbn. now rewrite app_nil_r.
  - injection Hhead as <-. exact Hbreak.
Qed.

Lemma build_pages_records (engine : @LayoutEngine F) (h : link_manager.Heap)
    (self : @PageGenerator F) (ps : list Page) :
  forall i flowables keys fl,
  records flowables keys ->
  build_pages engine h self i ps flowables = Ok fl ->
  records fl
    (keys ++ List.map (shifted_key h self) (flat_map page_link_items ps)).
Proof.
  induction ps as [|page ps IH]; intros i flowables keys fl Hfl;
    cbn [build_pages flat_map List.map]; intros H.
  - injection H as <-. now rewrite app_nil_r.
  - apply bind_ok in H as (built & Hbuilt & H).
    rewrite map_app, app_assoc.
    apply (IH _ _ _ _ (records_app _ _ _ _ Hfl
             (build_page_records _ _ _ _ _ _ Hbuilt)) H).
Qed.

(** What [generate] returns is the output of the engine on the story, and
    the anchors that drawing the story records. *)
Lemma generate_ok (engine : @LayoutEngine F) (h : link_manager.Heap)
    (self : @PageGenerator F) (pdf_bytes : list N) (page_count : Z)
    (anchors : list (@LinkPosition F)) :
  generate engine h self = Ok (pdf_bytes, page_count, anchors) ->
  exists flowables,
    story engine h self = Ok flowables /\
    build_raises engine (defaults (spec self)) flowables = false /\
    pdf_bytes = output_bytes engine (defaults (spec self)) flowables /\
    page_count = page_total engine (defaults (spec self)) flowables /\
    anchors
    = draw_from (place engine (defaults (spec self)) flowables) O
        (flat_map drawn flowables) [].
Proof.
  unfold generate, story, doc_build. intros H.
  apply bind_ok in H as (flowables & Hstory & H).
  exists flowables. split; [exact Hstory |].
  destruct (build_raises engine (defaults (spec self)) flowables);
    [discriminate |].
  cbn [bind] in H. injection H as <- <- <-. repeat split.
Qed.

(** The anchors that [generate] returns: one per link item of the
    specification, in order, each with the target of its item shifted by
    the offset. *)
Lemma generate_link_positions (engine : @LayoutEngine F)
    (h : link_manager.Heap) (self : @PageGenerator F)
    (pdf_bytes : list N) (page_count : Z)
    (anchors : list (@LinkPosition F)) :
  generate engine h self = Ok (pdf_bytes, page_count, anchors) ->
  List.map anchor_key anchors
  = List.map (shifted_key h self) (spec_link_items (spec self)).
Proof.
  intros H.
  apply generate_ok in H as (flowables & Hstory & _ & _ & _ & ->).
  destruct (build_pages_records engine h self (pages (spec self)) O [] []
              flowables records_nil Hstory
              (place engine (defaults (spec self)) flowables) O [])
    as (anchors & Hdraw & Hkeys).
  rewrite Hdraw. exact Hkeys.
Qed.

Lemma slice_app (a t b : str) :
  slice (a ++ t ++ b) (len a) (len a + len t) = t.
Proof.
  unfold slice, len.
  replace (Z.of_nat (List.length a) + Z.of_nat (List.length t)
           - Z.of_nat (List.length a)) with (Z.of_nat (List.length t)) by lia.
  rewrite !Nat2Z.id, skipn_app, skipn_all, Nat.sub_diag.
  cbn [skipn app].
  rewrite firstn_app, firstn_all, Nat.sub_diag. cbn [firstn].
  apply app_nil_r.
Qed.

(** C7.  For the link item at index [j] of a bullet, the anchor recorded when
    the paragraph that was built is drawn is estimated from the average
    character width [width / max(len(plain_text), 1)]: [x] is the
    paragraph origin plus
    [char_start] widths, [width] is the link text length in widths, raised
    to 20 when smaller.  [char_start] counts the glyph and its space, the
    plain label and its space, the items before the link and one [", "]
    per preceding item, and the plain text holds the link text at
    [char_start .. char_end]. *)
Theorem bullet_link_estimate
    (engine : @LayoutEngine F) (g : nat -> @Placement F) (n : nat)
    (h : link_manager.Heap) (self : @PageGenerator F) (e : Bullet)
    (indented : bool) (fl : list Flowable)
    (lps : list (@LinkPosition F)) (j : nat) (item : LinkableItem) :
  _build_bullet_point engine h self e indented = Ok fl ->
  nth_error (content e) j = Some (Link item) ->
  let pl := g n in
  let plain_label := _strip_xml_tags self (label e) in
  let plain_text := bullet_plain_text h self e in
  let cs := 2 + len plain_label + 1
            + text_len_sum (firstn j (content e)) + 2 * Z.of_nat j in
  let ce := cs + len (schema.text item) in
  let avg := fdiv (wrap_width pl) (of_int (Z.max (len plain_text) 1)) in
  let w := pymax (fmul (of_int (len (schema.text item))) avg) (of_int 20) in
  nth_error (draw_from g n (flat_map drawn fl) lps)
    (List.length lps + List.length (link_items (firstn j (content e))))
  = Some (mkLinkPosition (page_number pl - 1)
            (schema.target_page item + offset h self) (schema.text item)
            (fadd (abs_x pl) (fmul (of_int cs) avg)) (abs_y pl)
            w (wrap_height pl)) /\
  slice plain_text cs ce = schema.text item /\
  len plain_text
  = 2 + len plain_label + 1 + text_len_sum (content e)
    + 2 * (Z.of_nat (List.length (content e)) - 1) /\
  (flt (of_int 20) (of_int 20) = false -> flt w (of_int 20) = false).
Proof.
  intros Hbuilt Hnth.
  pose proof (content_items_loop_link_at h self (content e) O
                (mkItems [] [] [] 0) j item eq_refl Hnth) as Hat.
  pose proof (content_items_loop_len h self (content e) O
                (mkItems [] [] [] 0) eq_refl) as Hlen.
  cbv zeta in Hat, Hlen.
  cbn [links current_pos List.length Nat.add] in Hat, Hlen.
  destruct Hat as (Hlink & pre & post & Hplain & Hpre).
  destruct Hlen as (Hcur & Htotal).
  assert (Hprefix : len (bullet_prefix self e)
                    = 2 + len (_strip_xml_tags self (label e)) + 1).
  { unfold bullet_prefix. rewrite !len_app. cbn [app].
    change (len [bullet_glyph; 32%N]) with 2. change (len [32%N]) with 1.
    lia. }
  cbv zeta. repeat split.
  - rewrite (draw_bullet_point _ _ _ _ _ _ _ _ _ Hbuilt), nth_error_app2
      by lia.
    replace (List.length lps
             + List.length (link_items (firstn j (content e)))
             - List.length lps)%nat
      with (List.length (link_items (firstn j (content e)))) by lia.
    unfold bullet_links, _build_content_items. cbn [fst snd].
    rewrite !nth_error_map, Hlink. cbn [option_map].
    unfold position_of, avg_char_width_of.
    cbn [li_text li_target_page char_start char_end].
    rewrite Hprefix. unfold sep_len. cbn [Z.of_nat Z.ltb Z.compare].
    f_equal. f_equal.
    + do 3 f_equal. lia.
    + do 3 f_equal. lia.
  - unfold bullet_plain_text, _build_content_items. cbn [snd].
    rewrite Hplain, app_assoc.
    replace (2 + len (_strip_xml_tags self (label e)) + 1
             + text_len_sum (firstn j (content e)) + 2 * Z.of_nat j)
      with (len (bullet_prefix self e ++ pre)).
    + apply slice_app.
    + rewrite len_app, Hprefix, Hpre. unfold sep_len. cbn. lia.
  - unfold bullet_plain_text, _build_content_items. cbn [snd].
    rewrite len_app, Hprefix, <- Hcur, Htotal. unfold sep_total, sep_len.
    destruct (content e) as [|a rest]; [destruct j; discriminate |].
    cbn [List.length Z.of_nat Z.ltb Z.compare text_len_sum]. lia.
  - intros Hirr. unfold pymax.
    destruct (flt (fmul _ _) (of_int 20)) eqn:E; [exact Hirr | exact E].
Qed.

End PageComposer.

(** ** The merger *)

Section Merger.

Import pdf_merger.

Context {F : Type} {Fl : Float F} {Body : Type}.

Lemma lit_inj (a b : string) : lit a = lit b -> a = b.
Proof.
  unfold lit. intros H.
  apply (f_equal (List.map ascii_of_N)) in H.
  rewrite !map_map in H.
  rewrite !(map_ext _ (fun x => x) ascii_N_embedding), !map_id in H.
  apply (f_equal string_of_list_ascii) in H.
  now rewrite !string_of_list_ascii_of_string in H.
Qed.

(** Distinct integers have distinct decimal renderings. *)
Lemma str_of_int_inj (a b : Z) : str_of_int a = str_of_int b -> a = b.
Proof.
  unfold str_of_int. intros H. apply lit_inj in H.
  apply (f_equal NilEmpty.int_of_string) in H.
  rewrite !NilEmpty.isi in H. injection H as H.
  now apply DecimalZ.to_int_inj.
Qed.

Lemma NoDup_map_inj {A B} (f : A -> B) (l : list A) :
  (forall a b, f a = f b -> a = b) -> NoDup l -> NoDup (List.map f l).
Proof.
  intros Hinj. induction 1 as [|a l Hnin Hnd IH]; cbn; constructor.
  - intros Hin. apply in_map_iff in Hin as (b & Hb & Hbl).
    apply Hinj in Hb. now subst b.
  - exact IH.
Qed.

Lemma add_pages_spec (ps : list (@PdfPage F Body)) : forall w,
  fold_left add_page ps w
  = mkWriter (pages w ++ ps) (named_destinations w).
Proof.
  induction ps as [|p ps IH]; intros w; cbn [fold_left].
  - rewrite app_nil_r. now destruct w.
  - rewrite IH. cbn. now rewrite <- app_assoc.
Qed.

Lemma create_destinations_loop_from (l : list nat) :
  forall w : @PdfWriter F Body,
  fold_left
    (fun w i =>
       add_named_destination w (lit "page_" ++ str_of_int (Z.of_nat i + 1))
         (Z.of_nat i))
    l w
  = mkWriter (pages w)
      (named_destinations w
       ++ List.map
            (fun i => (lit "page_" ++ str_of_int (Z.of_nat i + 1), Z.of_nat i))
            l).
Proof.
  induction l as [|i l IH]; intros w; cbn [fold_left List.map].
  - rewrite app_nil_r. now destruct w.
  - rewrite IH. cbn. now rewrite <- app_assoc.
Qed.

Lemma alter_nth_bodies (f : @PdfPage F Body -> @PdfPage F Body) :
  (forall p, body (f p) = body p) ->
  forall k l, List.map body (alter_nth f k l) = List.map body l.
Proof.
  intros Hf k l. revert k.
  induction l as [|a l IH]; intros [|k]; cbn; rewrite ?Hf, ?IH; reflexivity.
Qed.

(** Link annotations change neither the bodies of the pages nor the
    destinations. *)
Lemma add_link_annotations_frame raises lps : forall w : @PdfWriter F Body,
  let w' := _add_link_annotations raises w lps in
  List.map body (pages w') = List.map body (pages w) /\
  named_destinations w' = named_destinations w.
Proof.
  unfold _add_link_annotations.
  induction lps as [|lp lps IH]; intros w; cbn [fold_left].
  - split; reflexivity.
  - destruct (IH (add_link_annotation raises w lp)) as (Hb & Hd).
    cbv zeta in *. rewrite Hb, Hd.
    unfold add_link_annotation, add_annotation.
    repeat match goal with
           | |- context [if ?c then _ else _] => destruct c
           | |- context [match py_index ?l ?i with _ => _ end] =>
               destruct (py_index l i)
           end; cbn [pages named_destinations]; split; try reflexivity.
    now apply alter_nth_bodies.
Qed.

(** C3.  The merged document has the bodies of the prefix pages followed by
    those of the original pages (the very pages when no link positions are
    passed, as the builder does), and its named destinations are exactly
    ["page_1"] to ["page_(m+n)"], one per page and added in page order,
    whatever the links are; no name occurs twice. *)
Theorem merge_order_and_destinations
    (raises : @PdfWriter F Body -> Z -> @LinkAnnotation F -> bool)
    (prepend_pages original_pages : list (@PdfPage F Body))
    (link_positions : option (list (@page_generator.LinkPosition F))) :
  let w := merge_with_destinations_and_links raises prepend_pages
             original_pages link_positions in
  let total := (List.length prepend_pages + List.length original_pages)%nat in
  List.map body (pages w)
  = List.map body prepend_pages ++ List.map body original_pages /\
  pages (merge_with_destinations raises prepend_pages original_pages)
  = prepend_pages ++ original_pages /\
  named_destinations w
  = List.map
      (fun i => (lit "page_" ++ str_of_int (Z.of_nat i), Z.of_nat i - 1))
      (seq 1 total) /\
  NoDup (List.map fst (named_destinations w)).
Proof.
  set (w0 := create_destinations_loop
               (fold_left add_page original_pages
                  (fold_left add_page prepend_pages new_PdfWriter))
               (Z.of_nat (List.length prepend_pages)
                + Z.of_nat (List.length original_pages))).
  assert (Hw0 : w0 = mkWriter (prepend_pages ++ original_pages)
    (List.map
       (fun i => (lit "page_" ++ str_of_int (Z.of_nat i), Z.of_nat i - 1))
       (seq 1 (List.length prepend_pages + List.length original_pages)))).
  { subst w0. unfold create_destinations_loop.
    rewrite create_destinations_loop_from, !add_pages_spec.
    cbn [pages named_destinations new_PdfWriter app].
    rewrite <- Nat2Z.inj_add, Nat2Z.id, <- seq_shift, map_map.
    f_equal. apply map_ext. intros i.
    rewrite Nat2Z.inj_succ. do 2 f_equal; lia. }
  assert (Hw : let w := merge_with_destinations_and_links raises
                          prepend_pages original_pages link_positions in
               List.map body (pages w) = List.map body (pages w0) /\
               named_destinations w = named_destinations w0).
  { unfold merge_with_destinations_and_links. fold w0.
    destruct link_positions as [[|lp lps]|]; cbv zeta;
      try (split; reflexivity).
    apply add_link_annotations_frame. }
  cbv zeta in *. destruct Hw as (Hb & Hd). rewrite Hb, Hd, Hw0.
  cbn [pages named_destinations]. repeat split.
  - apply map_app.
  - unfold merge_with_destinations, merge_with_destinations_and_links.
    fold w0. now rewrite Hw0.
  - rewrite map_map. cbn [fst].
    apply NoDup_map_inj; [| apply seq_NoDup].
    intros a b H. apply app_inv_head in H. apply str_of_int_inj in H. lia.
Qed.

End Merger.

(** ** The link annotator *)

Section LinkBinder.

Import link_annotator.

Context {F : Type} {Fl : Float F}.

Variable insert_raises : @Page F -> @LinkDict F -> bool.

Lemma alter_nth_length {A} (f : A -> A) : forall k (l : list A),
  List.length (pdf_merger.alter_nth f k l) = List.length l.
Proof.
  intros k l. revert k.
  induction l as [|a l IH]; intros [|k]; cbn; rewrite ?IH; reflexivity.
Qed.

Lemma alter_nth_at {A} (f : A -> A) : forall k (l : list A),
  nth_error (pdf_merger.alter_nth f k l) k = option_map f (nth_error l k).
Proof.
  intros k l. revert k.
  induction l as [|a l IH]; intros [|k]; cbn; auto.
Qed.

Lemma alter_nth_elsewhere {A} (f : A -> A) : forall k k' (l : list A),
  k' <> k -> nth_error (pdf_merger.alter_nth f k l) k' = nth_error l k'.
Proof.
  intros k k' l. revert k k'.
  induction l as [|a l IH]; intros [|k] [|k'] Hne; cbn; auto;
    try contradiction.
Qed.

Lemma add_link_length doc lp :
  List.length (_add_link insert_raises doc lp) = List.length doc.
Proof.
  unfold _add_link.
  repeat match goal with
         | |- context [if ?c then _ else _] => destruct c
         end; try reflexivity.
  apply alter_nth_length.
Qed.

Lemma add_link_invalid doc lp :
  indices_valid doc lp = false -> _add_link insert_raises doc lp = doc.
Proof.
  unfold indices_valid, _add_link. intros H.
  destruct (page_generator.page_index lp <? 0) eqn:E1; [reflexivity |].
  destruct (Z.of_nat (List.length doc) <=? page_generator.page_index lp)
    eqn:E2; [reflexivity |].
  destruct (page_generator.target_page lp - 1 <? 0) eqn:E3; [reflexivity |].
  destruct (Z.of_nat (List.length doc) <=? page_generator.target_page lp - 1)
    eqn:E4; [reflexivity |].
  cbn [orb].
  apply Z.ltb_ge in E1, E3. apply Z.leb_gt in E2, E4.
  apply Z.leb_le in E1, E3. apply Z.ltb_lt in E2, E4.
  rewrite E1, E2, E3, E4 in H. discriminate.
Qed.

Lemma add_link_valid doc lp :
  indices_valid doc lp = true ->
  _add_link insert_raises doc lp
  = pdf_merger.alter_nth
      (fun page =>
         try_insert_link insert_raises page
           (mkLinkDict (link_rect page lp)
              (page_generator.target_page lp - 1)))
      (Z.to_nat (page_generator.page_index lp)) doc.
Proof.
  unfold indices_valid, _add_link. intros H.
  apply andb_prop in H as (H & H4). apply andb_prop in H as (H & H3).
  apply andb_prop in H as (H1 & H2).
  apply Z.leb_le in H1, H3. apply Z.ltb_lt in H2, H4.
  apply Z.ltb_ge in H1, H3. apply Z.leb_gt in H2, H4.
  now rewrite H1, H2, H3, H4.
Qed.

Lemma add_links_fold doc lps :
  add_links insert_raises doc lps = fold_left (_add_link insert_raises) lps doc.
Proof. destruct lps; reflexivity. Qed.

Lemma add_links_length lps : forall doc,
  List.length (fold_left (_add_link insert_raises) lps doc) = List.length doc.
Proof.
  induction lps as [|lp lps IH]; intros doc; cbn [fold_left];
    [reflexivity |].
  now rewrite IH, add_link_length.
Qed.

(** C5.  An anchor whose page index or target index is outside
    [0, len(doc)) leaves the document as it is, and the loop over the
    anchors gives the same document as without that anchor.  An anchor
    with both indices in range reaches [insert_link] on its page with the
    target index [target_page - 1]; the link is attached unless the
    insertion itself raises, and the other pages are untouched. *)
Theorem add_link_validates_indices
    (doc : @Document F) (lp : @page_generator.LinkPosition F) :
  let k := Z.to_nat (page_generator.page_index lp) in
  let doc' := _add_link insert_raises doc lp in
  List.length doc' = List.length doc /\
  if indices_valid doc lp then
    exists page,
      let link := mkLinkDict (link_rect page lp)
                    (page_generator.target_page lp - 1) in
      nth_error doc k = Some page /\
      nth_error doc' k = Some (try_insert_link insert_raises page link) /\
      page_links (try_insert_link insert_raises page link)
      = (if insert_raises page link then page_links page
         else page_links page ++ [link]) /\
      forall k', k' <> k -> nth_error doc' k' = nth_error doc k'
  else
    doc' = doc /\
    forall before after,
      add_links insert_raises doc (before ++ lp :: after)
      = add_links insert_raises doc (before ++ after).
Proof.
  cbv zeta. split; [apply add_link_length |].
  destruct (indices_valid doc lp) eqn:V.
  - rewrite (add_link_valid _ _ V).
    assert (Hk : (Z.to_nat (page_generator.page_index lp)
                  < List.length doc)%nat).
    { unfold indices_valid in V.
      apply andb_prop in V as (V & _). apply andb_prop in V as (V & _).
      apply andb_prop in V as (V1 & V2).
      apply Z.leb_le in V1. apply Z.ltb_lt in V2. lia. }
    apply nth_error_Some in Hk.
    destruct (nth_error doc (Z.to_nat (page_generator.page_index lp)))
      as [page|] eqn:E; [| contradiction].
    exists page. repeat split.
    + rewrite alter_nth_at, E. reflexivity.
    + unfold try_insert_link. destruct (insert_raises page _); reflexivity.
    + intros k' Hne. now apply alter_nth_elsewhere.
  - split; [now apply add_link_invalid |].
    intros before after. rewrite !add_links_fold, !fold_left_app.
    cbn [fold_left]. f_equal. apply add_link_invalid.
    unfold indices_valid in *. now rewrite add_links_length.
Qed.

Lemma ordered_on_app_l (D E : list F) : ordered_on (D ++ E) -> ordered_on D.
Proof.
  intros (I & T & C). repeat split.
  - intros a Ha. apply I, in_or_app. now left.
  - intros a b c Ha Hb Hc. apply T; apply in_or_app; now left.
  - intros a b c Ha Hb Hc. apply C; apply in_or_app; now left.
Qed.

(** The loop of [_find_text_rect] keeps the first instance among those
    at the least distance. *)
Lemma closest_instance (page : @Page F)
    (lp : @page_generator.LinkPosition F) (rs : list (@Rect F)) :
  rs <> [] ->
  ordered_on (List.map (distance_of page lp) rs) ->
  Forall (fun d => flt d finf = true) (List.map (distance_of page lp) rs) ->
  exists i r,
    nth_error rs i = Some r /\
    fold_left
      (closer (fsub (rect_height page) (page_generator.y lp))) rs (None, finf)
    = (Some r, distance_of page lp r) /\
    (forall j r', nth_error rs j = Some r' ->
       flt (distance_of page lp r') (distance_of page lp r) = false) /\
    (forall j r', (j < i)%nat -> nth_error rs j = Some r' ->
       flt (distance_of page lp r) (distance_of page lp r') = true).
Proof.
  set (d := distance_of page lp).
  induction rs as [|x rs IH] using rev_ind; [contradiction |].
  intros _ Hord Hfin. rewrite map_app in Hord, Hfin.
  rewrite fold_left_app. cbn [fold_left].
  assert (Hx : In (d x) (List.map d rs ++ List.map d [x]))
    by (apply in_or_app; right; now left).
  assert (Hin : forall j r', nth_error rs j = Some r' ->
            In (d r') (List.map d rs ++ List.map d [x])).
  { intros j r' Hj. apply in_or_app. left. apply in_map.
    eapply nth_error_In; eassumption. }
  destruct Hord as (I & T & C).
  destruct rs as [|y rs'].
  - exists O, x. cbn [fold_left app nth_error]. unfold closer.
    cbn [snd]. fold (distance_of page lp x). fold d.
    apply Forall_app in Hfin as (_ & Hfx). apply Forall_inv in Hfx.
    rewrite Hfx. repeat split.
    + intros [|[|j]] r' Hj; cbn in Hj; try discriminate.
      injection Hj as <-. now apply I.
    + intros j r' Hj. lia.
  - set (rs := y :: rs') in *.
    destruct IH as (i & r & Hi & Hfold & Hmin & Hfirst).
    { discriminate. }
    { eapply ordered_on_app_l. repeat split; eassumption. }
    { now apply Forall_app in Hfin as (Hf & _). }
    rewrite Hfold. unfold closer. cbn [snd].
    fold (distance_of page lp x). fold d.
    pose proof (Hin _ _ Hi) as Hr.
    destruct (flt (d x) (d r)) eqn:E.
    + exists (List.length rs), x. repeat split.
      * rewrite nth_error_app2, Nat.sub_diag by lia. reflexivity.
      * intros j r' Hj.
        destruct (Nat.lt_ge_cases j (List.length rs)) as [Hlt | Hge].
        -- rewrite nth_error_app1 in Hj by assumption.
           destruct (flt (d r') (d x)) eqn:E'; [| reflexivity].
           rewrite <- (Hmin _ _ Hj). symmetry.
           apply (T (d r') (d x) (d r)); eauto.
        -- rewrite nth_error_app2 in Hj by assumption.
           destruct (j - List.length rs)%nat as [|[|m]]; cbn in Hj;
             try discriminate.
           injection Hj as <-. now apply I.
      * intros j r' Hlt Hj. rewrite nth_error_app1 in Hj by assumption.
        destruct (C (d x) (d r) (d r')) as [H | H]; eauto.
        rewrite (Hmin _ _ Hj) in H. discriminate.
    + exists i, r.
      assert (Hil : (i < List.length rs)%nat)
        by (apply nth_error_Some; congruence).
      repeat split.
      * rewrite nth_error_app1 by assumption. exact Hi.
      * intros j r' Hj.
        destruct (Nat.lt_ge_cases j (List.length rs)) as [Hlt | Hge].
        -- rewrite nth_error_app1 in Hj by assumption. eauto.
        -- rewrite nth_error_app2 in Hj by assumption.
           destruct (j - List.length rs)%nat as [|[|m]]; cbn in Hj;
             try discriminate.
           injection Hj as <-. exact E.
      * intros j r' Hlt Hj.
        rewrite nth_error_app1 in Hj by lia. eauto.
Qed.

(** C6.  The rectangle of an anchor: the estimated rectangle when the
    search finds nothing (or the link text is empty and no search is made),
    the instance itself when there is exactly one, and with several
    instances the one at the least vertical distance from the estimated
    position, the first found among equals.  The last case takes the
    distances to be ordered by [<] and below [float("inf")]. *)
Theorem link_rect_resolution
    (page : @Page F) (lp : @page_generator.LinkPosition F) :
  let instances := search_for page (page_generator.link_text lp) in
  match page_generator.link_text lp with
  | [] => link_rect page lp = _get_estimated_rect page lp
  | _ :: _ =>
      match instances with
      | [] => link_rect page lp = _get_estimated_rect page lp
      | [r] => link_rect page lp = r
      | _ :: _ :: _ =>
          ordered_on (List.map (distance_of page lp) instances) ->
          Forall (fun d => flt d finf = true)
            (List.map (distance_of page lp) instances) ->
          exists i,
            nth_error instances i = Some (link_rect page lp) /\
            (forall j r', nth_error instances j = Some r' ->
               flt (distance_of page lp r')
                   (distance_of page lp (link_rect page lp)) = false) /\
            (forall j r', (j < i)%nat -> nth_error instances j = Some r' ->
               flt (distance_of page lp (link_rect page lp))
                   (distance_of page lp r') = true)
      end
  end.
Proof.
  cbv zeta. unfold link_rect, _find_text_rect.
  destruct (page_generator.link_text lp) as [|c text]; [reflexivity |].
  destruct (search_for page (c :: text)) as [|r1 [|r2 rest]];
    try reflexivity.
  intros Hord Hfin.
  destruct (closest_instance page lp (r1 :: r2 :: rest)) as
    (i & r & Hi & Hfold & Hmin & Hfirst); try assumption; [discriminate |].
  rewrite Hfold. cbn [fst]. exists i. repeat split; assumption.
Qed.

End LinkBinder.

(** ** The document builder *)

Section Builder.

Import link_manager document_builder.

Context {F : Type} {Fl : Float F}.

(** C9.  [get_prepend_page_count] leaves the link manager of the builder as
    it was, offset and registered records alike, and every other allocated
    object too, whether it returns or raises: the count is the one that
    [generate] returns with a manager of its own, newly allocated and at
    offset 0. *)
Theorem get_prepend_page_count_frame
    (engine : @page_generator.LayoutEngine F) (h : Heap)
    (self : @DocumentBuilder F) :
  (document_builder.link_manager self < next_manager h)%nat ->
  let h' := snd (get_prepend_page_count engine h self) in
  let own := document_builder.link_manager self in
  prepended_page_count (managers h' own)
  = prepended_page_count (managers h own) /\
  _links (managers h' own) = _links (managers h own) /\
  (forall l, infos h' l = infos h l) /\
  next_info h' = next_info h /\
  exists generator,
    page_generator.link_manager generator = next_manager h /\
    page_generator.link_manager generator <> own /\
    managers h' (page_generator.link_manager generator)
    = mkLinkManager 0 [] /\
    fst (get_prepend_page_count engine h self)
    = exc_map (fun generated => snd (fst generated))
        (page_generator.generate engine h' generator).
Proof.
  intros Halloc. unfold get_prepend_page_count.
  cbn [new_LinkManager page_generator.new_PageGenerator].
  cbn [fst snd managers infos next_info].
  rewrite upd_other by lia. repeat split.
  match goal with
  | |- context [page_generator.generate engine _ ?generator] =>
      exists generator
  end.
  cbn [page_generator.link_manager].
  rewrite upd_same. repeat split; [lia |].
  destruct (page_generator.generate engine _ _)
    as [((pdf_bytes & count) & lps) | e]; reflexivity.
Qed.

End Builder.

(** ** The definitions on the inputs of the test suite *)

Section TestSuite.

Import samples.

(** [test_two_pass_scenario]: the records handed out by [register_link]
    are the ones that [set_prepended_page_count] updates. *)
Example two_pass_scenario :
  let '(m, h) := link_manager.new_LinkManager link_manager.empty_heap in
  let '(link1, h) := link_manager.register_link h m 3 in
  let '(link2, h) := link_manager.register_link h m 5 in
  let '(link3, h) := link_manager.register_link h m 7 in
  let h := link_manager.set_prepended_page_count h m 2 in
  List.map (fun l => link_manager.adjusted_page (link_manager.infos h l))
    [link1; link2; link3]
  = [Some 5; Some 7; Some 9] /\
  List.map (fun l => link_manager.destination_name (link_manager.infos h l))
    [link1; link2; link3]
  = [lit "page_5"; lit "page_7"; lit "page_9"] /\
  link_manager.link_count h m = 3 /\
  link_manager.get_destination_name h m 1 = lit "page_3".
Proof. vm_compute. repeat split. Qed.

Example generate_all_destinations_5 :
  link_manager.generate_all_destinations 5
  = [lit "page_1"; lit "page_2"; lit "page_3"; lit "page_4"; lit "page_5"].
Proof. reflexivity. Qed.

Example escape_xml_tag :
  text_formatter.escape_xml (lit "<tag> & more")
  = lit "&lt;tag&gt; &amp; more".
Proof. reflexivity. Qed.

Example format_multiple_bold_sections :
  text_formatter.format_text_default text_formatter.default_formatter
    (lit "**First** and **Second** bold")
  = lit "<b>First</b> and <b>Second</b> bold".
Proof. vm_compute. reflexivity. Qed.

Example format_with_xml_escaping :
  text_formatter.format_text_default text_formatter.default_formatter
    (lit "**Bold & Important** <x>")
  = lit "<b>Bold &amp; Important</b> &lt;x&gt;".
Proof. vm_compute. reflexivity. Qed.

Example format_no_bold :
  text_formatter.format_text text_formatter.default_formatter
    (lit "**Not bold**") true false true
  = lit "Not bold".
Proof. vm_compute. reflexivity. Qed.

Example format_unpaired_marker :
  text_formatter.format_text_default text_formatter.default_formatter
    (lit "a_b and **c")
  = lit "a_b and **c".
Proof. vm_compute. reflexivity. Qed.

Example format_special_regex_chars :
  text_formatter.format_text_default
    (text_formatter.mkTextFormatter (lit "[[") (lit "//"))
    (lit "[[bold[[ text")
  = lit "<b>bold</b> text".
Proof. vm_compute. reflexivity. Qed.

Example format_without_escaping :
  text_formatter.format_text text_formatter.default_formatter
    (lit "**a** & _b_") false true true
  = lit "<b>a</b> & <i>b</i>".
Proof. vm_compute. reflexivity. Qed.

(** Scenario A: one prepended page, a link to original page 3. *)
Example scenario_A :
  link_manager.get_adjusted_page sample_heap
    (document_builder.link_manager sample_builder) 3 = 4 /\
  link_manager.get_destination_name sample_heap
    (document_builder.link_manager sample_builder) 3 = lit "page_4" /\
  exc_map
    (fun generated =>
       List.map (fun lp => (page_generator.page_index lp, anchor_key lp))
         (snd generated))
    (page_generator.generate sample_engine sample_heap sample_generator)
  = Ok [(0, (lit "Page 3", 4))] /\
  fst (document_builder.get_prepend_page_count sample_engine sample_heap
         sample_builder) = Ok 1.
Proof. vm_compute. repeat split. Qed.

(** The plain text and the offsets of the sample bullet. *)
Example sample_bullet_plain_text :
  bullet_plain_text sample_heap sample_generator sample_bullet
  = page_generator.bullet_glyph :: lit " Link: see, Page 3" /\
  List.map
    (fun l => (page_generator.char_start l, page_generator.char_end l))
    (bullet_links sample_heap sample_generator sample_bullet)
  = [(13, 19)].
Proof. vm_compute. repeat split. Qed.

(** Crossing markers give markup that is not nested. *)
Example format_crossing_markers :
  text_formatter.format_text_default text_formatter.default_formatter
    (lit "**a _b** c_")
  = lit "<b>a <i>b</b> c</i>".
Proof. vm_compute. reflexivity. Qed.

(** With an engine that does not accept that markup the bullet is not
    built: [generate] raises [ValueError], and so does [build], before it
    sets an offset. *)
Example crossing_bullet_raises :
  page_generator._build_bullet_point strict_engine crossing_heap
    (builder_generator crossing_builder) crossing_bullet false
  = Raise ValueError /\
  page_generator.generate strict_engine crossing_heap
    (builder_generator crossing_builder)
  = Raise ValueError /\
  document_builder.build (Body := nat) strict_engine
    (fun _ => []) (fun _ => []) (fun _ _ _ => false)
    (fun _ => []) (fun _ => []) (fun _ _ => false)
    crossing_heap crossing_builder []
  = (Raise ValueError, crossing_heap).
Proof. repeat split. Qed.

(** With an engine for which the story does not fit [generate] raises
    [LayoutError] and returns no anchor. *)
Example narrow_frame_raises :
  page_generator.generate narrow_engine sample_heap sample_generator
  = Raise LayoutError /\
  fst (document_builder.get_prepend_page_count narrow_engine sample_heap
         sample_builder)
  = Raise LayoutError.
Proof. repeat split. Qed.

(** One prepended page before a document of two pages. *)
Example merge_destinations_1_2 :
  let w := pdf_merger.merge_with_destinations (F := Q) (fun _ _ _ => false)
             [pdf_merger.mkPdfPage 10%nat []]
             [pdf_merger.mkPdfPage 20%nat []; pdf_merger.mkPdfPage 21%nat []]
  in
  List.map pdf_merger.body (pdf_merger.pages w) = [10; 20; 21]%nat /\
  pdf_merger.named_destinations w
  = [(lit "page_1", 0); (lit "page_2", 1); (lit "page_3", 2)].
Proof. vm_compute. repeat split. Qed.

(** One prepended page before a document of nine pages: the name array
    has ["page_10"] before ["page_2"]. *)
Example names_array_of_ten_pages :
  let prepend := [pdf_merger.mkPdfPage 10%nat []] in
  let original := repeat (pdf_merger.mkPdfPage 20%nat []) 9 in
  let w := pdf_merger.merge_with_destinations (F := Q) (fun _ _ _ => false)
             prepend original in
  pdf_merger.names_array w
  = [(lit "page_1", 0); (lit "page_10", 9); (lit "page_2", 1);
     (lit "page_3", 2); (lit "page_4", 3); (lit "page_5", 4);
     (lit "page_6", 5); (lit "page_7", 6); (lit "page_8", 7);
     (lit "page_9", 8)].
Proof. vm_compute. reflexivity. Qed.

(** An anchor that points past the last page is dropped, the one after
    it is bound. *)
Example add_links_skips_invalid :
  let past := page_generator.mkLinkPosition 0 5 (lit "Page 3")
                (inject_Z 150) (inject_Z 700) (inject_Z 40) (inject_Z 14) in
  let doc := link_annotator.add_links (fun _ _ => false)
               [sample_page; sample_page; sample_page; sample_page]
               [past; sample_anchor] in
  List.map
    (fun pg => List.map link_annotator.page (link_annotator.page_links pg))
    doc
  = [[3]; []; []; []].
Proof. vm_compute. reflexivity. Qed.

End TestSuite.

(** ** The properties on the sample data *)

Section Samples.

Import samples.

(** The order of the rationals is a strict weak order on any values. *)
Lemma Q_flt_lt (a b : Q) : flt a b = true <-> (a < b)%Q.
Proof.
  cbn. rewrite Qlt_alt. destruct (a ?= b)%Q; split; congruence.
Qed.

Lemma Q_ordered_on (D : list Q) : ordered_on D.
Proof.
  repeat split.
  - intros a _. destruct (flt a a) eqn:E; [| reflexivity].
    apply Q_flt_lt in E. now apply Qlt_irrefl in E.
  - intros a b c _ _ _ Hab Hbc. apply Q_flt_lt in Hab, Hbc.
    apply Q_flt_lt. eapply Qlt_trans; eassumption.
  - intros a b c _ _ _ Hab. apply Q_flt_lt in Hab.
    destruct (Qlt_le_dec a c) as [Hac | Hca].
    + left. now apply Q_flt_lt.
    + right. apply Q_flt_lt. eapply Qle_lt_trans; eassumption.
Qed.

(** The sample anchor has three instances on the sample page; the first
    of the two nearest ones is taken. *)
Lemma link_rect_resolution_witness :
  exists i,
    nth_error sample_instances i
    = Some (link_annotator.link_rect sample_page sample_anchor) /\
    (forall j r', nth_error sample_instances j = Some r' ->
       flt (distance_of sample_page sample_anchor r')
           (distance_of sample_page sample_anchor
              (link_annotator.link_rect sample_page sample_anchor))
       = false) /\
    (forall j r', (j < i)%nat -> nth_error sample_instances j = Some r' ->
       flt (distance_of sample_page sample_anchor
              (link_annotator.link_rect sample_page sample_anchor))
           (distance_of sample_page sample_anchor r')
       = true).
Proof.
  apply (link_rect_resolution sample_page sample_anchor).
  - apply Q_ordered_on.
  - repeat constructor.
Defined.

Example link_rect_sample_first_of_equals :
  link_annotator.link_rect sample_page sample_anchor
  = link_annotator.mkRect (inject_Z 100) (inject_Z 80) (inject_Z 140)
      (inject_Z 90).
Proof. reflexivity. Qed.

(** The sample bullet is built, and drawing it records the anchor of
    its one link, to page 4. *)
Lemma content_element_anchor_positions_witness :
  exists fl lps',
    page_generator._build_content_element sample_engine sample_heap
      sample_generator (schema.BulletPoint sample_bullet) = Ok fl /\
    page_generator.draw_from sample_geometry 0
      (flat_map page_generator.drawn fl) [] = lps' /\
    exists anchors,
      lps' = [] ++ anchors /\
      List.length anchors = 1%nat /\
      List.map (fun lp => (page_generator.link_text lp,
                           page_generator.target_page lp)) anchors
      = [(lit "Page 3", 4)].
Proof.
  eexists. eexists. split; [reflexivity |]. split; [reflexivity |].
  exact (content_element_anchor_positions sample_engine sample_geometry 0
           sample_heap sample_generator (schema.BulletPoint sample_bullet)
           _ [] _ eq_refl eq_refl).
Defined.

(** The link of the sample bullet starts after ["• Link: see, "], at
    offset 13 of the plain text. *)
Lemma bullet_link_estimate_witness :
  (exists fl,
     page_generator._build_bullet_point sample_engine sample_heap
       sample_generator sample_bullet false = Ok fl) /\
  nth_error (schema.content sample_bullet) 1 = Some (schema.Link sample_link)
  /\ slice (bullet_plain_text sample_heap sample_generator sample_bullet)
       13 19
     = lit "Page 3".
Proof.
  split; [eexists; reflexivity |]. split; [reflexivity |].
  exact (proj1 (proj2
    (bullet_link_estimate sample_engine sample_geometry 0 sample_heap
       sample_generator sample_bullet false _ [] 1 sample_link eq_refl
       eq_refl))).
Defined.

(** The builder of the samples keeps its manager, resolved to one
    page, through [get_prepend_page_count]. *)
Lemma get_prepend_page_count_frame_witness :
  (document_builder.link_manager sample_builder
   < link_manager.next_manager sample_heap)%nat /\
  link_manager.prepended_page_count
    (link_manager.managers
       (snd (document_builder.get_prepend_page_count sample_engine
               sample_heap sample_builder))
       (document_builder.link_manager sample_builder))
  = link_manager.prepended_page_count
      (link_manager.managers sample_heap
         (document_builder.link_manager sample_builder)).
Proof.
  assert (H : (document_builder.link_manager sample_builder
               < link_manager.next_manager sample_heap)%nat)
    by (vm_compute; lia).
  split; [exact H |].
  exact (proj1
    (get_prepend_page_count_frame sample_engine sample_heap sample_builder H)).
Defined.

End Samples.

(* ===================================================================== *)
(** * Further properties of the code *)
(* ===================================================================== *)

(** ** The link table beyond resolution *)

Section LinkTableMore.

Import link_manager.

(** X1.  [register_link(p)] adds one unresolved record for [p] and returns
    it; the offset and every other record stay as they were, and a later
    [set_prepended_page_count(c)] resolves the returned record to [p + c]. *)
Theorem register_link_then_resolve (h : Heap) (self : loc) (p c : Z) :
  let link := fst (register_link h self p) in
  let h1 := snd (register_link h self p) in
  let h2 := set_prepended_page_count h1 self c in
  infos h1 link = mkLinkInfo p None /\
  _links (managers h1 self) = _links (managers h self) ++ [link] /\
  link_count h1 self = link_count h self + 1 /\
  prepended_page_count (managers h1 self)
  = prepended_page_count (managers h self) /\
  (forall l, l <> link -> infos h1 l = infos h l) /\
  infos h2 link = mkLinkInfo p (Some (p + c)).
Proof.
  cbv zeta. unfold register_link, link_count.
  cbn [fst snd set_manager infos managers _links prepended_page_count].
  repeat rewrite upd_same. cbn [_links prepended_page_count].
  repeat split.
  - rewrite length_app. cbn [List.length]. lia.
  - intros l Hne. now apply upd_other.
  - match goal with
    | |- infos (set_prepended_page_count ?h1 _ _) _ = _ =>
        destruct (set_prepended_page_count_spec h1 self c)
          as (_ & _ & _ & Hl)
    end.
    cbv zeta in Hl. rewrite Hl. cbn [set_manager managers infos].
    repeat rewrite upd_same. cbn [_links].
    rewrite registered_In by (apply in_or_app; right; now left).
    reflexivity.
Qed.

(** X2.  A record registered after the offset has been set stays unresolved:
    its [destination_name] is ["page_p"], while [get_destination_name(p)]
    is ["page_(p+c)"]; the two names differ whenever [c] is not 0. *)
Theorem register_after_offset_is_unresolved
    (h : Heap) (self : loc) (p c : Z) :
  c <> 0 ->
  let h1 := set_prepended_page_count h self c in
  let link := fst (register_link h1 self p) in
  let h2 := snd (register_link h1 self p) in
  adjusted_page (infos h2 link) = None /\
  destination_name (infos h2 link) = lit "page_" ++ str_of_int p /\
  get_destination_name h2 self p = lit "page_" ++ str_of_int (p + c) /\
  destination_name (infos h2 link) <> get_destination_name h2 self p.
Proof.
  intros Hc. cbv zeta.
  destruct (set_prepended_page_count_spec h self c) as (Hm & _).
  cbv zeta in Hm.
  assert (Hname : get_destination_name
                    (snd (register_link (set_prepended_page_count h self c)
                            self p)) self p
                  = lit "page_" ++ str_of_int (p + c)).
  { unfold get_destination_name, get_adjusted_page, register_link.
    cbn [snd set_manager managers]. rewrite upd_same.
    cbn [prepended_page_count]. rewrite Hm, upd_same. reflexivity. }
  assert (Hinfo : infos (snd (register_link
                                (set_prepended_page_count h self c) self p))
                    (fst (register_link
                            (set_prepended_page_count h self c) self p))
                  = mkLinkInfo p None).
  { unfold register_link. cbn [fst snd set_manager infos].
    now rewrite upd_same. }
  rewrite Hname, Hinfo. repeat split.
  unfold destination_name. cbn [adjusted_page original_page].
  intros H. apply app_inv_head in H. apply str_of_int_inj in H. lia.
Qed.

(** X3.  [clear()] empties the list of the manager and keeps its offset; the
    records themselves are not touched, neither by [clear] nor by a later
    [set_prepended_page_count]: a cleared record keeps the adjusted page it
    had. *)
Theorem clear_forgets_records (h : Heap) (self : loc) (c : Z) :
  let h1 := clear h self in
  link_count h1 self = 0 /\
  prepended_page_count (managers h1 self)
  = prepended_page_count (managers h self) /\
  (forall l, infos h1 l = infos h l) /\
  (forall l, infos (set_prepended_page_count h1 self c) l = infos h l) /\
  get_adjusted_page (set_prepended_page_count h1 self c) self 0 = c.
Proof.
  cbv zeta.
  destruct (set_prepended_page_count_spec (clear h self) self c)
    as (Hm & _ & _ & Hl).
  cbv zeta in Hm, Hl. unfold link_count, get_adjusted_page.
  rewrite Hm, upd_same.
  unfold clear in *. cbn [set_manager managers infos] in *.
  repeat rewrite upd_same in *. cbn [_links prepended_page_count] in *.
  repeat split. intros l. now rewrite Hl.
Qed.

(** X4.  Once the offset is set, the two ways to name a destination agree on
    every registered record: [destination_name] of the record is
    [get_destination_name] of its original page. *)
Theorem destination_names_agree (h : Heap) (self : loc) (c : Z) :
  let h' := set_prepended_page_count h self c in
  Forall
    (fun link =>
       destination_name (infos h' link)
       = get_destination_name h' self (original_page (infos h' link)))
    (_links (managers h' self)).
Proof.
  destruct (set_prepended_page_count_spec h self c) as (Hm & _ & _ & Hl).
  cbv zeta in *. rewrite Hm, upd_same. cbn [_links].
  apply Forall_forall. intros link Hin.
  unfold get_destination_name, get_adjusted_page, destination_name.
  rewrite Hm, upd_same, Hl, (registered_In _ _ Hin). reflexivity.
Qed.

(** X5.  [get_destination_name] gives different names to different pages. *)
Theorem get_destination_name_injective (h : Heap) (self : loc) (p q : Z) :
  get_destination_name h self p = get_destination_name h self q <-> p = q.
Proof.
  split; [| now intros ->].
  unfold get_destination_name, get_adjusted_page. intros H.
  apply app_inv_head in H. apply str_of_int_inj in H. lia.
Qed.

(** X6.  [generate_all_destinations(total)] lists [total] names without
    repetition, ["page_(i+1)"] at index [i]; it is empty when [total] is
    0 or negative. *)
Theorem generate_all_destinations_spec (total_pages : Z) :
  let names := generate_all_destinations total_pages in
  List.length names = Z.to_nat total_pages /\
  NoDup names /\
  (forall i, (i < Z.to_nat total_pages)%nat ->
     nth_error names i = Some (lit "page_" ++ str_of_int (Z.of_nat i + 1))) /\
  (total_pages <= 0 -> names = []).
Proof.
  cbv zeta. unfold generate_all_destinations. repeat split.
  - now rewrite length_map, length_seq.
  - apply NoDup_map_inj; [| apply seq_NoDup].
    intros a b H. apply app_inv_head in H. apply str_of_int_inj in H. lia.
  - intros i Hi. rewrite nth_error_map, nth_error_seq.
    destruct (Nat.ltb_spec i (Z.to_nat total_pages)); [| lia].
    cbn [option_map]. do 3 f_equal. lia.
  - intros Hle. replace (Z.to_nat total_pages) with O by lia. reflexivity.
Qed.

End LinkTableMore.

(** ** The marker formatter beyond the scenario *)

Section MarkerFormatterMore.

Import text_formatter.

Lemma replace_all_char (c : char) (new s : str) :
  replace_all [c] new s
  = flat_map (fun x => if N.eqb x c then new else [x]) s.
Proof.
  unfold replace_all.
  induction s as [|x s IH]; cbn [replace_all_from flat_map]; [reflexivity |].
  cbn [startswith List.length Nat.sub].
  rewrite andb_true_r, (N.eqb_sym c x).
  destruct (N.eqb x c); cbn [app]; now rewrite IH.
Qed.

Lemma flat_map_flat_map {A B C} (f : A -> list B) (g : B -> list C) l :
  flat_map g (flat_map f l) = flat_map (fun x => flat_map g (f x)) l.
Proof.
  induction l as [|a l IH]; cbn [flat_map]; [reflexivity |].
  now rewrite flat_map_app, IH.
Qed.

(** [escape_xml] rewrites the text character by character. *)
Lemma escape_xml_chars (s : str) : escape_xml s = flat_map escape_char s.
Proof.
  unfold escape_xml.
  change (lit "&") with [38%N]. change (lit "<") with [60%N].
  change (lit ">") with [62%N].
  rewrite !replace_all_char, !flat_map_flat_map.
  apply flat_map_ext. intros x. unfold escape_char.
  destruct (N.eqb_spec x 38) as [-> | H38]; [reflexivity |].
  cbn [flat_map app].
  destruct (N.eqb_spec x 60) as [-> | H60]; [reflexivity |].
  cbn [flat_map app].
  destruct (N.eqb_spec x 62) as [-> | H62]; [reflexivity |].
  reflexivity.
Qed.

Lemma escape_char_cases (c : char) :
  escape_char c = lit "&amp;" \/ escape_char c = lit "&lt;" \/
  escape_char c = lit "&gt;" \/
  (escape_char c = [c] /\ c <> 38%N /\ c <> 60%N /\ c <> 62%N).
Proof.
  unfold escape_char.
  destruct (N.eqb_spec c 38); [now left |].
  destruct (N.eqb_spec c 60); [now right; left |].
  destruct (N.eqb_spec c 62); [now right; right; left |].
  now right; right; right.
Qed.

(** A character of an escaped text is one of the text or one of
    ["&amp;"], ["&lt;"], ["&gt;"]; it is never ["<"] or [">"]. *)
Lemma escape_xml_in (s : str) (x : char) :
  In x (escape_xml s) ->
  x <> 60%N /\ x <> 62%N /\ (In x s \/ In x (lit "&amp;lgt")).
Proof.
  rewrite escape_xml_chars. intros H.
  apply in_flat_map in H as (c & Hc & Hx).
  destruct (escape_char_cases c) as [E | [E | [E | (E & H1 & H2 & H3)]]];
    rewrite E in Hx.
  - cbn in Hx. repeat split; try (intros ->; intuition discriminate).
    right. cbn. intuition.
  - cbn in Hx. repeat split; try (intros ->; intuition discriminate).
    right. cbn. intuition.
  - cbn in Hx. repeat split; try (intros ->; intuition discriminate).
    right. cbn. intuition.
  - destruct Hx as [<- | []]. repeat split; auto.
Qed.

(** X7.  An escaped text holds no ["<"] and no [">"], so that the only
    tags of a formatted text are those the formatter writes itself. *)
Theorem escape_xml_no_angle_brackets (text : str) :
  ~ In 60%N (escape_xml text) /\ ~ In 62%N (escape_xml text).
Proof.
  split; intros H; apply escape_xml_in in H; intuition congruence.
Qed.

Lemma escape_xml_unreserved (a : str) :
  forallb (fun c => negb (reserved c)) a = true -> escape_xml a = a.
Proof.
  rewrite escape_xml_chars.
  induction a as [|c a IH]; cbn [flat_map forallb]; [reflexivity |].
  intros H. apply andb_prop in H as (Hc & Ha). rewrite (IH Ha).
  unfold reserved in Hc. unfold escape_char.
  destruct (N.eqb c 38); [discriminate |].
  destruct (N.eqb c 60); [discriminate |].
  destruct (N.eqb c 62); [discriminate |]. reflexivity.
Qed.

(** X8.  Escaping works piece by piece: the escape of a concatenation is the
    concatenation of the escapes.  It never shortens a text, and it leaves
    a text without ["&"], ["<"] and [">"] as it is. *)
Theorem escape_xml_piecewise (a b : str) :
  escape_xml (a ++ b) = escape_xml a ++ escape_xml b /\
  (List.length a <= List.length (escape_xml a))%nat /\
  (forallb (fun c => negb (reserved c)) a = true -> escape_xml a = a).
Proof.
  rewrite !escape_xml_chars. repeat split.
  - apply flat_map_app.
  - induction a as [|c a IH]; cbn [flat_map List.length]; [lia |].
    rewrite length_app.
    assert (1 <= List.length (escape_char c))%nat; [| lia].
    destruct (escape_char_cases c) as [E | [E | [E | (E & _)]]];
      rewrite E; cbn; lia.
  - rewrite <- escape_xml_chars. apply escape_xml_unreserved.
Qed.

Lemma nul_free_cons (c : char) (s : str) :
  nul_free (c :: s) -> c <> 0%N /\ nul_free s.
Proof. unfold nul_free. cbn. intuition. Qed.

Lemma escape_xml_nul_free (s : str) : nul_free s -> nul_free (escape_xml s).
Proof.
  unfold nul_free. intros Hs H. apply escape_xml_in in H as (_ & _ & [H | H]).
  - contradiction.
  - cbn in H. intuition discriminate.
Qed.

(** A text without U+0000 holds no occurrence of a string that begins
    with U+0000. *)
Lemma nul_free_startswith (ph s : str) :
  nul_free s -> startswith (0%N :: ph) s = false.
Proof.
  destruct s as [|x s]; [reflexivity |]. intros H.
  apply nul_free_cons in H as (Hx & _). cbn [startswith].
  destruct (N.eqb_spec 0 x); [congruence | reflexivity].
Qed.

Lemma nul_free_contains (ph s : str) :
  nul_free s -> contains (0%N :: ph) s = false.
Proof.
  induction s as [|x s IH]; intros H.
  - reflexivity.
  - cbn [contains]. rewrite (nul_free_startswith ph _ H).
    apply nul_free_cons in H as (_ & H). now apply IH.
Qed.

Lemma absent_replace_first (old new s : str) :
  contains old s = false -> replace_first old new s = s.
Proof.
  induction s as [|x s IH]; cbn [contains replace_first]; intros H;
    apply orb_false_elim in H as (H1 & H2); rewrite H1.
  - reflexivity.
  - now rewrite IH.
Qed.

Lemma nul_free_replace_all (ph new s : str) :
  nul_free s -> replace_all (0%N :: ph) new s = s.
Proof.
  unfold replace_all.
  induction s as [|x s IH]; intros H; [reflexivity |].
  cbn [replace_all_from]. rewrite (nul_free_startswith ph _ H).
  apply nul_free_cons in H as (_ & H). now rewrite IH.
Qed.

Lemma close_open_loop_absent ph open close short s :
  contains ph s = false -> close_open_loop ph open close short s = s.
Proof.
  funelim (close_open_loop ph open close short s); intros Hs;
    try reflexivity; congruence.
Qed.

(** The loop ends only when no placeholder is left. *)
Lemma close_open_loop_exhausts ph open close short s :
  contains ph (close_open_loop ph open close short s) = false.
Proof.
  funelim (close_open_loop ph open close short s); assumption.
Qed.

Lemma nul_free_split (s : str) : forall cur,
  nul_free s -> split_from O cur s = [rev cur ++ s].
Proof.
  induction s as [|x s IH]; intros cur H; cbn [split_from].
  - now rewrite app_nil_r.
  - unfold bold_placeholder, italic_placeholder. cbn [app].
    rewrite !(nul_free_startswith _ _ H).
    apply nul_free_cons in H as (_ & H).
    rewrite (IH _ H). cbn [rev]. now rewrite <- app_assoc.
Qed.

Lemma nul_free_not_placeholder (ph s : str) :
  nul_free s -> str_eqb s (0%N :: ph) = false.
Proof.
  destruct s as [|x s]; [reflexivity |]. intros H.
  apply nul_free_cons in H as (Hx & _). cbn [str_eqb].
  destruct (N.eqb_spec x 0); [congruence | reflexivity].
Qed.

(** Without marker matches and without U+0000, the escaping stage of
    [format_text] escapes the text as a whole. *)
Lemma unmarked_parts (self : TextFormatter) (text : str) :
  nul_free text ->
  finditer (bold_marker self) text = [] ->
  finditer (italic_marker self) text = [] ->
  join
    (escape_parts false false
       (split_placeholders
          (mark_sections (italic_marker self) italic_placeholder
             (mark_sections (bold_marker self) bold_placeholder text))))
  = escape_xml text.
Proof.
  intros Hnul Hb Hi. unfold mark_sections.
  rewrite Hb. cbn [rev fold_left]. rewrite Hi. cbn [rev fold_left].
  unfold split_placeholders. rewrite (nul_free_split _ [] Hnul).
  cbn [rev app escape_parts].
  assert (Hnb : str_eqb text bold_placeholder = false)
    by exact (nul_free_not_placeholder _ _ Hnul).
  assert (Hni : str_eqb text italic_placeholder = false)
    by exact (nul_free_not_placeholder _ _ Hnul).
  rewrite Hnb, Hni. cbn [orb].
  unfold join. cbn [List.concat]. apply app_nil_r.
Qed.

(** On a text without U+0000 the conversion of placeholders, to tags or
    to nothing, has nothing to convert. *)
Lemma placeholders_absent (s : str) :
  nul_free s ->
  placeholders_to_tags bold_placeholder (lit "<b>") (lit "</b>")
    bold_tags_short s = s /\
  placeholders_to_tags italic_placeholder (lit "<i>") (lit "</i>")
    italic_tags_short s = s /\
  replace_all bold_placeholder [] s = s /\
  replace_all italic_placeholder [] s = s.
Proof.
  intros He.
  assert (Hcb : contains bold_placeholder s = false)
    by exact (nul_free_contains _ _ He).
  assert (Hci : contains italic_placeholder s = false)
    by exact (nul_free_contains _ _ He).
  unfold placeholders_to_tags.
  rewrite (absent_replace_first _ _ _ Hcb), (absent_replace_first _ _ _ Hci).
  repeat split.
  - now apply close_open_loop_absent.
  - now apply close_open_loop_absent.
  - exact (nul_free_replace_all _ _ _ He).
  - exact (nul_free_replace_all _ _ _ He).
Qed.

(** X9.  A text in which neither marker pattern finds a match (and which
    holds no U+0000, the delimiter of the placeholders) is formatted to its
    escape, whatever the markers are and whether or not bold and italic are
    applied. *)
Theorem format_text_without_markers
    (self : TextFormatter) (text : str) (apply_bold apply_italic : bool) :
  nul_free text ->
  finditer (bold_marker self) text = [] ->
  finditer (italic_marker self) text = [] ->
  format_text self text true apply_bold apply_italic = escape_xml text.
Proof.
  intros Hnul Hb Hi. unfold format_text.
  rewrite (unmarked_parts self text Hnul Hb Hi).
  destruct (placeholders_absent _ (escape_xml_nul_free _ Hnul))
    as (Htb & Hti & Hrb & Hri).
  destruct apply_bold, apply_italic; rewrite ?Htb, ?Hrb, ?Hti, ?Hri;
    reflexivity.
Qed.

(** X10.  With escaping and italic conversion on, the formatted text holds
    no italic placeholder: the conversion loop runs until none is left. *)
Theorem format_text_leaves_no_italic_placeholder
    (self : TextFormatter) (text : str) (apply_bold : bool) :
  contains italic_placeholder (format_text self text true apply_bold true)
  = false.
Proof.
  unfold format_text, placeholders_to_tags. apply close_open_loop_exhausts.
Qed.

End MarkerFormatterMore.

(** ** The page composer beyond single links *)

Section PlainLabel.

Import schema page_generator.

Context {F : Type} {Fl : Float F}.

Lemma strip_tags_from_skipn (s : str) : forall k,
  strip_tags_from k s = strip_tags_from O (skipn k s).
Proof.
  induction s as [|c s IH]; intros [|k]; cbn [skipn]; try reflexivity.
  cbn [strip_tags_from]. apply IH.
Qed.

Lemma strip_tags_from_length (s : str) : forall k,
  (List.length (strip_tags_from k s) <= List.length s)%nat.
Proof.
  induction s as [|c s IH]; intros k; cbn [strip_tags_from List.length];
    [lia |].
  destruct k as [|k]; [| specialize (IH k); lia].
  destruct (N.eqb c 60).
  - destruct (find_gt s) as [[|m]|];
      cbn [List.length];
      [specialize (IH O) | specialize (IH (S (S m))) | specialize (IH O)];
      lia.
  - cbn [List.length]. specialize (IH O). lia.
Qed.

Lemma find_gt_none_strip (s : str) : forall k,
  find_gt s = None -> find_gt (strip_tags_from k s) = None.
Proof.
  induction s as [|c s IH]; intros k H; [reflexivity |].
  cbn [find_gt] in H.
  destruct (N.eqb c 62) eqn:E; [discriminate |].
  destruct (find_gt s) eqn:G; [discriminate |].
  cbn [strip_tags_from]. destruct k as [|k]; [| now apply IH].
  rewrite G.
  destruct (N.eqb c 60); cbn [find_gt]; rewrite E, (IH O eq_refl);
    reflexivity.
Qed.

Lemma find_gt_zero (s : str) :
  find_gt s = Some O -> exists s', s = 62%N :: s'.
Proof.
  destruct s as [|c s]; [discriminate |]. cbn [find_gt].
  destruct (N.eqb_spec c 62) as [-> | _].
  - intros _. now exists s.
  - destruct (find_gt s); discriminate.
Qed.

Lemma strip_tags_tag_free_bounded (n : nat) : forall s,
  (List.length s <= n)%nat -> tag_free (strip_tags_from O s).
Proof.
  induction n as [|n IH]; intros [|c s] Hlen; cbn [List.length] in Hlen;
    try (cbn; exact I); try lia.
  cbn [strip_tags_from].
  assert (Hs : tag_free (strip_tags_from O s)) by (apply IH; lia).
  destruct (N.eqb_spec c 60) as [-> | Hc].
  - destruct (find_gt s) as [[|m]|] eqn:G.
    + cbn [tag_free]. split; [| exact Hs]. intros _. left.
      apply find_gt_zero in G as (s' & ->). reflexivity.
    + rewrite strip_tags_from_skipn. apply IH.
      rewrite length_skipn. lia.
    + cbn [tag_free]. split; [| exact Hs]. intros _. right.
      now apply find_gt_none_strip.
  - cbn [tag_free]. split; [| exact Hs]. intros E. contradiction.
Qed.

Lemma tag_free_strip (s : str) : tag_free s -> strip_tags_from O s = s.
Proof.
  induction s as [|c s IH]; [reflexivity |].
  cbn [tag_free strip_tags_from]. intros (Hc & Hs). rewrite (IH Hs).
  destruct (N.eqb_spec c 60) as [-> | _]; [| reflexivity].
  destruct (Hc eq_refl) as [-> | ->]; reflexivity.
Qed.

Lemma no_lt_tag_free (s : str) : ~ In 60%N s -> tag_free s.
Proof.
  induction s as [|c s IH]; cbn [tag_free In]; [easy |].
  intros H. split; [| apply IH; tauto].
  intros ->. exfalso. apply H. now left.
Qed.

(** X11.  The plain text of a label holds no tag any more: every ["<"] left
    in it is followed at once by [">"] or by no [">"] at all, so that
    stripping it again changes nothing.  Stripping only removes
    characters, and a text without ["<"] is left as it is. *)
Theorem strip_xml_tags_leaves_no_tag (self : @PageGenerator F) (text : str) :
  let formatted :=
    text_formatter.format_text_default (text_formatter self) text in
  tag_free (_strip_xml_tags self text) /\
  strip_tags_from O (_strip_xml_tags self text) = _strip_xml_tags self text /\
  (List.length (_strip_xml_tags self text) <= List.length formatted)%nat /\
  (~ In 60%N formatted -> _strip_xml_tags self text = formatted).
Proof.
  cbv zeta. unfold _strip_xml_tags.
  assert (Hfree : forall s, tag_free (strip_tags_from O s))
    by (intros s; now apply (strip_tags_tag_free_bounded (List.length s))).
  repeat split.
  - apply Hfree.
  - apply tag_free_strip, Hfree.
  - apply strip_tags_from_length.
  - intros H. now apply tag_free_strip, no_lt_tag_free.
Qed.

(** X12.  For a label without markers and without ["&"], ["<"] and [">"]
    the plain label is the label itself, so that the character offsets of
    the links count the label as it is displayed. *)
Theorem plain_label_of_plain_text (self : @PageGenerator F) (text : str) :
  nul_free text ->
  forallb (fun c => negb (reserved c)) text = true ->
  text_formatter.finditer
    (text_formatter.bold_marker (text_formatter self)) text = [] ->
  text_formatter.finditer
    (text_formatter.italic_marker (text_formatter self)) text = [] ->
  text_formatter.format_text_default (text_formatter self) text = text /\
  _strip_xml_tags self text = text.
Proof.
  intros Hnul Hres Hb Hi.
  assert (Hfmt : text_formatter.format_text_default (text_formatter self) text
                 = text).
  { unfold text_formatter.format_text_default, text_formatter.format_text.
    rewrite (unmarked_parts _ _ Hnul Hb Hi).
    destruct (placeholders_absent _ (escape_xml_nul_free _ Hnul))
      as (Htb & Hti & _).
    rewrite Htb, Hti. now apply escape_xml_unreserved. }
  split; [exact Hfmt |].
  unfold _strip_xml_tags. rewrite Hfmt.
  apply tag_free_strip, no_lt_tag_free. intros Hin.
  rewrite forallb_forall in Hres. specialize (Hres _ Hin). discriminate.
Qed.

End PlainLabel.

Section ComposerMore.

Import schema page_generator.

Context {F : Type} {Fl : Float F}.

(** X13.  All anchors of one bullet that was built carry the geometry of
    the one paragraph drawn for it: the same page index, the same [y] and
    the same height, on whichever line of the paragraph a link is
    displayed. *)
Theorem bullet_anchors_share_paragraph_geometry
    (engine : @LayoutEngine F) (g : nat -> @Placement F) (n : nat)
    (h : link_manager.Heap) (self : @PageGenerator F) (e : Bullet)
    (indented : bool) (fl : list Flowable) (lps : list (@LinkPosition F)) :
  _build_bullet_point engine h self e indented = Ok fl ->
  exists anchors,
    draw_from g n (flat_map drawn fl) lps = lps ++ anchors /\
    Forall
      (fun lp =>
         page_index lp = page_number (g n) - 1 /\
         y lp = abs_y (g n) /\
         height lp = wrap_height (g n))
      anchors.
Proof.
  intros Hbuilt. eexists.
  split; [now apply draw_bullet_point with (1 := Hbuilt) |].
  apply Forall_forall. intros lp Hin.
  apply in_map_iff in Hin as (l & <- & _). repeat split.
Qed.

Lemma StronglySorted_snoc {A} (R : A -> A -> Prop) (l : list A) (x : A) :
  StronglySorted R l -> Forall (fun a => R a x) l ->
  StronglySorted R (l ++ [x]).
Proof.
  induction 1 as [|a l Hs IH Ha]; intros Hx; cbn [app].
  - constructor; constructor.
  - apply Forall_cons_iff in Hx as (Hax & Hlx). constructor.
    + now apply IH.
    + apply Forall_app. split; [exact Ha | now constructor].
Qed.

Lemma len_nonneg (s : str) : 0 <= len s.
Proof. unfold len. lia. Qed.

Lemma sep_len_nonneg (i : nat) : 0 <= sep_len i.
Proof. unfold sep_len. destruct (0 <? Z.of_nat i); lia. Qed.

(** The ranges that the loop of [_build_content_items] records are in
    order, a separator apart, and end before the current position. *)
Lemma content_items_loop_ranges (h : link_manager.Heap)
    (self : @PageGenerator F) (lo : Z) (items : list ContentItem) :
  forall i st,
  lo <= current_pos st ->
  Forall (in_range lo (current_pos st)) (links st) ->
  StronglySorted apart (links st) ->
  Forall (fun l => char_end l + 2 <= current_pos st + sep_len i) (links st) ->
  let r := content_items_loop h self i items st in
  Forall (in_range lo (current_pos r)) (links r) /\
  StronglySorted apart (links r).
Proof.
  induction items as [|item items IH]; intros i st Hlo Hin Hsort Hgap;
    cbn [content_items_loop].
  - split; assumption.
  - destruct (content_item_step_spec h self i st item) as (_ & Sc & Sl).
    cbv zeta in Sc, Sl.
    pose proof (len_nonneg (item_text item)) as Hlen.
    pose proof (sep_len_nonneg i) as Hsep.
    apply IH.
    + lia.
    + rewrite Sl, Sc. apply Forall_app. split.
      * eapply Forall_impl; [| exact Hin].
        intros l (H1 & H2 & H3). repeat split; try assumption. lia.
      * destruct item as [s | it]; cbn [step_links]; constructor;
          [| constructor].
        unfold in_range. cbn [char_start char_end li_text item_text] in *.
        lia.
    + rewrite Sl. destruct item as [s | it]; cbn [step_links].
      * now rewrite app_nil_r.
      * apply StronglySorted_snoc; [exact Hsort |].
        eapply Forall_impl; [| exact Hgap].
        intros l Hl. cbv beta in Hl. unfold apart. cbn [char_start]. lia.
    + rewrite Sl, Sc, sep_len_S. apply Forall_app. split.
      * eapply Forall_impl; [| exact Hgap]. intros l Hl. cbv beta in *. lia.
      * destruct item as [s | it]; cbn [step_links]; constructor;
          [| constructor].
        cbn [char_end item_text]. lia.
Qed.

(** X14.  The character ranges of the links of a bullet lie inside its plain
    text, after the prefix; each is as long as the text of its link; and
    they come in order, the next one starting at least two characters (a
    separator) after the end of the one before, so that no two overlap. *)
Theorem bullet_link_ranges_ordered
    (h : link_manager.Heap) (self : @PageGenerator F) (e : Bullet) :
  Forall
    (in_range (len (bullet_prefix self e)) (len (bullet_plain_text h self e)))
    (bullet_links h self e) /\
  StronglySorted apart (bullet_links h self e).
Proof.
  pose proof (content_items_loop_ranges h self 0 (content e) O
                (mkItems [] [] [] 0)) as Hr.
  pose proof (content_items_loop_len h self (content e) O
                (mkItems [] [] [] 0) eq_refl) as (Hcur & _).
  cbv zeta in Hr, Hcur. cbn [links current_pos] in Hr.
  destruct (Hr (Z.le_refl 0) (Forall_nil _) (SSorted_nil _) (Forall_nil _))
    as (Hin & Hsort).
  clear Hr.
  unfold bullet_links, bullet_plain_text, _build_content_items.
  cbn [fst snd]. rewrite len_app, <- Hcur.
  set (r := content_items_loop h self 0 (content e) (mkItems [] [] [] 0))
    in *.
  clearbody r. clear Hcur. split.
  - apply Forall_map. eapply Forall_impl; [| exact Hin].
    intros l (H1 & H2 & H3). unfold in_range.
    cbn [char_start char_end li_text]. lia.
  - induction Hsort as [|a l Hs IH Ha]; cbn [List.map]; constructor.
    + apply IH. now apply Forall_cons_iff in Hin.
    + apply Forall_map. eapply Forall_impl; [| exact Ha].
      intros b Hb. unfold apart in *. cbn [char_start char_end]. lia.
Qed.

(** Two generators over the same specification and with the same
    formatter, each with a link manager and a heap of its own. *)
Section TwoOffsets.

Variable engine : @LayoutEngine F.
Variables h1 h2 : link_manager.Heap.
Variable sp : PrependSpecification F.
Variables m1 m2 : link_manager.loc.
Variable fmt : text_formatter.TextFormatter.

Let g1 : @PageGenerator F := mkPageGenerator sp m1 fmt.
Let g2 : @PageGenerator F := mkPageGenerator sp m2 fmt.

(** States of the loop that differ in the targets of the links only. *)
Let alike (st1 st2 : Items) : Prop :=
  formatted_parts st1 = formatted_parts st2 /\
  plain_parts st1 = plain_parts st2 /\
  current_pos st1 = current_pos st2 /\
  List.map untargeted_link (links st1) = List.map untargeted_link (links st2).

(** Results that are the same exception, or flowables that differ in the
    targets of the links only. *)
Let same (r1 r2 : Exc (list Flowable)) : Prop :=
  exc_map (List.map untargeted) r1 = exc_map (List.map untargeted) r2.

Lemma content_items_loop_alike (items : list ContentItem) :
  forall i st1 st2,
  alike st1 st2 ->
  alike (content_items_loop h1 g1 i items st1)
        (content_items_loop h2 g2 i items st2).
Proof.
  induction items as [|item items IH]; intros i st1 st2 Hst;
    cbn [content_items_loop]; [exact Hst |].
  apply IH. destruct Hst as (Hf & Hp & Hc & Hl).
  unfold alike, content_item_step.
  destruct (0 <? Z.of_nat i); destruct item as [s | it];
    cbn [formatted_parts plain_parts current_pos links text_formatter];
    rewrite ?map_app, Hf, Hp, Hc, Hl; repeat split.
Qed.

Lemma shift_links_alike (k : Z) (ls1 : list LinkInfo) :
  forall ls2,
  List.map untargeted_link ls1 = List.map untargeted_link ls2 ->
  List.map untargeted_link
    (List.map (fun link => mkLinkInfo (li_text link) (li_target_page link)
                             (char_start link + k) (char_end link + k))
       ls1)
  = List.map untargeted_link
      (List.map (fun link => mkLinkInfo (li_text link) (li_target_page link)
                               (char_start link + k) (char_end link + k))
         ls2).
Proof.
  induction ls1 as [|a ls1 IH]; intros [|b ls2] Hl; cbn [List.map] in *;
    try discriminate; [reflexivity |].
  injection Hl as Ht Hs He Hrest. rewrite (IH _ Hrest). f_equal.
  unfold untargeted_link. cbn [li_text char_start char_end].
  now rewrite Ht, Hs, He.
Qed.

Lemma build_bullet_point_alike (e : Bullet) (indented : bool) :
  same (_build_bullet_point engine h1 g1 e indented)
       (_build_bullet_point engine h2 g2 e indented).
Proof.
  pose proof (content_items_loop_alike (content e) O (mkItems [] [] [] 0)
                (mkItems [] [] [] 0)) as Hr.
  destruct Hr as (Hf & Hp & _ & Hl); [repeat split |].
  unfold same, _build_bullet_point, _build_content_items.
  change (_strip_xml_tags g1 (label e)) with (_strip_xml_tags g2 (label e)).
  change (text_formatter g1) with (text_formatter g2).
  change (_get_style g1) with (_get_style g2).
  rewrite Hf, Hp.
  match goal with
  | |- context [len ?prefix] =>
      pose proof (shift_links_alike (len prefix) _ _ Hl) as Hshift
  end.
  match type of Hshift with
  | List.map _ ?a1 = List.map _ ?a2 =>
      set (al1 := a1) in *; set (al2 := a2) in *
  end.
  clearbody al1 al2.
  unfold new_LinkTrackingParagraph, new_Paragraph.
  destruct al1 as [|a al1], al2 as [|b al2]; try discriminate Hshift;
    destruct (paragraph_raises engine _ _); cbn [bind exc_map];
    try reflexivity;
    destruct (overflow_behavior e); cbn [bind exc_map];
    try destruct (paragraph_raises engine _ _); cbn [bind exc_map];
    cbn [List.map untargeted] in *; rewrite ?Hshift; reflexivity.
Qed.

Lemma build_content_element_alike (element : ContentElement) :
  same (_build_content_element engine h1 g1 element)
       (_build_content_element engine h2 g2 element).
Proof.
  destruct element; cbn [_build_content_element];
    try apply build_bullet_point_alike; reflexivity.
Qed.

Lemma extend_loop_alike {A} (build1 build2 : A -> Exc (list Flowable)) :
  (forall item, same (build1 item) (build2 item)) ->
  forall items fl1 fl2,
  List.map untargeted fl1 = List.map untargeted fl2 ->
  same (extend_loop build1 items fl1) (extend_loop build2 items fl2).
Proof.
  intros Hbuild. unfold same in *.
  induction items as [|item items IH]; intros fl1 fl2 Hfl;
    cbn [extend_loop].
  - cbn [exc_map]. now rewrite Hfl.
  - specialize (Hbuild item).
    destruct (build1 item) as [b1 | e1], (build2 item) as [b2 | e2];
      cbn [exc_map bind] in *; try discriminate; [| exact Hbuild].
    injection Hbuild as Hbuild. apply IH.
    now rewrite !map_app, Hfl, Hbuild.
Qed.

Lemma build_page_alike (page : Page) (is_first : bool) :
  same (_build_page engine h1 g1 page is_first)
       (_build_page engine h2 g2 page is_first).
Proof.
  unfold _build_page.
  destruct (page_heading page) as [heading|].
  - change (_build_page_heading engine g1 heading)
      with (_build_page_heading engine g2 heading).
    destruct (_build_page_heading engine g2 heading) as [built | e];
      cbn [bind]; [| reflexivity].
    apply extend_loop_alike; [apply build_content_element_alike |].
    reflexivity.
  - cbn [bind].
    apply extend_loop_alike; [apply build_content_element_alike |].
    reflexivity.
Qed.

Lemma build_pages_alike (ps : list Page) : forall i fl1 fl2,
  List.map untargeted fl1 = List.map untargeted fl2 ->
  same (build_pages engine h1 g1 i ps fl1) (build_pages engine h2 g2 i ps fl2).
Proof.
  unfold same.
  induction ps as [|page ps IH]; intros i fl1 fl2 Hfl; cbn [build_pages].
  - cbn [exc_map]. now rewrite Hfl.
  - pose proof (build_page_alike page (Nat.eqb i 0)) as Hpage.
    unfold same in Hpage.
    destruct (_build_page engine h1 g1 page (Nat.eqb i 0)) as [b1 | e1],
      (_build_page engine h2 g2 page (Nat.eqb i 0)) as [b2 | e2];
      cbn [exc_map bind] in *; try discriminate; [| exact Hpage].
    injection Hpage as Hpage. apply IH.
    now rewrite !map_app, Hfl, Hpage.
Qed.

End TwoOffsets.

(** X15.  The story handed to the layout engine does not depend on the
    offset: two generators over the same specification, whatever their link
    managers hold, either raise the same exception or build the same
    flowables (texts, styles, plain texts, character ranges) up to the
    target pages of the links.  A page count taken before the offset is
    known thus counts the final layout. *)
Theorem story_independent_of_offset
    (engine : @LayoutEngine F) (h1 h2 : link_manager.Heap)
    (sp : PrependSpecification F) (m1 m2 : link_manager.loc)
    (fmt : text_formatter.TextFormatter) :
  exc_map (List.map untargeted) (story engine h1 (mkPageGenerator sp m1 fmt))
  = exc_map (List.map untargeted)
      (story engine h2 (mkPageGenerator sp m2 fmt)).
Proof. unfold story. now apply build_pages_alike. Qed.

Lemma page_breaks_app (a b : list Flowable) :
  page_breaks (a ++ b) = (page_breaks a + page_breaks b)%nat.
Proof.
  unfold page_breaks. now rewrite flat_map_app, filter_app, length_app.
Qed.

Lemma build_content_element_no_break (engine : @LayoutEngine F)
    (h : link_manager.Heap) (self : @PageGenerator F)
    (element : ContentElement) (fl : list Flowable) :
  _build_content_element engine h self element = Ok fl ->
  page_breaks fl = O.
Proof.
  destruct element as [e|e|e|e]; cbn [_build_content_element]; intros H.
  - apply build_section_ok in H as (text & style & ->). reflexivity.
  - apply build_section_ok in H as (text & style & ->). reflexivity.
  - apply build_bullet_point_ok in H as (text & style & H).
    unfold page_breaks. rewrite H.
    destruct (bullet_links h self e); reflexivity.
  - apply build_bullet_point_ok in H as (text & style & H).
    unfold page_breaks. rewrite H.
    destruct (bullet_links h self e); reflexivity.
Qed.

Lemma build_page_breaks (engine : @LayoutEngine F) (h : link_manager.Heap)
    (self : @PageGenerator F) (page : Page) (is_first : bool)
    (fl : list Flowable) :
  _build_page engine h self page is_first = Ok fl ->
  page_breaks fl = if is_first then O else 1%nat.
Proof.
  unfold _build_page. intros H.
  assert (Hloop : forall elements flowables built,
    extend_loop (_build_content_element engine h self) elements flowables
    = Ok built ->
    page_breaks built = page_breaks flowables).
  { induction elements as [|el elements IH]; intros flowables built;
      cbn [extend_loop]; intros Hb.
    - now injection Hb as <-.
    - apply bind_ok in Hb as (part & Hpart & Hb).
      rewrite (IH _ _ Hb), page_breaks_app,
        (build_content_element_no_break _ _ _ _ _ Hpart).
      lia. }
  apply bind_ok in H as (flowables & Hhead & H).
  rewrite (Hloop _ _ _ H).
  destruct (page_heading page) as [heading|].
  - apply bind_ok in Hhead as (built & Hbuilt & Hhead).
    injection Hhead as <-.
    apply build_page_heading_ok in Hbuilt as (text & style & ->).
    rewrite page_breaks_app. destruct is_first; reflexivity.
  - injection Hhead as <-. destruct is_first; reflexivity.
Qed.

Lemma build_pages_breaks (engine : @LayoutEngine F) (h : link_manager.Heap)
    (self : @PageGenerator F) (ps : list Page) : forall i flowables fl,
  build_pages engine h self i ps flowables = Ok fl ->
  page_breaks fl
  = (page_breaks flowables + List.length ps
     - (if Nat.eqb i 0 then Nat.min 1 (List.length ps) else 0))%nat.
Proof.
  induction ps as [|page ps IH]; intros i flowables fl;
    cbn [build_pages List.length]; intros H.
  - injection H as <-. destruct (Nat.eqb i 0); cbn; lia.
  - apply bind_ok in H as (built & Hbuilt & H).
    rewrite (IH _ _ _ H), page_breaks_app,
      (build_page_breaks _ _ _ _ _ _ Hbuilt).
    cbn [Nat.eqb]. destruct (Nat.eqb i 0); cbn [Nat.min]; lia.
Qed.

(** X16.  A story that was built starts without a page break and has
    exactly one page break per further page of the specification;
    headings and content elements never add one. *)
Theorem story_page_breaks (engine : @LayoutEngine F)
    (h : link_manager.Heap) (self : @PageGenerator F)
    (fl : list Flowable) :
  story engine h self = Ok fl ->
  page_breaks fl = (List.length (pages (spec self)) - 1)%nat /\
  (forall page rest built,
     pages (spec self) = page :: rest ->
     _build_page engine h self page true = Ok built ->
     page_breaks built = O) /\
  (forall element built,
     _build_content_element engine h self element = Ok built ->
     page_breaks built = O).
Proof.
  intros Hstory. repeat split.
  - unfold story in Hstory. rewrite (build_pages_breaks _ _ _ _ _ _ _ Hstory).
    cbn [Nat.eqb]. change (page_breaks []) with O.
    destruct (pages (spec self)); cbn [List.length Nat.min]; lia.
  - intros page rest built _ Hbuilt.
    exact (build_page_breaks _ _ _ _ _ _ Hbuilt).
  - intros element built Hbuilt.
    exact (build_content_element_no_break _ _ _ _ _ Hbuilt).
Qed.

End ComposerMore.

(** ** The two passes of the builder *)

Section BuilderMore.

Import schema page_generator.

Context {F : Type} {Fl : Float F} {Body : Type}.

Variable engine : @LayoutEngine F.
Variable read_pdf : list N -> list (@pdf_merger.PdfPage F Body).
Variable write_pdf : @pdf_merger.PdfWriter F Body -> list N.
Variable annotation_raises :
  @pdf_merger.PdfWriter F Body -> Z -> @pdf_merger.LinkAnnotation F -> bool.
Variable fitz_open : list N -> @link_annotator.Document F.
Variable tobytes : @link_annotator.Document F -> list N.
Variable insert_raises :
  @link_annotator.Page F -> @link_annotator.LinkDict F -> bool.

(** X17.  When [generate] returns, it returns exactly one anchor per link
    item of the whole specification, in the order of the items, each with
    the text of its item and with its target page shifted by the offset of
    the link manager. *)
Theorem generate_one_anchor_per_link_item
    (h : link_manager.Heap) (self : @PageGenerator F)
    (pdf_bytes : list N) (page_count : Z)
    (anchors : list (@LinkPosition F)) :
  generate engine h self = Ok (pdf_bytes, page_count, anchors) ->
  List.length anchors = List.length (spec_link_items (spec self)) /\
  List.map anchor_key anchors
  = List.map (shifted_key h self) (spec_link_items (spec self)).
Proof.
  intros Hgen. pose proof (generate_link_positions engine h self _ _ _ Hgen)
    as H.
  split; [| exact H].
  apply (f_equal (@List.length _)) in H. now rewrite !length_map in H.
Qed.

(** The two passes of [build], both with the generator of the builder:
    the first for the page count, the second, on the heap with the offset
    set, for the bytes and the anchors. *)
Lemma build_spec (h : link_manager.Heap)
    (self : @document_builder.DocumentBuilder F) (original_pdf : list N) :
  document_builder.build engine read_pdf write_pdf annotation_raises
    fitz_open tobytes insert_raises h self original_pdf
  = match generate engine h (builder_generator self) with
    | Raise e => (Raise e, h)
    | Ok (_, count, _) =>
        let h' :=
          link_manager.set_prepended_page_count h
            (document_builder.link_manager self) count in
        match generate engine h' (builder_generator self) with
        | Raise e => (Raise e, h')
        | Ok (prepend_bytes, _, anchors) =>
            (Ok (link_annotator.add_links_bytes insert_raises fitz_open
                   tobytes
                   (pdf_merger.merge_with_destinations_bytes read_pdf
                      write_pdf annotation_raises prepend_bytes original_pdf)
                   anchors),
             h')
        end
    end.
Proof. reflexivity. Qed.

Lemma offset_after_set (h : link_manager.Heap) (m : link_manager.loc)
    (count : Z) :
  link_manager.prepended_page_count
    (link_manager.managers
       (link_manager.set_prepended_page_count h m count) m) = count /\
  link_manager._links
    (link_manager.managers
       (link_manager.set_prepended_page_count h m count) m)
  = link_manager._links (link_manager.managers h m).
Proof.
  destruct (set_prepended_page_count_spec h m count) as (Hm & _).
  cbv zeta in Hm. rewrite Hm, upd_same. split; reflexivity.
Qed.


(** A build that returned made its two passes. *)
Lemma build_ok (h : link_manager.Heap)
    (self : @document_builder.DocumentBuilder F) (original_pdf : list N)
    (pdf_bytes : list N) :
  fst (document_builder.build engine read_pdf write_pdf annotation_raises
         fitz_open tobytes insert_raises h self original_pdf)
  = Ok pdf_bytes ->
  exists flowables,
    story engine h (builder_generator self) = Ok flowables /\
    snd (document_builder.build engine read_pdf write_pdf annotation_raises
           fitz_open tobytes insert_raises h self original_pdf)
    = link_manager.set_prepended_page_count h
        (document_builder.link_manager self)
        (page_total engine (defaults (document_builder.spec self))
           flowables).
Proof.
  rewrite build_spec.
  destruct (generate engine h (builder_generator self))
    as [((b1 & count) & a1) | e] eqn:Hfirst; [| discriminate].
  apply generate_ok in Hfirst as (flowables & Hstory & _ & _ & -> & _).
  cbv zeta. intros H. exists flowables. split; [exact Hstory |].
  destruct (generate engine _ _) as [((pb & c2) & anchors) | e];
    [reflexivity | discriminate].
Qed.

(** The page count of the layout is the same under every offset. *)
Lemma page_total_alike (h1 h2 : link_manager.Heap)
    (sp : PrependSpecification F) (m1 m2 : link_manager.loc)
    (fmt : text_formatter.TextFormatter) (fl1 fl2 : list Flowable) :
  layout_ignores_targets engine ->
  story engine h1 (mkPageGenerator sp m1 fmt) = Ok fl1 ->
  story engine h2 (mkPageGenerator sp m2 fmt) = Ok fl2 ->
  page_total engine (defaults sp) fl1 = page_total engine (defaults sp) fl2.
Proof.
  intros Hlayout H1 H2. apply Hlayout.
  pose proof (build_pages_alike engine h1 h2 sp m1 m2 fmt (pages sp) O [] []
                eq_refl) as Halike.
  unfold story in H1, H2. cbn [spec] in H1, H2.
  rewrite H1, H2 in Halike. cbn [exc_map] in Halike. now injection Halike.
Qed.

(** X19.  When the page count of the layout does not depend on link targets,
    the offset that a [build] that returns has resolved is the count that
    [get_prepend_page_count] returns beforehand, and building a second
    time with the same builder resolves the same offset again. *)
Theorem build_offset_is_prepend_page_count (h : link_manager.Heap)
    (self : @document_builder.DocumentBuilder F)
    (original_pdf original_pdf' : list N)
    (pdf_bytes pdf_bytes' : list N) (count : Z) :
  layout_ignores_targets engine ->
  let own := document_builder.link_manager self in
  let first :=
    document_builder.build engine read_pdf write_pdf annotation_raises
      fitz_open tobytes insert_raises h self original_pdf in
  let h1 := snd first in
  let second :=
    document_builder.build engine read_pdf write_pdf annotation_raises
      fitz_open tobytes insert_raises h1 self original_pdf' in
  let h2 := snd second in
  fst first = Ok pdf_bytes ->
  fst second = Ok pdf_bytes' ->
  fst (document_builder.get_prepend_page_count engine h self) = Ok count ->
  link_manager.prepended_page_count (link_manager.managers h1 own) = count /\
  link_manager.prepended_page_count (link_manager.managers h2 own)
  = link_manager.prepended_page_count (link_manager.managers h1 own).
Proof.
  intros Hlayout. cbv zeta. intros Hfirst Hsecond Hcount.
  apply build_ok in Hfirst as (fl1 & Hstory1 & Hh1).
  apply build_ok in Hsecond as (fl2 & Hstory2 & Hh2).
  rewrite Hh2. rewrite Hh1 in *.
  rewrite !(proj1 (offset_after_set _ _ _)). split.
  - unfold document_builder.get_prepend_page_count in Hcount.
    cbn [link_manager.new_LinkManager new_PageGenerator fst] in Hcount.
    apply bind_ok in Hcount as (((b0 & c0) & a0) & Hgen & Hcount).
    injection Hcount as <-.
    apply generate_ok in Hgen as (fl0 & Hstory0 & _ & _ & -> & _).
    cbn [spec] in *.
    exact (page_total_alike _ _ _ _ _ _ _ _ Hlayout Hstory1 Hstory0).
  - exact (page_total_alike _ _ _ _ _ _ _ _ Hlayout Hstory2 Hstory1).
Qed.

End BuilderMore.

(** ** The link annotator over a whole list of anchors *)

Section LinkBinderMore.

Import link_annotator.

Context {F : Type} {Fl : Float F}.

Variable insert_raises : @Page F -> @LinkDict F -> bool.

Lemma closer_keeps_instance (est : F) (rs : list (@Rect F)) :
  forall best,
  match fst (fold_left (closer est) rs best) with
  | Some r => In r rs \/ fst best = Some r
  | None => fst best = None
  end.
Proof.
  induction rs as [|x rs IH]; intros best; cbn [fold_left].
  - destruct (fst best); auto.
  - specialize (IH (closer est best x)).
    destruct (fst (fold_left (closer est) rs (closer est best x)))
      as [r|].
    + destruct IH as [H | H]; [left; now right |].
      unfold closer in H. destruct (flt _ _); cbn [fst] in H.
      * injection H as <-. left. now left.
      * now right.
    + unfold closer in IH. destruct (flt _ _); [discriminate | exact IH].
Qed.

(** X20.  The rectangle that the text search settles on is always one of the
    instances found on the page; when there is none to settle on, the
    estimated rectangle is used.  No order on the numbers is needed for
    this. *)
Theorem find_text_rect_is_an_instance
    (page : @Page F) (lp : @page_generator.LinkPosition F) :
  match _find_text_rect page lp with
  | Some r =>
      In r (search_for page (page_generator.link_text lp)) /\
      link_rect page lp = r
  | None => link_rect page lp = _get_estimated_rect page lp
  end.
Proof.
  unfold link_rect.
  destruct (_find_text_rect page lp) as [r|] eqn:E; [| reflexivity].
  split; [| reflexivity].
  unfold _find_text_rect in E.
  destruct (page_generator.link_text lp) as [|c text]; [discriminate |].
  destruct (search_for page (c :: text)) as [|r1 [|r2 rest]].
  - discriminate.
  - injection E as <-. now left.
  - pose proof (closer_keeps_instance
                  (fsub (rect_height page) (page_generator.y lp))
                  (r1 :: r2 :: rest) (None, finf)) as H.
    rewrite E in H. cbn [fst] in H. destruct H as [H | H];
      [exact H | discriminate].
Qed.

Lemma extends_refl (n : nat) (page : @Page F) : extends n page page.
Proof.
  repeat split. exists []. split; [now rewrite app_nil_r | constructor].
Qed.

Lemma extends_trans (n : nat) (p1 p2 p3 : @Page F) :
  extends n p1 p2 -> extends n p2 p3 -> extends n p1 p3.
Proof.
  intros (H1 & S1 & x1 & L1 & V1) (H2 & S2 & x2 & L2 & V2).
  repeat split; try congruence.
  exists (x1 ++ x2). split.
  - now rewrite L2, L1, app_assoc.
  - apply Forall_app. now split.
Qed.

Lemma Forall2_extends_refl (n : nat) (doc : @Document F) :
  Forall2 (extends n) doc doc.
Proof. induction doc; constructor; auto using extends_refl. Qed.

Lemma Forall2_extends_trans (n : nat) (d1 d2 d3 : @Document F) :
  Forall2 (extends n) d1 d2 -> Forall2 (extends n) d2 d3 ->
  Forall2 (extends n) d1 d3.
Proof.
  intros H12. revert d3.
  induction H12 as [|a b d1 d2 Hab H12 IH]; intros d3 H23;
    inversion H23; subst; constructor; eauto using extends_trans.
Qed.

Lemma alter_nth_extends (n : nat) (f : @Page F -> @Page F) :
  (forall page, extends n page (f page)) ->
  forall k doc, Forall2 (extends n) doc (pdf_merger.alter_nth f k doc).
Proof.
  intros Hf k doc. revert k.
  induction doc as [|a doc IH]; intros [|k]; cbn; constructor;
    auto using extends_refl, Forall2_extends_refl.
Qed.

Lemma add_link_extends (doc : @Document F)
    (lp : @page_generator.LinkPosition F) :
  Forall2 (extends (List.length doc)) doc (_add_link insert_raises doc lp).
Proof.
  destruct (indices_valid doc lp) eqn:V.
  - rewrite (add_link_valid _ _ _ V). apply alter_nth_extends.
    intros page. unfold try_insert_link.
    destruct (insert_raises page _); [apply extends_refl |].
    repeat split. eexists. split; [reflexivity |].
    constructor; [| constructor]. cbn [link_annotator.page].
    unfold indices_valid in V.
    apply andb_prop in V as (V & V4). apply andb_prop in V as (_ & V3).
    apply Z.leb_le in V3. apply Z.ltb_lt in V4. lia.
  - rewrite (add_link_invalid _ _ _ V). apply Forall2_extends_refl.
Qed.

(** X21.  Whatever the anchors, [add_links] keeps the pages of the document
    in number and order, keeps the links each page had, at the front, and
    only adds links whose target is one of the pages of the document. *)
Theorem add_links_only_adds_valid_links
    (doc : @Document F)
    (link_positions : list (@page_generator.LinkPosition F)) :
  Forall2 (extends (List.length doc)) doc
    (add_links insert_raises doc link_positions).
Proof.
  rewrite add_links_fold.
  assert (H : forall lps d,
    List.length d = List.length doc ->
    Forall2 (extends (List.length doc)) d
      (fold_left (_add_link insert_raises) lps d)).
  { induction lps as [|lp lps IH]; intros d Hd; cbn [fold_left].
    - apply Forall2_extends_refl.
    - eapply Forall2_extends_trans.
      + rewrite <- Hd. apply add_link_extends.
      + apply IH. now rewrite add_link_length. }
  now apply H.
Qed.

Lemma list_sum_cons (a : nat) (l : list nat) :
  list_sum (a :: l) = (a + list_sum l)%nat.
Proof. reflexivity. Qed.

Lemma total_links_alter_nth (f : @Page F -> @Page F) :
  (forall page,
     List.length (page_links (f page)) = S (List.length (page_links page))) ->
  forall k doc, (k < List.length doc)%nat ->
  total_links (pdf_merger.alter_nth f k doc) = S (total_links doc).
Proof.
  intros Hf k doc. revert k. unfold total_links.
  induction doc as [|a doc IH]; intros [|k] Hk; cbn [List.length] in Hk;
    try lia; cbn [pdf_merger.alter_nth List.map]; rewrite !list_sum_cons.
  - rewrite Hf. lia.
  - rewrite IH by lia. lia.
Qed.

(** X22.  When no insertion raises, [add_links] adds exactly one link per
    anchor whose page index and target index are within the document, and
    none for the others. *)
Theorem add_links_one_link_per_valid_anchor
    (doc : @Document F)
    (link_positions : list (@page_generator.LinkPosition F)) :
  (forall page link, insert_raises page link = false) ->
  total_links (add_links insert_raises doc link_positions)
  = (total_links doc
     + List.length (filter (indices_valid doc) link_positions))%nat.
Proof.
  intros Hok. rewrite add_links_fold.
  assert (H : forall lps d,
    List.length d = List.length doc ->
    total_links (fold_left (_add_link insert_raises) lps d)
    = (total_links d + List.length (filter (indices_valid doc) lps))%nat).
  { induction lps as [|lp lps IH]; intros d Hd; cbn [fold_left filter].
    - cbn. lia.
    - rewrite IH by now rewrite add_link_length.
      assert (Hv : indices_valid d lp = indices_valid doc lp)
        by (unfold indices_valid; now rewrite Hd).
      rewrite <- Hv.
      destruct (indices_valid d lp) eqn:V.
      + rewrite (add_link_valid _ _ _ V), total_links_alter_nth.
        * cbn [List.length]. lia.
        * intros page. unfold try_insert_link. rewrite Hok.
          cbn [page_links]. rewrite length_app. cbn. lia.
        * unfold indices_valid in V.
          apply andb_prop in V as (V & _). apply andb_prop in V as (V & _).
          apply andb_prop in V as (V1 & V2).
          apply Z.leb_le in V1. apply Z.ltb_lt in V2. lia.
      + rewrite (add_link_invalid _ _ _ V). lia. }
  now apply H.
Qed.

End LinkBinderMore.

(** ** The merger beyond the two-pass path *)

Section MergerMore.

Import pdf_merger.

Context {F : Type} {Fl : Float F} {Body : Type}.

Lemma merged_destinations
    (raises : @PdfWriter F Body -> Z -> @LinkAnnotation F -> bool)
    (prepend_pages original_pages : list (@PdfPage F Body))
    (link_positions : option (list (@page_generator.LinkPosition F))) :
  named_destinations
    (merge_with_destinations_and_links raises prepend_pages original_pages
       link_positions)
  = List.map
      (fun i => (lit "page_" ++ str_of_int (Z.of_nat i + 1), Z.of_nat i))
      (seq O (List.length prepend_pages + List.length original_pages)).
Proof.
  unfold merge_with_destinations_and_links.
  set (w0 := create_destinations_loop _ _).
  assert (Hw0 : named_destinations w0
    = List.map
        (fun i => (lit "page_" ++ str_of_int (Z.of_nat i + 1), Z.of_nat i))
        (seq O (List.length prepend_pages + List.length original_pages))).
  { subst w0. unfold create_destinations_loop.
    rewrite create_destinations_loop_from, !add_pages_spec.
    cbn [pages named_destinations new_PdfWriter app].
    now rewrite <- Nat2Z.inj_add, Nat2Z.id. }
  destruct link_positions as [[|lp lps]|]; try exact Hw0.
  destruct (add_link_annotations_frame raises (lp :: lps) w0) as (_ & Hd).
  cbv zeta in Hd. now rewrite Hd.
Qed.

Lemma str_ltb_irrefl (a : str) : str_ltb a a = false.
Proof.
  induction a as [|x a IH]; cbn [str_ltb]; [reflexivity |].
  now rewrite N.ltb_irrefl, N.eqb_refl.
Qed.

Lemma str_ltb_trans (a : str) : forall b c,
  str_ltb a b = true -> str_ltb b c = true -> str_ltb a c = true.
Proof.
  induction a as [|x a IH]; intros [|y b] [|z c]; cbn [str_ltb];
    try discriminate; try reflexivity.
  destruct (N.ltb_spec x y) as [Hxy | Hxy].
  - intros _.
    destruct (N.ltb_spec y z) as [Hyz | Hyz].
    + intros _. destruct (N.ltb_spec x z); [reflexivity | lia].
    + destruct (N.eqb_spec y z) as [<- | _]; [| discriminate]. intros _.
      destruct (N.ltb_spec x y); [reflexivity | lia].
  - destruct (N.eqb_spec x y) as [<- | _]; [| discriminate]. intros Hab.
    destruct (N.ltb_spec x z) as [_ | Hxz]; [reflexivity |].
    destruct (N.eqb_spec x z) as [_ | _]; [| discriminate].
    now apply IH.
Qed.

Lemma insert_destination_perm (title : str) (page_number : Z)
    (names : list (str * Z)) :
  Permutation (insert_destination title page_number names)
    ((title, page_number) :: names).
Proof.
  induction names as [|(t & p) names IH]; cbn [insert_destination].
  - reflexivity.
  - destruct (str_ltb title t); [reflexivity |].
    rewrite IH. apply perm_swap.
Qed.

(** The name array holds the recorded destinations, each once. *)
Lemma names_array_perm (w : @PdfWriter F Body) :
  Permutation (names_array w) (named_destinations w).
Proof.
  unfold names_array.
  assert (Hloop : forall calls names,
    Permutation
      (fold_left (fun names d => insert_destination (fst d) (snd d) names)
         calls names)
      (names ++ calls)).
  { induction calls as [|(t & p) calls IH]; intros names; cbn [fold_left].
    - now rewrite app_nil_r.
    - rewrite IH. cbn [fst snd].
      rewrite insert_destination_perm. apply Permutation_middle. }
  apply (Hloop _ []).
Qed.

(** Inserting keeps the titles of the name array in order. *)
Lemma insert_destination_sorted (title : str) (page_number : Z)
    (names : list (str * Z)) :
  StronglySorted (fun a b => str_ltb (fst b) (fst a) = false) names ->
  StronglySorted (fun a b => str_ltb (fst b) (fst a) = false)
    (insert_destination title page_number names).
Proof.
  induction 1 as [|(t & p) names Hsorted IH Hhead];
    cbn [insert_destination].
  - constructor; constructor.
  - destruct (str_ltb title t) eqn:Hlt.
    + constructor; [now constructor |]. constructor.
      * cbn [fst]. destruct (str_ltb t title) eqn:Hgt; [| reflexivity].
        pose proof (str_ltb_trans _ _ _ Hlt Hgt) as Habs.
        now rewrite str_ltb_irrefl in Habs.
      * eapply Forall_impl; [| exact Hhead].
        intros (t' & p') Hle. cbn [fst] in *.
        destruct (str_ltb t' title) eqn:Hgt; [| reflexivity].
        pose proof (str_ltb_trans _ _ _ Hgt Hlt) as Habs. congruence.
    + constructor; [exact IH |].
      apply Forall_forall. intros d Hin.
      apply (Permutation_in _ (insert_destination_perm _ _ _)) in Hin.
      destruct Hin as [<- | Hin]; [exact Hlt |].
      now apply (proj1 (Forall_forall _ _) Hhead).
Qed.

Lemma names_array_sorted (w : @PdfWriter F Body) :
  StronglySorted (fun a b => str_ltb (fst b) (fst a) = false)
    (names_array w).
Proof.
  unfold names_array.
  assert (Hloop : forall calls names,
    StronglySorted (fun a b => str_ltb (fst b) (fst a) = false) names ->
    StronglySorted (fun a b => str_ltb (fst b) (fst a) = false)
      (fold_left (fun names d => insert_destination (fst d) (snd d) names)
         calls names)).
  { induction calls as [|d calls IH]; intros names Hsorted; cbn [fold_left];
      [exact Hsorted |].
    apply IH. now apply insert_destination_sorted. }
  apply Hloop. constructor.
Qed.

(** X23.  The destinations in the name array of the merged document are
    those that the merger added, so that their names are the names that
    [LinkManager.generate_all_destinations] lists for the total number of
    pages, each once.  The array keeps them ordered by title, as strings,
    which is not the page order from ten pages on: ["page_10"] comes
    before ["page_2"]. *)
Theorem merged_destination_names_are_generated
    (raises : @PdfWriter F Body -> Z -> @LinkAnnotation F -> bool)
    (prepend_pages original_pages : list (@PdfPage F Body))
    (link_positions : option (list (@page_generator.LinkPosition F))) :
  let w := merge_with_destinations_and_links raises prepend_pages
             original_pages link_positions in
  Permutation (names_array w) (named_destinations w) /\
  Permutation (List.map fst (names_array w))
    (link_manager.generate_all_destinations
       (Z.of_nat (List.length prepend_pages + List.length original_pages))) /\
  StronglySorted (fun a b => str_ltb (fst b) (fst a) = false)
    (names_array w) /\
  str_ltb (lit "page_10") (lit "page_2") = true.
Proof.
  cbv zeta. split; [apply names_array_perm |].
  split; [| split; [apply names_array_sorted | reflexivity]].
  rewrite (Permutation_map fst (names_array_perm _)), merged_destinations.
  unfold link_manager.generate_all_destinations.
  rewrite Nat2Z.id, <- seq_shift, !map_map.
  erewrite map_ext; [reflexivity |]. intros i.
  cbn [fst]. do 2 f_equal. lia.
Qed.

(** X24.  [prepend_pages] with [create_destinations] builds the very document
    of [merge_with_destinations]; without it the pages are the same and no
    destination is created. *)
Theorem prepend_pages_matches_merge
    (raises : @PdfWriter F Body -> Z -> @LinkAnnotation F -> bool)
    (prepend original : list (@PdfPage F Body)) :
  prepend_pages prepend original true
  = merge_with_destinations raises prepend original /\
  pages (prepend_pages prepend original false) = prepend ++ original /\
  named_destinations (prepend_pages prepend original false) = [].
Proof.
  unfold prepend_pages, merge_with_destinations,
    merge_with_destinations_and_links, _create_named_destinations.
  rewrite !add_pages_spec.
  cbn [pages named_destinations new_PdfWriter app].
  repeat split. now rewrite length_app, Nat2Z.inj_add.
Qed.

End MergerMore.

(** ** The further properties on the sample data *)

Section SamplesMore.

Import samples.

(** A record registered once two pages are prepended. *)
Lemma register_after_offset_is_unresolved_witness :
  2 <> 0 /\
  link_manager.adjusted_page
    (link_manager.infos
       (snd (link_manager.register_link
               (link_manager.set_prepended_page_count
                  link_manager.empty_heap O 2) O 5))
       (fst (link_manager.register_link
               (link_manager.set_prepended_page_count
                  link_manager.empty_heap O 2) O 5)))
  = None.
Proof.
  assert (H : 2 <> 0) by discriminate.
  split; [exact H |].
  exact (proj1
    (register_after_offset_is_unresolved link_manager.empty_heap O 5 2 H)).
Defined.

Lemma lit_plain_nul_free : nul_free (lit "Plain text without markers").
Proof.
  unfold nul_free. cbn. intros H.
  repeat (destruct H as [H | H]; [discriminate H |]). exact H.
Qed.

(** [test_format_no_markers]: a text without markers. *)
Lemma format_text_without_markers_witness :
  text_formatter.finditer (lit "**") (lit "Plain text without markers") = []
  /\ text_formatter.format_text text_formatter.default_formatter
       (lit "Plain text without markers") true true true
     = text_formatter.escape_xml (lit "Plain text without markers").
Proof.
  split; [reflexivity |].
  exact (format_text_without_markers text_formatter.default_formatter
           (lit "Plain text without markers") true true
           lit_plain_nul_free eq_refl eq_refl).
Defined.

Lemma lit_label_nul_free : nul_free (lit "Link:").
Proof.
  unfold nul_free. cbn. intros H.
  repeat (destruct H as [H | H]; [discriminate H |]). exact H.
Qed.

(** The label of the sample bullet. *)
Lemma plain_label_of_plain_text_witness :
  forallb (fun c => negb (reserved c)) (lit "Link:") = true /\
  page_generator._strip_xml_tags sample_generator (lit "Link:")
  = lit "Link:".
Proof.
  split; [reflexivity |].
  exact (proj2
    (plain_label_of_plain_text sample_generator (lit "Link:")
       lit_label_nul_free eq_refl eq_refl eq_refl)).
Defined.

Lemma sample_engine_ignores_targets : layout_ignores_targets sample_engine.
Proof. intros d s1 s2 _. reflexivity. Qed.

(** The sample bullet is built, and its one anchor lies on page index 0
    at the height of the paragraph. *)
Lemma bullet_anchors_share_paragraph_geometry_witness :
  exists fl,
    page_generator._build_bullet_point sample_engine sample_heap
      sample_generator sample_bullet false = Ok fl /\
    exists anchors,
      page_generator.draw_from sample_geometry 0
        (flat_map page_generator.drawn fl) [] = [] ++ anchors /\
      Forall
        (fun lp =>
           page_generator.page_index lp = 0 /\
           page_generator.y lp = inject_Z 700 /\
           page_generator.height lp = inject_Z 14)
        anchors.
Proof.
  eexists. split; [reflexivity |].
  exact (bullet_anchors_share_paragraph_geometry sample_engine
           sample_geometry 0 sample_heap sample_generator sample_bullet false
           _ [] eq_refl).
Defined.

(** The story of the sample specification, of one page, is built
    without a page break. *)
Lemma story_page_breaks_witness :
  exists fl,
    story sample_engine sample_heap sample_generator = Ok fl /\
    page_breaks fl = O.
Proof.
  eexists. split; [reflexivity |].
  exact (proj1
    (story_page_breaks sample_engine sample_heap sample_generator _
       eq_refl)).
Defined.

(** [generate] returns for the sample specification, with the anchor of
    its one link. *)
Lemma generate_one_anchor_per_link_item_witness :
  exists pdf_bytes page_count anchors,
    page_generator.generate sample_engine sample_heap sample_generator
    = Ok (pdf_bytes, page_count, anchors) /\
    List.length anchors = 1%nat.
Proof.
  eexists. eexists. eexists. split; [reflexivity |].
  exact (proj1
    (generate_one_anchor_per_link_item sample_engine sample_heap
       sample_generator _ _ _ eq_refl)).
Defined.

(** The sample builder: [build] returns, twice, and resolves the count
    reported before. *)
Lemma build_offset_is_prepend_page_count_witness :
  layout_ignores_targets sample_engine /\
  fst (document_builder.build (Body := nat) sample_engine
         (fun _ => []) (fun _ => []) (fun _ _ _ => false)
         (fun _ => []) (fun _ => []) (fun _ _ => false)
         sample_heap sample_builder []) = Ok [] /\
  fst (document_builder.get_prepend_page_count sample_engine sample_heap
         sample_builder) = Ok 1 /\
  link_manager.prepended_page_count
    (link_manager.managers
       (snd (document_builder.build (Body := nat) sample_engine
               (fun _ => []) (fun _ => []) (fun _ _ _ => false)
               (fun _ => []) (fun _ => []) (fun _ _ => false)
               sample_heap sample_builder []))
       (document_builder.link_manager sample_builder))
  = 1.
Proof.
  split; [exact sample_engine_ignores_targets |].
  split; [reflexivity |]. split; [reflexivity |].
  exact (proj1
    (build_offset_is_prepend_page_count (Body := nat) sample_engine
       (fun _ => []) (fun _ => []) (fun _ _ _ => false)
       (fun _ => []) (fun _ => []) (fun _ _ => false)
       sample_heap sample_builder [] [] [] [] 1
       sample_engine_ignores_targets eq_refl eq_refl eq_refl)).
Defined.

(** Four sample pages, one anchor past the last page and the sample
    anchor: one link is added. *)
Lemma add_links_one_link_per_valid_anchor_witness :
  (forall (page : @link_annotator.Page Q) (link : @link_annotator.LinkDict Q),
     (fun _ _ => false) page link = false) /\
  total_links
    (link_annotator.add_links (fun _ _ => false)
       [sample_page; sample_page; sample_page; sample_page]
       [page_generator.mkLinkPosition 0 5 (lit "Page 3") (inject_Z 150)
          (inject_Z 700) (inject_Z 40) (inject_Z 14);
        sample_anchor])
  = 1%nat.
Proof.
  split; [intros page link; reflexivity |].
  exact (add_links_one_link_per_valid_anchor (fun _ _ => false)
           [sample_page; sample_page; sample_page; sample_page]
           [page_generator.mkLinkPosition 0 5 (lit "Page 3") (inject_Z 150)
              (inject_Z 700) (inject_Z 40) (inject_Z 14);
            sample_anchor]
           (fun page link => eq_refl)).
Defined.

End SamplesMore.

(** ** One marked section *)

Section MarkedSection.

Import text_formatter.

Lemma startswith_app (p s : str) : startswith p (p ++ s) = true.
Proof.
  induction p as [|x p IH]; cbn [startswith app]; [reflexivity |].
  now rewrite N.eqb_refl, IH.
Qed.

Lemma startswith_other_head (c : char) (p s : str) :
  ~ In c s -> s <> [] -> forall t, startswith (c :: p) (s ++ t) = false.
Proof.
  destruct s as [|x s]; [contradiction |]. intros Hin _ t.
  cbn [startswith app].
  destruct (N.eqb_spec c x) as [-> | _]; [| reflexivity].
  exfalso. apply Hin. now left.
Qed.

(** The lazy [.+?] runs over an inner text that holds neither a
    newline nor the first character of the marker, up to the marker. *)
Lemma dot_plus_lazy_inner (c : char) (m inner : str) :
  inner <> [] -> ~ In c inner -> ~ In newline inner ->
  forall t, dot_plus_lazy (c :: m) (inner ++ (c :: m) ++ t) = Some inner.
Proof.
  induction inner as [|x inner IH]; [contradiction |].
  intros _ Hc Hn t.
  change ((x :: inner) ++ (c :: m) ++ t)
    with (x :: (inner ++ (c :: m) ++ t)).
  cbn [dot_plus_lazy].
  destruct (N.eqb_spec x newline) as [-> | _];
    [exfalso; apply Hn; now left |].
  destruct inner as [|y inner].
  - change ([] ++ (c :: m) ++ t) with ((c :: m) ++ t).
    now rewrite (startswith_app (c :: m) t).
  - rewrite (startswith_other_head c m (y :: inner)).
    + rewrite IH; [reflexivity | discriminate | |]; intros H;
        [apply Hc | apply Hn]; now right.
    + intros H. apply Hc. now right.
    + discriminate.
Qed.

Lemma finditer_from_short (marker : str) (s : str) : forall pos k,
  (List.length s <= k)%nat -> finditer_from marker pos k s = [].
Proof.
  induction s as [|x s IH]; intros pos k Hk; [reflexivity |].
  cbn [finditer_from]. cbn [List.length] in Hk.
  destruct k as [|k]; [lia |]. apply IH. lia.
Qed.

(** A text that is one marked section yields one match, the whole
    text, with the inner text as its group. *)
Lemma finditer_one_section (c : char) (m inner : str) :
  inner <> [] -> ~ In c inner -> ~ In newline inner ->
  finditer (c :: m) ((c :: m) ++ inner ++ (c :: m))
  = [mkMatch O (List.length ((c :: m) ++ inner ++ (c :: m))) inner].
Proof.
  intros Hne Hc Hn. unfold finditer.
  cbn [app finditer_from]. unfold match_at.
  change (c :: m ++ inner ++ c :: m) with ((c :: m) ++ inner ++ (c :: m)).
  rewrite startswith_app, skipn_app, skipn_all, Nat.sub_diag.
  cbn [skipn app].
  pose proof (dot_plus_lazy_inner c m inner Hne Hc Hn []) as Hd.
  rewrite app_nil_r in Hd. rewrite Hd.
  rewrite finditer_from_short.
  - f_equal. f_equal. cbn [List.length app].
    rewrite !length_app. cbn [List.length]. lia.
  - rewrite !length_app. cbn [List.length]. lia.
Qed.

(** A text without the first character of a marker has no match. *)
Lemma finditer_from_absent (c : char) (m s : str) : forall pos,
  ~ In c s -> finditer_from (c :: m) pos O s = [].
Proof.
  induction s as [|x s IH]; intros pos Hc; [reflexivity |].
  cbn [finditer_from]. unfold match_at. cbn [startswith].
  destruct (N.eqb_spec c x) as [-> | _];
    [exfalso; apply Hc; now left |].
  cbn [andb]. apply IH. intros H. apply Hc. now right.
Qed.

Lemma split_from_skip (pre rest : str) : forall cur,
  split_from (List.length pre) cur (pre ++ rest) = split_from O cur rest.
Proof.
  induction pre as [|x pre IH]; intros cur; [reflexivity |].
  cbn [List.length app split_from]. apply IH.
Qed.

Lemma startswith_nul_head (p s : str) (x : char) :
  x <> 0%N -> startswith (0%N :: p) (x :: s) = false.
Proof.
  intros Hx. cbn [startswith].
  destruct (N.eqb_spec 0 x); [congruence | reflexivity].
Qed.

Lemma split_bold_placeholder (e rest : str) : forall cur,
  nul_free e ->
  split_from O cur (e ++ bold_placeholder ++ rest)
  = (rev cur ++ e) :: bold_placeholder :: split_from O [] rest.
Proof.
  induction e as [|x e IH]; intros cur He.
  - cbn [app]. rewrite app_nil_r.
    change (bold_placeholder ++ rest)
      with (0%N :: (lit "BOLD" ++ [0%N]) ++ rest).
    cbn [split_from].
    change (0%N :: (lit "BOLD" ++ [0%N]) ++ rest)
      with (bold_placeholder ++ rest).
    rewrite startswith_app.
    change (List.length bold_placeholder - 1)%nat
      with (List.length (lit "BOLD" ++ [0%N])).
    now rewrite split_from_skip.
  - cbn [app split_from].
    apply nul_free_cons in He as (Hx & He).
    unfold bold_placeholder at 1, italic_placeholder at 1.
    rewrite !(startswith_nul_head _ _ _ Hx).
    rewrite (IH _ He). cbn [rev]. now rewrite <- app_assoc.
Qed.

Lemma split_italic_placeholder (e rest : str) : forall cur,
  nul_free e ->
  split_from O cur (e ++ italic_placeholder ++ rest)
  = (rev cur ++ e) :: italic_placeholder :: split_from O [] rest.
Proof.
  induction e as [|x e IH]; intros cur He.
  - cbn [app]. rewrite app_nil_r.
    change (italic_placeholder ++ rest)
      with (0%N :: (lit "ITALIC" ++ [0%N]) ++ rest).
    cbn [split_from].
    change (0%N :: (lit "ITALIC" ++ [0%N]) ++ rest)
      with (italic_placeholder ++ rest).
    rewrite startswith_app.
    replace (startswith bold_placeholder (italic_placeholder ++ rest))
      with false by reflexivity.
    change (List.length italic_placeholder - 1)%nat
      with (List.length (lit "ITALIC" ++ [0%N])).
    now rewrite split_from_skip.
  - cbn [app split_from].
    apply nul_free_cons in He as (Hx & He).
    assert (Hb : startswith bold_placeholder
                   (x :: e ++ italic_placeholder ++ rest) = false)
      by exact (startswith_nul_head _ _ _ Hx).
    assert (Hi : startswith italic_placeholder
                   (x :: e ++ italic_placeholder ++ rest) = false)
      by exact (startswith_nul_head _ _ _ Hx).
    rewrite Hb, Hi, (IH _ He). cbn [rev]. now rewrite <- app_assoc.
Qed.

Lemma nul_free_nil : nul_free [].
Proof. intros []. Qed.

Lemma nul_free_app (a b : str) : nul_free a -> nul_free b -> nul_free (a ++ b).
Proof.
  unfold nul_free. intros Ha Hb H. apply in_app_or in H. tauto.
Qed.

(** The pieces of a text that is one escaped section between two
    placeholders, and what the escaping loop makes of them. *)
Lemma section_parts (ph e : str) :
  ph = bold_placeholder \/ ph = italic_placeholder ->
  nul_free e ->
  join (escape_parts false false (split_placeholders (ph ++ e ++ ph)))
  = ph ++ e ++ ph.
Proof.
  intros Hph He. unfold split_placeholders.
  assert (Hnb : str_eqb e bold_placeholder = false)
    by exact (nul_free_not_placeholder _ _ He).
  assert (Hni : str_eqb e italic_placeholder = false)
    by exact (nul_free_not_placeholder _ _ He).
  destruct Hph as [-> | ->].
  - change (bold_placeholder ++ e ++ bold_placeholder)
      with ([] ++ bold_placeholder ++ e ++ bold_placeholder).
    rewrite (split_bold_placeholder [] _ [] nul_free_nil).
    replace (e ++ bold_placeholder) with (e ++ bold_placeholder ++ [])
      by now rewrite app_nil_r.
    rewrite (split_bold_placeholder e [] [] He).
    cbn [rev app split_from escape_parts].
    replace (str_eqb [] bold_placeholder) with false by reflexivity.
    replace (str_eqb [] italic_placeholder) with false by reflexivity.
    replace (str_eqb bold_placeholder bold_placeholder) with true
      by reflexivity.
    rewrite Hnb, Hni. cbn [negb orb].
    unfold join. cbn [List.concat]. change (escape_xml []) with (@nil char).
    cbn [app]. now rewrite !app_nil_r.
  - change (italic_placeholder ++ e ++ italic_placeholder)
      with ([] ++ italic_placeholder ++ e ++ italic_placeholder).
    rewrite (split_italic_placeholder [] _ [] nul_free_nil).
    replace (e ++ italic_placeholder) with (e ++ italic_placeholder ++ [])
      by now rewrite app_nil_r.
    rewrite (split_italic_placeholder e [] [] He).
    cbn [rev app split_from escape_parts].
    replace (str_eqb [] bold_placeholder) with false by reflexivity.
    replace (str_eqb [] italic_placeholder) with false by reflexivity.
    replace (str_eqb italic_placeholder bold_placeholder) with false
      by reflexivity.
    replace (str_eqb italic_placeholder italic_placeholder) with true
      by reflexivity.
    rewrite Hnb, Hni. cbn [negb orb].
    unfold join. cbn [List.concat]. change (escape_xml []) with (@nil char).
    cbn [app]. now rewrite !app_nil_r.
Qed.

Lemma replace_first_head (ph new rest : str) :
  replace_first ph new (ph ++ rest) = new ++ rest.
Proof.
  destruct ph as [|x ph].
  - cbn [app]. destruct rest; reflexivity.
  - cbn [app replace_first].
    change (x :: ph ++ rest) with ((x :: ph) ++ rest).
    now rewrite startswith_app, skipn_app, skipn_all, Nat.sub_diag.
Qed.

Lemma replace_first_after (p new a b : str) :
  nul_free a ->
  replace_first (0%N :: p) new (a ++ (0%N :: p) ++ b) = a ++ new ++ b.
Proof.
  induction a as [|x a IH]; intros Ha.
  - exact (replace_first_head (0%N :: p) new b).
  - apply nul_free_cons in Ha as (Hx & Ha).
    cbn [app replace_first]. rewrite (startswith_nul_head _ _ _ Hx).
    f_equal. exact (IH Ha).
Qed.

Lemma contains_after (ph a b : str) : contains ph (a ++ ph ++ b) = true.
Proof.
  induction a as [|x a IH].
  - cbn [app]. destruct (ph ++ b) eqn:E; cbn [contains];
      rewrite <- E, startswith_app; reflexivity.
  - cbn [app contains]. rewrite IH. apply orb_true_r.
Qed.

Lemma close_open_loop_once ph open close short s :
  contains ph s = true ->
  contains ph (replace_first ph close s) = false ->
  close_open_loop ph open close short s = replace_first ph close s.
Proof.
  funelim (close_open_loop ph open close short s); intros Hin Hout;
    try reflexivity; congruence.
Qed.

(** The conversion of the two placeholders around an escaped section
    to an opening and a closing tag. *)
Lemma section_tags (p open close e : str) short :
  nul_free e -> nul_free open -> nul_free close ->
  placeholders_to_tags (0%N :: p) open close short
    ((0%N :: p) ++ e ++ (0%N :: p))
  = open ++ e ++ close.
Proof.
  intros He Ho Hc. unfold placeholders_to_tags.
  rewrite replace_first_head.
  assert (Hshape : open ++ e ++ 0%N :: p
                   = (open ++ e) ++ (0%N :: p) ++ [])
    by now rewrite app_nil_r, app_assoc.
  assert (Hdone : replace_first (0%N :: p) close (open ++ e ++ 0%N :: p)
                  = open ++ e ++ close).
  { rewrite Hshape, replace_first_after by now apply nul_free_app.
    now rewrite app_nil_r, app_assoc. }
  rewrite close_open_loop_once.
  - exact Hdone.
  - rewrite Hshape. apply contains_after.
  - rewrite Hdone. apply nul_free_contains.
    repeat apply nul_free_app; assumption.
Qed.

Lemma lit_nul_free_tags :
  nul_free (lit "<b>") /\ nul_free (lit "</b>") /\
  nul_free (lit "<i>") /\ nul_free (lit "</i>").
Proof.
  unfold nul_free. cbn. repeat split; intros H;
    repeat (destruct H as [H | H]; [discriminate H |]); exact H.
Qed.

(** X25.  A text that is one bold section - the bold marker, a non-empty
    inner text on one line, the bold marker - is formatted to the escaped
    inner text between [<b>] and [</b>], for any markers, provided the
    inner text holds neither U+0000 nor the first character of a marker
    and the italic marker does not begin with a letter of a placeholder
    or of an escape. *)
Theorem format_text_bold_section
    (self : TextFormatter) (cb ci : char) (mb mi inner : str) :
  bold_marker self = cb :: mb ->
  italic_marker self = ci :: mi ->
  inner <> [] ->
  nul_free inner ->
  ~ In newline inner ->
  ~ In cb inner ->
  ~ In ci (inner ++ bold_placeholder ++ lit "&amp;lgt") ->
  format_text_default self (bold_marker self ++ inner ++ bold_marker self)
  = lit "<b>" ++ escape_xml inner ++ lit "</b>".
Proof.
  intros Eb Ei Hne Hnul Hnl Hcb Hci.
  pose proof (escape_xml_nul_free _ Hnul) as He.
  destruct lit_nul_free_tags as (Hb1 & Hb2 & Hi1 & Hi2).
  unfold format_text_default, format_text. rewrite Eb, Ei.
  assert (Hbold : mark_sections (cb :: mb) bold_placeholder
                    ((cb :: mb) ++ inner ++ cb :: mb)
                  = bold_placeholder ++ escape_xml inner ++ bold_placeholder).
  { unfold mark_sections.
    rewrite (finditer_one_section cb mb inner Hne Hcb Hnl).
    cbn [rev fold_left app]. unfold wrap_match.
    cbn [m_start m_end m_group1 firstn].
    change (cb :: mb ++ inner ++ cb :: mb)
      with ((cb :: mb) ++ inner ++ cb :: mb).
    rewrite skipn_all. cbn [app]. now rewrite app_nil_r. }
  rewrite Hbold.
  assert (Hitalic : mark_sections (ci :: mi) italic_placeholder
                      (bold_placeholder ++ escape_xml inner
                       ++ bold_placeholder)
                    = bold_placeholder ++ escape_xml inner
                      ++ bold_placeholder).
  { unfold mark_sections, finditer.
    rewrite finditer_from_absent; [reflexivity |].
    intros H. apply Hci.
    apply in_app_or in H as [H | H];
      [apply in_or_app; right; apply in_or_app; now left |].
    apply in_app_or in H as [H | H];
      [| apply in_or_app; right; apply in_or_app; now left].
    apply escape_xml_in in H as (_ & _ & [H | H]).
    - apply in_or_app. now left.
    - apply in_or_app. right. apply in_or_app. now right. }
  rewrite Hitalic, (section_parts bold_placeholder _ (or_introl eq_refl) He).
  assert (Htags : placeholders_to_tags bold_placeholder (lit "<b>")
                    (lit "</b>") bold_tags_short
                    (bold_placeholder ++ escape_xml inner ++ bold_placeholder)
                  = lit "<b>" ++ escape_xml inner ++ lit "</b>")
    by exact (section_tags _ _ _ _ bold_tags_short He Hb1 Hb2).
  rewrite Htags.
  destruct (placeholders_absent (lit "<b>" ++ escape_xml inner ++ lit "</b>"))
    as (_ & Hti & _); [| exact Hti].
  repeat apply nul_free_app; assumption.
Qed.

Lemma str_eqb_eq (a b : str) : str_eqb a b = true <-> a = b.
Proof.
  revert b. induction a as [|x a IH]; intros [|y b]; cbn [str_eqb];
    try (split; [discriminate | discriminate]); [tauto |].
  rewrite andb_true_iff, N.eqb_eq, IH. split.
  - now intros (-> & ->).
  - intros E. injection E. tauto.
Qed.

Lemma escape_xml_without_amp (s : str) :
  ~ In 38%N (escape_xml s) -> escape_xml s = s.
Proof.
  rewrite escape_xml_chars.
  induction s as [|c s IH]; cbn [flat_map]; [reflexivity |].
  intros H.
  assert (Hs : ~ In 38%N (flat_map escape_char s))
    by (intros G; apply H, in_or_app; now right).
  rewrite (IH Hs).
  destruct (escape_char_cases c) as [E | [E | [E | (E & _)]]];
    rewrite E in *; try reflexivity;
    exfalso; apply H, in_or_app; left; cbn; now left.
Qed.

(** A prefix that ends with the first U+0000 of a text is the text up to
    there. *)
Lemma startswith_until_nul (p : str) : forall e t : str,
  nul_free p -> nul_free e ->
  startswith (p ++ [0%N]) (e ++ 0%N :: t) = true -> e = p.
Proof.
  induction p as [|a p IH]; intros [|x e] t Hp He; cbn [app startswith].
  - reflexivity.
  - apply nul_free_cons in He as (Hx & _).
    destruct (N.eqb_spec 0 x); [congruence | discriminate].
  - apply nul_free_cons in Hp as (Ha & _).
    destruct (N.eqb_spec a 0); [congruence | discriminate].
  - apply nul_free_cons in Hp as (_ & Hp).
    apply nul_free_cons in He as (_ & He).
    destruct (N.eqb_spec a x) as [-> | _]; [| discriminate].
    cbn [andb]. intros H. f_equal. exact (IH e t Hp He H).
Qed.

Lemma contains_skip_nul_free (p e t : str) :
  nul_free e -> contains (0%N :: p) (e ++ t) = contains (0%N :: p) t.
Proof.
  induction e as [|x e IH]; intros He; [reflexivity |].
  apply nul_free_cons in He as (Hx & He).
  cbn [app contains]. rewrite (startswith_nul_head _ _ _ Hx).
  exact (IH He).
Qed.

Lemma lit_nul_free_names : nul_free (lit "BOLD") /\ nul_free (lit "ITALIC").
Proof.
  unfold nul_free. cbn. split; intros H;
    repeat (destruct H as [H | H]; [discriminate H |]); exact H.
Qed.

(** The bold placeholder occurs in an italic section only across its
    inner text, when that is the placeholder's own name. *)
Lemma bold_placeholder_in_italic_section (e : str) :
  nul_free e -> e <> lit "BOLD" ->
  contains bold_placeholder (italic_placeholder ++ e ++ italic_placeholder)
  = false.
Proof.
  intros He Hne. destruct lit_nul_free_names as (Hb & Hi).
  change (italic_placeholder ++ e ++ italic_placeholder)
    with (0%N :: lit "ITALIC" ++ 0%N :: e ++ italic_placeholder).
  cbn [contains].
  replace (startswith bold_placeholder
             (0%N :: lit "ITALIC" ++ 0%N :: e ++ italic_placeholder))
    with false by reflexivity.
  cbn [orb]. unfold bold_placeholder at 1.
  rewrite (contains_skip_nul_free _ _ _ Hi).
  cbn [contains]. rewrite (contains_skip_nul_free _ _ _ He).
  replace (contains (0%N :: lit "BOLD" ++ [0%N]) italic_placeholder)
    with false by reflexivity.
  rewrite orb_false_r. cbn [startswith]. cbn [N.eqb andb].
  destruct (startswith (lit "BOLD" ++ [0%N]) (e ++ italic_placeholder))
    eqn:E; [| reflexivity].
  exfalso. apply Hne.
  exact (startswith_until_nul _ e (lit "ITALIC" ++ [0%N]) Hb He E).
Qed.

(** X26.  A text that is one italic section - the italic marker, a
    non-empty inner text on one line, the italic marker - is formatted to
    the escaped inner text between [<i>] and [</i>], for any markers,
    provided the inner text holds neither U+0000 nor the first character
    of a marker; except that the inner text [BOLD] completes the bold
    placeholder with the ends of the two italic ones, and the result is
    then U+0000, [ITALIC<b>ITALIC], U+0000. *)
Theorem format_text_italic_section
    (self : TextFormatter) (cb ci : char) (mb mi inner : str) :
  bold_marker self = cb :: mb ->
  italic_marker self = ci :: mi ->
  inner <> [] ->
  nul_free inner ->
  ~ In newline inner ->
  ~ In ci inner ->
  ~ In cb (italic_marker self ++ inner) ->
  format_text_default self (italic_marker self ++ inner ++ italic_marker self)
  = if str_eqb inner (lit "BOLD")
    then 0%N :: lit "ITALIC<b>ITALIC" ++ [0%N]
    else lit "<i>" ++ escape_xml inner ++ lit "</i>".
Proof.
  intros Eb Ei Hne Hnul Hnl Hci Hcb.
  pose proof (escape_xml_nul_free _ Hnul) as He.
  destruct lit_nul_free_tags as (Hb1 & Hb2 & Hi1 & Hi2).
  unfold format_text_default, format_text. rewrite Eb, Ei in *.
  assert (Hbold : mark_sections (cb :: mb) bold_placeholder
                    ((ci :: mi) ++ inner ++ ci :: mi)
                  = (ci :: mi) ++ inner ++ ci :: mi).
  { unfold mark_sections, finditer.
    rewrite finditer_from_absent; [reflexivity |].
    intros H. apply Hcb. rewrite app_assoc in H.
    apply in_app_or in H as [H | H]; [exact H |].
    apply in_or_app. now left. }
  rewrite Hbold.
  assert (Hitalic : mark_sections (ci :: mi) italic_placeholder
                      ((ci :: mi) ++ inner ++ ci :: mi)
                    = italic_placeholder ++ escape_xml inner
                      ++ italic_placeholder).
  { unfold mark_sections.
    rewrite (finditer_one_section ci mi inner Hne Hci Hnl).
    cbn [rev fold_left app]. unfold wrap_match.
    cbn [m_start m_end m_group1 firstn].
    change (ci :: mi ++ inner ++ ci :: mi)
      with ((ci :: mi) ++ inner ++ ci :: mi).
    rewrite skipn_all. cbn [app]. now rewrite app_nil_r. }
  rewrite Hitalic,
    (section_parts italic_placeholder _ (or_intror eq_refl) He).
  destruct (str_eqb inner (lit "BOLD")) eqn:Einner.
  - apply str_eqb_eq in Einner. subst inner. reflexivity.
  - assert (Hother : escape_xml inner <> lit "BOLD").
    { intros E. rewrite escape_xml_without_amp in E.
      - apply str_eqb_eq in E. congruence.
      - rewrite E. cbn. intuition discriminate. }
    pose proof (bold_placeholder_in_italic_section _ He Hother) as Habs.
    unfold placeholders_to_tags at 2.
    rewrite (absent_replace_first _ _ _ Habs),
      (close_open_loop_absent _ _ _ _ _ Habs).
    exact (section_tags _ _ _ _ italic_tags_short He Hi1 Hi2).
Qed.

Lemma absent_char (c : char) (s : str) :
  existsb (N.eqb c) s = false -> ~ In c s.
Proof.
  intros E H.
  assert (existsb (N.eqb c) s = true); [| congruence].
  apply existsb_exists. exists c. split; [exact H | apply N.eqb_refl].
Qed.

(** One bold section in the default markers: ["**Bold**"]. *)
Lemma format_text_bold_section_witness :
  format_text_default default_formatter (lit "**Bold**")
  = lit "<b>Bold</b>".
Proof.
  refine (format_text_bold_section default_formatter 42%N 95%N [42%N] []
            (lit "Bold") eq_refl eq_refl _ _ _ _ _).
  - discriminate.
  - unfold nul_free; apply absent_char; reflexivity.
  - unfold nul_free; apply absent_char; reflexivity.
  - unfold nul_free; apply absent_char; reflexivity.
  - unfold nul_free; apply absent_char; reflexivity.
Defined.

(** One italic section in the default markers, ["_Italic_"], and the
    inner text [BOLD]. *)
Lemma format_text_italic_section_witness :
  format_text_default default_formatter (lit "_Italic_")
  = lit "<i>Italic</i>"
  /\ format_text_default default_formatter (lit "_BOLD_")
     = 0%N :: lit "ITALIC<b>ITALIC" ++ [0%N].
Proof.
  split.
  - refine (format_text_italic_section default_formatter 42%N 95%N [42%N] []
              (lit "Italic") eq_refl eq_refl _ _ _ _ _).
    + discriminate.
    + unfold nul_free; apply absent_char; reflexivity.
    + unfold nul_free; apply absent_char; reflexivity.
    + unfold nul_free; apply absent_char; reflexivity.
    + unfold nul_free; apply absent_char; reflexivity.
  - refine (format_text_italic_section default_formatter 42%N 95%N [42%N] []
              (lit "BOLD") eq_refl eq_refl _ _ _ _ _).
    + discriminate.
    + unfold nul_free; apply absent_char; reflexivity.
    + unfold nul_free; apply absent_char; reflexivity.
    + unfold nul_free; apply absent_char; reflexivity.
    + unfold nul_free; apply absent_char; reflexivity.
Defined.

End MarkedSection.
